(** * vafast-opentelemetry: the request-tracing middleware and its helpers

    A shallow embedding of [src/index.ts] (the OpenTelemetry plugin for
    Vafast).  The package is effectful JavaScript written against three
    external interfaces: the OpenTelemetry API (tracer, span, context,
    propagation), the tracing SDK ([NodeSDK]) and the Fetch API
    ([Request], [Response], [Headers]).  The package's own functions are
    translated line by line into a small state-and-exception monad; the
    external interfaces are modelled by their documented contracts.  The
    middleware is translated a second time with its suspension points
    ([middleware_async]), for what depends on the event loop: promises
    that stay pending, and invocations in flight together. *)

From Stdlib Require Import String Ascii ZArith List Lia DecimalString.
From stdpp Require Import base tactics option list gmap strings.

(* ================================================================== *)
(** * JavaScript values, completions and promises *)
(* ================================================================== *)

(** The values a handler can throw: instances of [Error] (with their
    identity and [message]), primitives, and other objects (with their
    identity and the string [String(o)] yields). *)
Inductive JsValue : Type :=
| JsUndefined
| JsNull
| JsBool (b : bool)
| JsNumber (n : Z)
| JsString (s : string)
| JsObject (id : nat) (str : string)
| JsError (id : nat) (message : string).

(** [error instanceof Error] *)
Definition instanceof_Error (v : JsValue) : bool :=
  match v with JsError _ _ => true | _ => false end.

(** [err?.message]: [undefined] unless the value carries a message. *)
Definition optional_message (v : JsValue) : option string :=
  match v with JsError _ m => Some m | _ => None end.

(** [error.message], read only after [instanceof Error] succeeded. *)
Definition Error_message (v : JsValue) : string :=
  match v with JsError _ m => m | _ => "" end.

(** [String(error)] for the values above; a number is an integer below
    [10^21] in magnitude, which prints in decimal. *)
Definition js_String (v : JsValue) : string :=
  match v with
  | JsUndefined => "undefined"
  | JsNull => "null"
  | JsBool true => "true"
  | JsBool false => "false"
  | JsNumber n => NilZero.string_of_int (Z.to_int n)
  | JsString s => s
  | JsObject _ str => str
  | JsError _ m => if String.eqb m "" then "Error" else "Error: " +:+ m
  end.

(** The outcome of evaluating a statement or a call. *)
Inductive Completion (A : Type) : Type :=
| Normal (a : A)
| Throw (e : JsValue).
Arguments Normal {A} a.
Arguments Throw {A} e.

(** A settled promise. *)
Inductive Promise (A : Type) : Type :=
| Resolved (a : A)
| Rejected (e : JsValue).
Arguments Resolved {A} a.
Arguments Rejected {A} e.

(** What a span callback may return: a plain value, or a thenable. *)
Inductive WorkResult (A : Type) : Type :=
| Plain (a : A)
| Thenable (p : Promise A).
Arguments Plain {A} a.
Arguments Thenable {A} p.

(* ================================================================== *)
(** * The data of the tracing API *)
(* ================================================================== *)

Inductive SpanKind : Type :=
| KindInternal | KindServer | KindClient | KindProducer | KindConsumer.

(** [SpanStatus]: [{ code, message }]. *)
Inductive SpanStatus : Type :=
| StatusUnset
| StatusOk
| StatusError (message : option string).

Inductive AttrValue : Type :=
| AttrStr (s : string)
| AttrNum (n : Z).

Abbreviation Attributes := (gmap string AttrValue).

(** Trace and span identifiers: the invalid (all zero) identifier, an
    identifier drawn by the SDK's generator, or one received in a header. *)
Inductive Id : Type :=
| IdInvalid
| IdGen (n : nat)
| IdRemote (hex : string).

Record SpanContext : Type := mkSpanContext {
  traceId : Id;
  spanId : Id
}.

Definition INVALID_SPAN_CONTEXT : SpanContext :=
  {| traceId := IdInvalid; spanId := IdInvalid |}.

Definition id_valid (i : Id) : bool :=
  match i with IdInvalid => false | _ => true end.

Definition isSpanContextValid (sc : SpanContext) : bool :=
  id_valid (traceId sc) && id_valid (spanId sc).

(** A reference to a span object: a span of the SDK, stored in the world
    under [ref], or a [NonRecordingSpan] wrapping a span context. *)
Inductive SpanHandle : Type :=
| SdkSpan (ref : nat) (sc : SpanContext)
| NonRecordingSpan (sc : SpanContext).

Definition spanContext (sp : SpanHandle) : SpanContext :=
  match sp with SdkSpan _ sc => sc | NonRecordingSpan sc => sc end.

Inductive CtxValue : Type :=
| CtxSpan (sp : SpanHandle)
| CtxOther (n : nat).

(** A context is an immutable map from (symbol) keys to values; keys made
    by [Symbol.for] are identified by their description. *)
Abbreviation Context := (gmap string CtxValue).

Definition ROOT_CONTEXT : Context := ∅.

Record SpanOptions : Type := mkSpanOptions {
  so_kind : SpanKind;
  so_attributes : Attributes
}.

Definition default_SpanOptions : SpanOptions :=
  {| so_kind := KindInternal; so_attributes := ∅ |}.

(** The state of a span of the SDK. *)
Record SpanData : Type := mkSpanData {
  sd_name : string;
  sd_kind : SpanKind;
  sd_context : SpanContext;
  sd_parent : option SpanContext;
  sd_status : SpanStatus;
  sd_attributes : Attributes;
  sd_exceptions : list JsValue;
  sd_ended : bool
}.

(** The calls of the [Span] interface the package makes. *)
Inductive SpanCall : Type :=
| CallSetStatus (s : SpanStatus)
| CallSetAttributes (a : Attributes)
| CallRecordException (e : JsValue)
| CallUpdateName (n : string)
| CallEnd.

(** The calls made to the tracing API, in program order. *)
Inductive Event : Type :=
| EvStartSpan (sp : SpanHandle) (name : string) (kind : SpanKind) (parent : Context)
| EvSpan (sp : SpanHandle) (c : SpanCall).

(* ================================================================== *)
(** * The data of the Fetch API *)
(* ================================================================== *)

(** [Headers.entries()]: the (name, value) pairs in iteration order. *)
Abbreviation Headers := (list (string * string)).

Record Request : Type := mkRequest {
  req_method : string;
  req_url : string;
  req_headers : Headers
}.

(** A body stream: its text and whether it has been read. *)
Record Body : Type := mkBody {
  body_text : string;
  body_used : bool
}.

(** A response object; [resp_body] is [null] or a reference to a stream. *)
Record Response : Type := mkResponse {
  resp_id : nat;
  resp_status : Z;
  resp_headers : Headers;
  resp_body : option nat
}.

(* ================================================================== *)
(** * The world: everything the package reads or mutates *)
(* ================================================================== *)

Record World : Type := mkWorld {
  w_spans : list SpanData;      (* spans created by the SDK, by reference *)
  w_bodies : list Body;         (* body streams, by reference *)
  w_active : Context;           (* the context manager's active context *)
  w_cm_enabled : bool;          (* a global context manager is registered *)
  w_provider : bool;            (* a global tracer provider is registered *)
  w_next_id : nat;              (* the identifier generator *)
  w_next_obj : nat;             (* identities of new objects *)
  w_log : list Event            (* calls to the tracing API so far *)
}.

Definition set_spans (f : list SpanData → list SpanData) (w : World) : World :=
  mkWorld (f (w_spans w)) (w_bodies w) (w_active w) (w_cm_enabled w)
          (w_provider w) (w_next_id w) (w_next_obj w) (w_log w).
Definition set_bodies (f : list Body → list Body) (w : World) : World :=
  mkWorld (w_spans w) (f (w_bodies w)) (w_active w) (w_cm_enabled w)
          (w_provider w) (w_next_id w) (w_next_obj w) (w_log w).
Definition set_active (c : Context) (w : World) : World :=
  mkWorld (w_spans w) (w_bodies w) c (w_cm_enabled w)
          (w_provider w) (w_next_id w) (w_next_obj w) (w_log w).
Definition set_cm_enabled (b : bool) (w : World) : World :=
  mkWorld (w_spans w) (w_bodies w) (w_active w) b
          (w_provider w) (w_next_id w) (w_next_obj w) (w_log w).
Definition set_provider (b : bool) (w : World) : World :=
  mkWorld (w_spans w) (w_bodies w) (w_active w) (w_cm_enabled w)
          b (w_next_id w) (w_next_obj w) (w_log w).
Definition set_next_id (n : nat) (w : World) : World :=
  mkWorld (w_spans w) (w_bodies w) (w_active w) (w_cm_enabled w)
          (w_provider w) n (w_next_obj w) (w_log w).
Definition set_next_obj (n : nat) (w : World) : World :=
  mkWorld (w_spans w) (w_bodies w) (w_active w) (w_cm_enabled w)
          (w_provider w) (w_next_id w) n (w_log w).
Definition add_log (e : Event) (w : World) : World :=
  mkWorld (w_spans w) (w_bodies w) (w_active w) (w_cm_enabled w)
          (w_provider w) (w_next_id w) (w_next_obj w) (w_log w ++ [e]).

Definition empty_world : World :=
  mkWorld [] [] ROOT_CONTEXT true true 0 0 [].

(* ================================================================== *)
(** * The monad of effectful code *)
(* ================================================================== *)

Definition M (A : Type) : Type := World → Completion A * World.

Definition ret {A} (a : A) : M A := λ w, (Normal a, w).
Definition throw {A} (e : JsValue) : M A := λ w, (Throw e, w).
Definition bind {A B} (m : M A) (f : A → M B) : M B :=
  λ w, match m w with
       | (Normal a, w') => f a w'
       | (Throw e, w') => (Throw e, w')
       end.

Notation "'let*' x := m 'in' k" := (bind m (λ x, k))
  (at level 10, x name, m at level 100, k at level 200).
Notation "m >> k" := (bind m (λ _, k))
  (at level 190, right associativity).

(** [try { body } catch (error) { handler }] *)
Definition try_catch {A} (body : M A) (handler : JsValue → M A) : M A :=
  λ w, match body w with
       | (Normal a, w') => (Normal a, w')
       | (Throw e, w') => handler e w'
       end.

(** [try { body } finally { fin }]: [fin] runs once, whatever [body] did;
    the completion of [body] stands unless [fin] itself throws. *)
Definition try_finally {A} (body : M A) (fin : M unit) : M A :=
  λ w, match body w with
       | (c, w') =>
           match fin w' with
           | (Normal _, w'') => (c, w'')
           | (Throw e, w'') => (Throw e, w'')
           end
       end.

(** Calling an [async] function: the body runs, and its completion
    settles the returned promise; the call itself never throws. *)
Definition async {A} (body : M A) : M (Promise A) :=
  λ w, match body w with
       | (Normal a, w') => (Normal (Resolved a), w')
       | (Throw e, w') => (Normal (Rejected e), w')
       end.

(** [await p] *)
Definition await {A} (p : Promise A) : M A :=
  match p with
  | Resolved a => ret a
  | Rejected e => throw e
  end.

(** [p.then(onFulfilled)], with no rejection handler: a rejection passes
    through and [onFulfilled] does not run. *)
Definition promise_then {A B} (p : Promise A) (onFulfilled : A → M B)
  : M (Promise B) :=
  match p with
  | Resolved a => async (onFulfilled a)
  | Rejected e => ret (Rejected e)
  end.

Definition when (b : bool) (m : M unit) : M unit :=
  if b then m else ret tt.

Definition get_world : M World := λ w, (Normal w, w).
Definition modify (f : World → World) : M unit := λ w, (Normal tt, f w).

(* ================================================================== *)
(** * The platform: what the package takes from its environment *)
(* ================================================================== *)

(** The options of the factory: [serviceName], [instrumentations],
    [contextManager], and the remaining options passed to [NodeSDK]. *)
Record ContextManager : Type := mkContextManager {
  cm_id : nat;
  cm_enable_error : option JsValue   (* what [enable()] throws, if it does *)
}.

Record VafastOpenTelemetryOptions : Type := mkOptions {
  opt_serviceName : option string;
  opt_instrumentations : list nat;
  opt_contextManager : option ContextManager;
  opt_rest : list (string * string)
}.

(** The configuration object handed to [new NodeSDK(...)]. *)
Record NodeSDKConfig : Type := mkNodeSDKConfig {
  cfg_rest : list (string * string);
  cfg_serviceName : string;
  cfg_instrumentations : list nat
}.

Class Platform : Type := mkPlatform {
  (** [new URL(url).pathname] *)
  URL_pathname : string → string;
  (** the global propagator's [extract] *)
  propagation_extract : Context → gmap string string → Context;
  (** the SDK sampler's decision, from the parent span context *)
  should_sample : option SpanContext → bool;
  (** [typeof new Headers().toJSON === 'function'] (Bun) *)
  headerHasToJSON : bool;
  (** whether the API object has the private [_getContextManager] *)
  has_getContextManager : bool;
  (** what [new NodeSDK(config)] throws, if it does *)
  NodeSDK_constructor_error : NodeSDKConfig → option JsValue;
  (** what [sdk.start()] throws, if it does *)
  NodeSDK_start_error : NodeSDKConfig → option JsValue;
  (** whether a [sdk.start()] that returns has registered a global tracer
      provider, and a global context manager: a disabled SDK registers
      neither, an SDK without span processor registers no provider *)
  NodeSDK_start_provider : NodeSDKConfig → bool;
  NodeSDK_start_contextManager : NodeSDKConfig → bool;
  (** the message of the [TypeError] that [response.clone()] throws on a
      body that cannot be used, and the one of [response.text()]; the
      texts differ from one runtime to the other *)
  body_unusable_message : string;
  text_unusable_message : string
}.

(* ================================================================== *)
(** * The contract of the span interface *)
(* ================================================================== *)

(** What a call does to a span of the SDK: nothing once the span has
    ended, otherwise the mutation its name says; [setStatus] replaces the
    status set before (an SDK that keeps a status once it is Ok differs
    there: the theorems on [middleware_async] speak of the calls made,
    not of the status kept). *)
Definition apply_call (c : SpanCall) (s : SpanData) : SpanData :=
  if sd_ended s then s else
  match c with
  | CallSetStatus st =>
      mkSpanData (sd_name s) (sd_kind s) (sd_context s) (sd_parent s)
                 st (sd_attributes s) (sd_exceptions s) (sd_ended s)
  | CallSetAttributes a =>
      mkSpanData (sd_name s) (sd_kind s) (sd_context s) (sd_parent s)
                 (sd_status s) (a ∪ sd_attributes s) (sd_exceptions s) (sd_ended s)
  | CallRecordException e =>
      mkSpanData (sd_name s) (sd_kind s) (sd_context s) (sd_parent s)
                 (sd_status s) (sd_attributes s) (sd_exceptions s ++ [e]) (sd_ended s)
  | CallUpdateName n =>
      mkSpanData n (sd_kind s) (sd_context s) (sd_parent s)
                 (sd_status s) (sd_attributes s) (sd_exceptions s) (sd_ended s)
  | CallEnd =>
      mkSpanData (sd_name s) (sd_kind s) (sd_context s) (sd_parent s)
                 (sd_status s) (sd_attributes s) (sd_exceptions s) true
  end.

(** The state a call leaves: the call is logged, and a span of the SDK is
    updated in place; a [NonRecordingSpan] ignores every call. *)
Definition do_call (sp : SpanHandle) (c : SpanCall) (w : World) : World :=
  add_log (EvSpan sp c)
    (match sp with
     | SdkSpan ref _ => set_spans (alter (apply_call c) ref) w
     | NonRecordingSpan _ => w
     end).

Definition span_call (sp : SpanHandle) (c : SpanCall) : M unit :=
  modify (do_call sp c).

Definition span_setStatus sp st := span_call sp (CallSetStatus st).
Definition span_setAttributes sp a := span_call sp (CallSetAttributes a).
Definition span_recordException sp e := span_call sp (CallRecordException e).
Definition span_updateName sp n := span_call sp (CallUpdateName n).
Definition span_end sp := span_call sp CallEnd.

Definition is_recording (sp : SpanHandle) (w : World) : bool :=
  match sp with
  | SdkSpan ref _ =>
      match w_spans w !! ref with
      | Some s => negb (sd_ended s)
      | None => false
      end
  | NonRecordingSpan _ => false
  end.

(** [span.isRecording()] *)
Definition span_isRecording (sp : SpanHandle) : M bool :=
  λ w, (Normal (is_recording sp w), w).

(* ================================================================== *)
(** * The contract of the context and trace API *)
(* ================================================================== *)

(** The key under which the API keeps the span of a context:
    [createContextKey('OpenTelemetry Context Key SPAN')]. *)
Definition SPAN_KEY : string := "OpenTelemetry Context Key SPAN".

(** [trace.setSpan(context, span)]: a new context, the old one untouched. *)
Definition trace_setSpan (ctx : Context) (sp : SpanHandle) : Context :=
  <[SPAN_KEY := CtxSpan sp]> ctx.

(** [trace.getSpan(context)] *)
Definition trace_getSpan (ctx : Context) : option SpanHandle :=
  match ctx !! SPAN_KEY with
  | Some (CtxSpan sp) => Some sp
  | _ => None
  end.

(** [trace.getSpanContext(context)] *)
Definition trace_getSpanContext (ctx : Context) : option SpanContext :=
  spanContext <$> trace_getSpan ctx.

(** [context.active()]: the root context when no manager is registered. *)
Definition context_active : M Context :=
  λ w, (Normal (if w_cm_enabled w then w_active w else ROOT_CONTEXT), w).

(** [context.with(ctx, fn)]: [fn] runs with [ctx] active, and the former
    active context is restored afterwards, also when [fn] throws. With no
    manager registered, [fn] is just called. *)
Definition context_with {A} (ctx : Context) (fn : M A) : M A :=
  λ w, if w_cm_enabled w then
         match fn (set_active ctx w) with
         | (c, w') => (c, set_active (w_active w) w')
         end
       else fn w.

(** [trace.getActiveSpan()] *)
Definition trace_getActiveSpan : M (option SpanHandle) :=
  let* ctx := context_active in ret (trace_getSpan ctx).

(** A tracer obtained from [trace.getTracer]: a [ProxyTracer] while no
    provider is registered, the SDK's tracer afterwards. *)
Inductive Tracer : Type :=
| ProxyTracer (name : string)
| SdkTracer (name : string).

Definition trace_getTracer (name : string) : M Tracer :=
  λ w, (Normal (if w_provider w then SdkTracer name else ProxyTracer name), w).

Definition is_ProxyTracer (t : Tracer) : bool :=
  match t with ProxyTracer _ => true | SdkTracer _ => false end.

(** A proxy tracer delegates to the SDK once a provider is registered, and
    to the no-op tracer until then. *)
Definition tracer_is_noop (t : Tracer) (w : World) : bool :=
  match t with
  | ProxyTracer _ => negb (w_provider w)
  | SdkTracer _ => false
  end.

Definition valid_parent (ctx : Context) : option SpanContext :=
  match trace_getSpanContext ctx with
  | Some sc => if isSpanContextValid sc then Some sc else None
  | None => None
  end.

Section Api.
Context `{Platform}.

(** [tracer.startSpan(name, options, context)].  The no-op tracer wraps
    the parent's span context (or the invalid one) in a
    [NonRecordingSpan].  The SDK draws a new span identifier, keeps the
    trace identifier of a valid parent and draws a new one otherwise, and
    creates a recording span when the sampler says so. *)
Definition start_span (t : Tracer) (name : string) (options : SpanOptions)
    (ctx : Context) (w : World) : SpanHandle * World :=
  let parent := valid_parent ctx in
  if tracer_is_noop t w then
    let sp := NonRecordingSpan (default INVALID_SPAN_CONTEXT parent) in
    (sp, add_log (EvStartSpan sp name (so_kind options) ctx) w)
  else
    let n := w_next_id w in
    let sc := {| traceId := match parent with
                            | Some p => traceId p
                            | None => IdGen (S n)
                            end;
                 spanId := IdGen n |} in
    let w1 := set_next_id (S (S n)) w in
    if should_sample parent then
      let sp := SdkSpan (length (w_spans w)) sc in
      let data := mkSpanData name (so_kind options) sc parent StatusUnset
                             (so_attributes options) [] false in
      (sp, add_log (EvStartSpan sp name (so_kind options) ctx)
                   (set_spans (λ l, l ++ [data]) w1))
    else
      let sp := NonRecordingSpan sc in
      (sp, add_log (EvStartSpan sp name (so_kind options) ctx) w1).

Definition tracer_startSpan (t : Tracer) (name : string) (options : SpanOptions)
    (ctx : Context) : M SpanHandle :=
  λ w, let (sp, w') := start_span t name options ctx w in (Normal sp, w').

(** [tracer.startActiveSpan(name, options, context, fn)]: starts a span
    under [context] (the active context when none is given) and calls
    [fn(span)] with the span set in the active context. *)
Definition tracer_startActiveSpan {A} (t : Tracer) (name : string)
    (options : SpanOptions) (context : option Context)
    (fn : SpanHandle → M A) : M A :=
  let* active := context_active in
  let parentContext := default active context in
  let* span := tracer_startSpan t name options parentContext in
  context_with (trace_setSpan parentContext span) (fn span).

End Api.

(* ================================================================== *)
(** * The contract of the Fetch API *)
(* ================================================================== *)

(** A new [TypeError]. *)
Definition new_TypeError (message : string) : M JsValue :=
  λ w, (Normal (JsError (w_next_obj w) message),
        set_next_obj (S (w_next_obj w)) w).

Section Fetch.
Context `{Platform}.

(** [response.clone()]: throws a [TypeError] when the body has been read;
    otherwise the clone is a new response with the same status and
    headers, whose body is a new stream over the same text. *)
Definition Response_clone (r : Response) : M Response :=
  match resp_body r with
  | None =>
      λ w, (Normal (mkResponse (w_next_obj w) (resp_status r) (resp_headers r) None),
            set_next_obj (S (w_next_obj w)) w)
  | Some b =>
      λ w, match w_bodies w !! b with
           | Some (mkBody text false) =>
               (Normal (mkResponse (w_next_obj w) (resp_status r) (resp_headers r)
                                   (Some (length (w_bodies w)))),
                set_next_obj (S (w_next_obj w))
                  (set_bodies (λ l, l ++ [mkBody text false]) w))
           | _ => (let* e := new_TypeError body_unusable_message in throw e) w
           end
  end.

(** [response.text()]: reads the body to its end and marks it used; the
    promise rejects with a [TypeError] when the body has been read.  The
    stream is taken to yield its text and close; a stream that errors,
    stays open or is locked is in [Response_text_s] below. *)
Definition Response_text (r : Response) : M (Promise string) :=
  match resp_body r with
  | None => ret (Resolved "")
  | Some b =>
      λ w, match w_bodies w !! b with
           | Some (mkBody text false) =>
               (Normal (Resolved text),
                set_bodies (<[b := mkBody text true]>) w)
           | _ => (let* e := new_TypeError text_unusable_message in
                   ret (Rejected e)) w
           end
  end.

End Fetch.

(** [Object.fromEntries(entries)]: a later entry overwrites an earlier one
    with the same key. *)
Definition Object_fromEntries {V} (entries : list (string * V)) : gmap string V :=
  foldl (λ o kv, <[kv.1 := kv.2]> o) ∅ entries.

(** [headers.toJSON()] (Bun): the same object, built natively. *)
Definition Headers_toJSON (h : Headers) : gmap string string :=
  Object_fromEntries h.

Definition ascii_toLowerCase (c : ascii) : ascii :=
  let n := nat_of_ascii c in
  if (65 <=? n)%nat && (n <=? 90)%nat then ascii_of_nat (n + 32) else c.

(** [s.toLowerCase()] *)
Fixpoint String_toLowerCase (s : string) : string :=
  match s with
  | EmptyString => EmptyString
  | String c s' => String (ascii_toLowerCase c) (String_toLowerCase s')
  end.

(* ================================================================== *)
(** * The package: [src/index.ts] *)
(* ================================================================== *)

(** [ActiveSpanArgs]: the three call shapes of [startActiveSpan]. *)
Inductive ActiveSpanArgs (F : Type) : Type :=
| Args2 (name : string) (fn : F)
| Args3 (name : string) (options : SpanOptions) (fn : F)
| Args4 (name : string) (options : SpanOptions) (context : Context) (fn : F).
Arguments Args2 {F} name fn.
Arguments Args3 {F} name options fn.
Arguments Args4 {F} name options context fn.

(** A span callback: [(span: Span) => unknown]. *)
Definition SpanFn (A : Type) : Type := SpanHandle → M (WorkResult A).

(** [createActiveSpanHandler(fn)] *)
Definition createActiveSpanHandler {A} (fn : SpanFn A) : SpanFn A :=
  λ span,
    try_catch
      (let* result := fn span in
       match result with
       | Thenable p =>
           let* p' := promise_then p (λ result,
                        let* recording := span_isRecording span in
                        when recording (span_end span) >>
                        ret result) in
           ret (Thenable p')
       | Plain a =>
           let* recording := span_isRecording span in
           when recording (span_end span) >>
           ret (Plain a)
       end)
      (λ error,
         let* recording := span_isRecording span in
         if negb recording then throw error else
         let err := error in
         span_setStatus span (StatusError (optional_message err)) >>
         span_recordException span err >>
         span_end span >>
         throw error).

(** [contextKeySpan = Symbol.for('OpenTelemetry Context Key SPAN')] *)
Definition contextKeySpan : string := "OpenTelemetry Context Key SPAN".

Section Package.
Context `{Platform}.

(** The object [getTracer()] returns. *)
Record WrappedTracer : Type := mkWrappedTracer {
  wt_startSpan : string → SpanOptions → option Context → M SpanHandle;
  wt_startActiveSpan : ∀ A, ActiveSpanArgs (SpanFn A) → M (WorkResult A)
}.

(** [getTracer()] *)
Definition getTracer : M WrappedTracer :=
  let* tracer := trace_getTracer "@vafast/vafast" in
  ret {|
    wt_startSpan name options context :=
      let* active := context_active in
      tracer_startSpan tracer name options (default active context);
    wt_startActiveSpan A args :=
      match args with
      | Args2 name fn =>
          tracer_startActiveSpan tracer name default_SpanOptions None
            (createActiveSpanHandler fn)
      | Args3 name options fn =>
          tracer_startActiveSpan tracer name options None
            (createActiveSpanHandler fn)
      | Args4 name options context fn =>
          tracer_startActiveSpan tracer name options (Some context)
            (createActiveSpanHandler fn)
      end
  |}.

(** [startActiveSpan(...args)], also exported as [record]. *)
Definition startActiveSpan {A} (args : ActiveSpanArgs (SpanFn A))
  : M (WorkResult A) :=
  let* tracer := getTracer in
  match args with
  | Args2 name fn =>
      wt_startActiveSpan tracer A (Args2 name (createActiveSpanHandler fn))
  | Args3 name options fn =>
      wt_startActiveSpan tracer A (Args3 name options (createActiveSpanHandler fn))
  | Args4 name options context fn =>
      wt_startActiveSpan tracer A
        (Args4 name options context (createActiveSpanHandler fn))
  end.

Definition record {A} := @startActiveSpan A.

(** [getCurrentSpan()] *)
Definition getCurrentSpan : M (option SpanHandle) :=
  let* active := context_active in
  ret (match active !! contextKeySpan with
       | Some (CtxSpan current) => Some current
       | _ => None
       end).

(** [setAttributes(attributes)]: [!!getCurrentSpan()?.setAttributes(attributes)];
    a span's [setAttributes] returns the span itself. *)
Definition setAttributes (attributes : Attributes) : M bool :=
  let* current := getCurrentSpan in
  match current with
  | Some span => span_setAttributes span attributes >> ret true
  | None => ret false
  end.

(** The attributes the middleware collects before the body is measured. *)
Definition basic_attributes (req : Request) (response : Response) : Attributes :=
  <["http.response.status_code" := AttrNum (resp_status response)]>
  (<["url.full" := AttrStr (req_url req)]>
  (<["url.path" := AttrStr (URL_pathname (req_url req))]>
  (<["http.request.method" := AttrStr (req_method req)]> ∅))).

(** The loop over [req.headers.entries()]. *)
Definition add_request_headers (entries : Headers) (attributes : Attributes)
  : Attributes :=
  foldl (λ attributes kv,
           if String.eqb (String_toLowerCase kv.1) "user-agent" then attributes
           else <["http.request.header." +:+ String_toLowerCase kv.1
                  := AttrStr kv.2]> attributes)
        attributes entries.

(** The loop over [response.headers.entries()]. *)
Definition add_response_headers (entries : Headers) (attributes : Attributes)
  : Attributes :=
  foldl (λ attributes kv,
           <["http.response.header." +:+ String_toLowerCase kv.1
             := AttrStr kv.2]> attributes)
        attributes entries.

(** The middleware [opentelemetry(...)] returns, for the tracer it
    resolved. *)
Definition middleware (tracer : Tracer) (req : Request)
    (next : M (Promise Response)) : M (Promise Response) :=
  async (
    let headers :=
      if headerHasToJSON then Headers_toJSON (req_headers req)
      else Object_fromEntries (req_headers req) in
    let* active := context_active in
    let ctx := propagation_extract active headers in
    let* result :=
      tracer_startActiveSpan tracer "request"
        {| so_kind := KindServer; so_attributes := ∅ |} (Some ctx)
        (λ rootSpan, async (
           let* pending :=
             context_with (trace_setSpan ctx rootSpan) (async (
               try_finally
                 (try_catch
                    (let* pending := next in
                     let* response := await pending in
                     span_setStatus rootSpan StatusOk >>
                     let attributes := basic_attributes req response in
                     let* attributes :=
                       match resp_body response with
                       | Some _ =>
                           let* clonedResponse := Response_clone response in
                           let* pending := Response_text clonedResponse in
                           let* text := await pending in
                           ret (<["http.response.body.size"
                                  := AttrNum (Z.of_nat (String.length text))]>
                                  attributes)
                       | None => ret attributes
                       end in
                     let attributes :=
                       add_request_headers (req_headers req) attributes in
                     let attributes :=
                       add_response_headers (resp_headers response) attributes in
                     span_setAttributes rootSpan attributes >>
                     ret response)
                    (λ error,
                       span_setStatus rootSpan
                         (StatusError
                            (Some (if instanceof_Error error
                                   then Error_message error
                                   else js_String error))) >>
                       when (instanceof_Error error)
                            (span_recordException rootSpan error) >>
                       throw error))
                 (let pathname := URL_pathname (req_url req) in
                  span_updateName rootSpan (req_method req +:+ " " +:+ pathname) >>
                  span_end rootSpan))) in
           let* response := await pending in
           ret response)) in
    await result).

Abbreviation Middleware := (Request → M (Promise Response) → M (Promise Response)).

(** [new NodeSDK(config)] followed by [sdk.start()]: either may throw;
    a start that returns has registered the provider and the SDK's
    context manager, unless the SDK is configured not to. *)
Definition NodeSDK_new (config : NodeSDKConfig) : M NodeSDKConfig :=
  match NodeSDK_constructor_error config with
  | Some e => throw e
  | None => ret config
  end.

Definition NodeSDK_start (sdk : NodeSDKConfig) : M unit :=
  match NodeSDK_start_error sdk with
  | Some e => throw e
  | None =>
      modify (λ w,
        let w := if NodeSDK_start_provider sdk then set_provider true w else w in
        if NodeSDK_start_contextManager sdk then set_cm_enabled true w else w)
  end.

(** [otelContext._getContextManager?.()]: the registered manager or the
    no-op manager, both objects, when the method exists; [undefined]
    otherwise.  The result is whether the value is truthy. *)
Definition context_getContextManager_truthy : M bool :=
  ret has_getContextManager.

(** [contextManager.enable()] *)
Definition ContextManager_enable (cm : ContextManager) : M unit :=
  match cm_enable_error cm with
  | Some e => throw e
  | None => ret tt
  end.

(** [otelContext.setGlobalContextManager(contextManager)] *)
Definition context_setGlobalContextManager (cm : ContextManager) : M bool :=
  λ w, if w_cm_enabled w then (Normal false, w)
       else (Normal true, set_cm_enabled true w).

(** [opentelemetry(options)]: the factory. *)
Definition opentelemetry (options : VafastOpenTelemetryOptions) : M Middleware :=
  let serviceName := default "@vafast/vafast" (opt_serviceName options) in
  let instrumentations := opt_instrumentations options in
  let contextManager := opt_contextManager options in
  let* tracer := trace_getTracer serviceName in
  let* tracer :=
    if is_ProxyTracer tracer then
      let* sdk := NodeSDK_new {| cfg_rest := opt_rest options;
                                 cfg_serviceName := serviceName;
                                 cfg_instrumentations := instrumentations |} in
      NodeSDK_start sdk >>
      trace_getTracer serviceName
    else ret tracer in
  let* installed := context_getContextManager_truthy in
  match negb installed, contextManager with
  | true, Some contextManager =>
      try_catch
        (ContextManager_enable contextManager >>
         let* _ := context_setGlobalContextManager contextManager in
         ret tt)
        (λ _, ret tt)
  | _, _ => ret tt
  end >>
  ret (middleware tracer).

End Package.

(* ================================================================== *)
(** * A concrete platform, for running the model *)
(* ================================================================== *)

Module Sample.

(** The path of a serialised [http(s)] URL: from the first [/] after the
    authority up to the query or fragment. *)
Fixpoint take_path (s : string) : string :=
  match s with
  | EmptyString => EmptyString
  | String c s' =>
      if Ascii.eqb c "?" || Ascii.eqb c "#" then EmptyString
      else String c (take_path s')
  end.

Fixpoint skip_authority (s : string) : string :=
  match s with
  | EmptyString => "/"
  | String c s' =>
      if Ascii.eqb c "/" then take_path s
      else if Ascii.eqb c "?" || Ascii.eqb c "#" then "/"
      else skip_authority s'
  end.

Fixpoint pathname (s : string) : string :=
  match s with
  | String ":" (String "/" (String "/" rest)) => skip_authority rest
  | String _ s' => pathname s'
  | EmptyString => "/"
  end.

Definition is_hex (c : ascii) : bool :=
  let n := nat_of_ascii c in
  ((48 <=? n) && (n <=? 57) || (97 <=? n) && (n <=? 102))%nat.

Fixpoint all_hex (s : string) : bool :=
  match s with
  | EmptyString => true
  | String c s' => is_hex c && all_hex s'
  end.

Fixpoint all_zero (s : string) : bool :=
  match s with
  | EmptyString => true
  | String c s' => Ascii.eqb c "0" && all_zero s'
  end.

(** The W3C [traceparent] header: [00-<trace id>-<span id>-<flags>]. *)
Definition parse_traceparent (v : string) : option SpanContext :=
  let version := substring 0 2 v in
  let trace := substring 3 32 v in
  let span := substring 36 16 v in
  let flags := substring 53 2 v in
  if (String.length v =? 55)%nat
     && String.eqb (substring 2 1 v) "-"
     && String.eqb (substring 35 1 v) "-"
     && String.eqb (substring 52 1 v) "-"
     && all_hex version && negb (String.eqb version "ff")
     && all_hex trace && negb (all_zero trace)
     && all_hex span && negb (all_zero span)
     && all_hex flags
  then Some {| traceId := IdRemote trace; spanId := IdRemote span |}
  else None.

(** The W3C trace-context propagator, the SDK's default. *)
Definition w3c_extract (ctx : Context) (carrier : gmap string string) : Context :=
  match carrier !! "traceparent" with
  | Some v =>
      match parse_traceparent v with
      | Some sc => trace_setSpan ctx (NonRecordingSpan sc)
      | None => ctx
      end
  | None => ctx
  end.

Definition platform : Platform :=
  {| URL_pathname := pathname;
     propagation_extract := w3c_extract;
     should_sample := λ _, true;
     headerHasToJSON := false;
     has_getContextManager := true;
     NodeSDK_constructor_error := λ _, None;
     NodeSDK_start_error := λ _, None;
     NodeSDK_start_provider := λ _, true;
     NodeSDK_start_contextManager := λ _, true;
     body_unusable_message := "Body is unusable";
     text_unusable_message := "Body is unusable" |}.

Definition boom : JsValue := JsError 7 "boom".

Definition get_search : Request :=
  mkRequest "GET" "http://localhost/search?q=test-search&limit=10"
            [("accept", "*/*"); ("user-agent", "vitest")].

Definition ok_response : Response :=
  mkResponse 1 200 [("content-type", "application/json")] (Some 0).

(** A world with one unread body stream, the one of [ok_response]. *)
Definition world1 : World :=
  mkWorld [] [mkBody "{}" false] ROOT_CONTEXT true true 0 10 [].

(** A world in which the body of [ok_response] has already been read. *)
Definition world_used : World :=
  mkWorld [] [mkBody "{}" true] ROOT_CONTEXT true true 0 10 [].

Definition post_data : Request :=
  mkRequest "POST" "http://localhost/data"
            [("content-type", "application/json")].

Definition tracer : Tracer := SdkTracer "@vafast/vafast".

Definition traceparent : string :=
  "00-0af7651916cd43dd8448eb211c80319c-b7ad6b7169203331-01".

(** Two requests of one distributed trace. *)
Definition traced_a : Request :=
  mkRequest "GET" "http://localhost/concurrent/0" [("traceparent", traceparent)].
Definition traced_b : Request :=
  mkRequest "GET" "http://localhost/concurrent/1" [("traceparent", traceparent)].

(** The SDK is started and nothing else has happened. *)
Definition world_started : World :=
  mkWorld [] [] ROOT_CONTEXT true true 0 0 [].



(** A world in which no SDK has been started. *)
Definition world_bare : World :=
  mkWorld [] [] ROOT_CONTEXT false false 0 0 [].

Definition options_default : VafastOpenTelemetryOptions :=
  mkOptions None [] None [].

(** Options with a context manager whose [enable()] throws. *)
Definition options_bad_manager : VafastOpenTelemetryOptions :=
  mkOptions (Some "test-app") [] (Some (mkContextManager 1 (Some boom))) [].

(** Span callbacks that fail with [boom], in the two possible ways. *)
Definition work_throws : SpanFn nat := λ _, throw boom.
Definition work_rejects : SpanFn nat := λ _, ret (Thenable (Rejected boom)).

Definition next_ok : M (Promise Response) := ret (Resolved ok_response).
Definition next_throw : M (Promise Response) := throw boom.
Definition next_reject : M (Promise Response) := ret (Rejected boom).

End Sample.

(* ================================================================== *)
(** * One run of the middleware, step by step *)
(* ================================================================== *)

Section Run.
Context `{Platform}.

(** [context.active()], as a function of the world. *)
Definition active_context (w : World) : Context :=
  if w_cm_enabled w then w_active w else ROOT_CONTEXT.

(** The carrier the propagator reads: the request's headers as an object. *)
Definition request_headers (req : Request) : gmap string string :=
  if headerHasToJSON then Headers_toJSON (req_headers req)
  else Object_fromEntries (req_headers req).

(** [ctx]: the context extracted from the request headers. *)
Definition request_context (req : Request) (w : World) : Context :=
  propagation_extract (active_context w) (request_headers req).

(** The root span and the world in which the middleware calls [next]:
    the span has been started under [ctx] and set in the active context. *)
Definition enter (tracer : Tracer) (req : Request) (w : World)
  : SpanHandle * World :=
  let ctx := request_context req w in
  let (rootSpan, w') :=
    start_span tracer "request" {| so_kind := KindServer; so_attributes := ∅ |}
               ctx w in
  (rootSpan,
   if w_cm_enabled w then set_active (trace_setSpan ctx rootSpan) w' else w').

(** Leaving the two [context.with] scopes restores the active context. *)
Definition leave (before w : World) : World :=
  if w_cm_enabled before then set_active (w_active before) w else w.

Definition do_calls (sp : SpanHandle) (calls : list SpanCall) (w : World) : World :=
  foldl (λ w c, do_call sp c w) w calls.

(** The name the span gets in the [finally] block. *)
Definition final_name (req : Request) : string :=
  req_method req +:+ " " +:+ URL_pathname (req_url req).

(** The calls of the [finally] block. *)
Definition final_calls (req : Request) : list SpanCall :=
  [CallUpdateName (final_name req); CallEnd].

(** The status set in the [catch] block. *)
Definition error_status (error : JsValue) : SpanStatus :=
  StatusError (Some (if instanceof_Error error then Error_message error
                     else js_String error)).

(** The calls of the [catch] block. *)
Definition failure_calls (error : JsValue) : list SpanCall :=
  CallSetStatus (error_status error)
  :: (if instanceof_Error error then [CallRecordException error] else []).

(** The attributes the [try] block has collected when it calls
    [setAttributes], given the measured body size, if any. *)
Definition collected_attributes (req : Request) (response : Response)
    (size : option nat) : Attributes :=
  add_response_headers (resp_headers response)
    (add_request_headers (req_headers req)
       (match size with
        | Some n => <["http.response.body.size" := AttrNum (Z.of_nat n)]>
                      (basic_attributes req response)
        | None => basic_attributes req response
        end)).

(** The [try] block after [await next()] has produced [response]. *)
Definition annotate (rootSpan : SpanHandle) (req : Request) (response : Response)
  : M Response :=
  span_setStatus rootSpan StatusOk >>
  let attributes := basic_attributes req response in
  let* attributes :=
    match resp_body response with
    | Some _ =>
        let* clonedResponse := Response_clone response in
        let* pending := Response_text clonedResponse in
        let* text := await pending in
        ret (<["http.response.body.size"
               := AttrNum (Z.of_nat (String.length text))]> attributes)
    | None => ret attributes
    end in
  let attributes := add_request_headers (req_headers req) attributes in
  let attributes := add_response_headers (resp_headers response) attributes in
  span_setAttributes rootSpan attributes >>
  ret response.

(** A response whose body can be cloned and read: it has no body, or its
    body stream exists and has not been read. *)
Definition body_readable (response : Response) (w : World) : bool :=
  match resp_body response with
  | None => true
  | Some b =>
      match w_bodies w !! b with
      | Some body => negb (body_used body)
      | None => false
      end
  end.

(** The size the middleware measures: the length of the body's text. *)
Definition measured_size (response : Response) (w : World) : option nat :=
  match resp_body response with
  | None => None
  | Some b => (λ body, String.length (body_text body)) <$> (w_bodies w !! b)
  end.

(** What cloning and reading the clone leave behind: a new, fully read
    stream and a new response object. *)
Definition after_clone (response : Response) (w : World) : World :=
  match resp_body response with
  | None => w
  | Some b =>
      match w_bodies w !! b with
      | Some body =>
          set_next_obj (S (w_next_obj w))
            (set_bodies (λ l, l ++ [mkBody (body_text body) true]) w)
      | None => w
      end
  end.

(** [strip_prefix p k]: what follows [p] in [k], when [k] starts with [p]. *)
Fixpoint strip_prefix (p k : string) : option string :=
  match p, k with
  | EmptyString, _ => Some k
  | String a p', String b k' =>
      if Ascii.eqb a b then strip_prefix p' k' else None
  | String _ _, EmptyString => None
  end.

(** The value of the last entry whose lower-cased name is [name]. *)
Definition last_header (name : string) (entries : Headers) : option string :=
  foldl (λ found kv,
           if decide (String_toLowerCase kv.1 = name) then Some kv.2 else found)
        None entries.

(** The attributes of a successful request as the specification lists
    them, key by key: the method, the path, the full URL, the status
    code, the body size when the response has a body, one entry per
    request header under its lower-cased name except [user-agent], and
    one entry per response header under its lower-cased name. *)
Definition spec_attribute (req : Request) (response : Response)
    (size : option nat) (k : string) : option AttrValue :=
  if decide (k = "http.request.method") then Some (AttrStr (req_method req))
  else if decide (k = "url.path") then
    Some (AttrStr (URL_pathname (req_url req)))
  else if decide (k = "url.full") then Some (AttrStr (req_url req))
  else if decide (k = "http.response.status_code") then
    Some (AttrNum (resp_status response))
  else if decide (k = "http.response.body.size") then
    (λ n, AttrNum (Z.of_nat n)) <$> size
  else
    match strip_prefix "http.request.header." k with
    | Some name =>
        if decide (name = "user-agent") then None
        else AttrStr <$> last_header name (req_headers req)
    | None =>
        match strip_prefix "http.response.header." k with
        | Some name => AttrStr <$> last_header name (resp_headers response)
        | None => None
        end
    end.

(** The [TypeError] that [response.clone()] throws in world [w]. *)
Definition clone_error (w : World) : JsValue :=
  JsError (w_next_obj w) body_unusable_message.

(** What the middleware does once [next] has completed with [c] in world
    [w1]: the promise it returns, ... *)
Definition result_after_next (c : Completion (Promise Response)) (w1 : World)
  : Promise Response :=
  match c with
  | Normal (Resolved response) =>
      if body_readable response w1 then Resolved response
      else Rejected (clone_error w1)
  | Normal (Rejected e) | Throw e => Rejected e
  end.

(** ... the calls it makes on the root span, ... *)
Definition calls_after_next (req : Request) (c : Completion (Promise Response))
    (w1 : World) : list SpanCall :=
  match c with
  | Normal (Resolved response) =>
      if body_readable response w1 then
        [CallSetStatus StatusOk;
         CallSetAttributes
           (collected_attributes req response (measured_size response w1))]
        ++ final_calls req
      else
        CallSetStatus StatusOk
        :: failure_calls (clone_error w1) ++ final_calls req
  | Normal (Rejected e) | Throw e => failure_calls e ++ final_calls req
  end.

(** ... and what it does to the objects of the Fetch API. *)
Definition fetch_after_next (c : Completion (Promise Response)) (w1 : World)
  : World :=
  match c with
  | Normal (Resolved response) =>
      if body_readable response w1 then after_clone response w1
      else set_next_obj (S (w_next_obj w1)) w1
  | _ => w1
  end.

(** The state of a span after a sequence of calls. *)
Definition apply_calls (calls : list SpanCall) (s : SpanData) : SpanData :=
  foldl (λ s c, apply_call c s) s calls.

(** The configuration the factory hands to [new NodeSDK(...)]. *)
Definition sdk_config (options : VafastOpenTelemetryOptions) : NodeSDKConfig :=
  {| cfg_rest := opt_rest options;
     cfg_serviceName := default "@vafast/vafast" (opt_serviceName options);
     cfg_instrumentations := opt_instrumentations options |}.

(** The calls [createActiveSpanHandler] makes when [fn] throws on a
    recording span. *)
Definition thrown_calls (e : JsValue) : list SpanCall :=
  [CallSetStatus (StatusError (optional_message e));
   CallRecordException e; CallEnd].

Definition is_end (c : SpanCall) : bool :=
  match c with CallEnd => true | _ => false end.
Definition is_updateName (c : SpanCall) : bool :=
  match c with CallUpdateName _ => true | _ => false end.
Definition is_setAttributes (c : SpanCall) : bool :=
  match c with CallSetAttributes _ => true | _ => false end.
Definition is_start (e : Event) : bool :=
  match e with EvStartSpan _ _ _ _ => true | _ => false end.

Definition is_end_event (e : Event) : bool :=
  match e with EvSpan _ CallEnd => true | _ => false end.


(** How many elements of a list satisfy a test. *)
Definition count {A} (p : A → bool) (l : list A) : nat :=
  length (List.filter p l).

End Run.

(* ================================================================== *)
(** * What a handler sees of the active span *)
(* ================================================================== *)

(** What a handler sees: [trace.getActiveSpan()?.spanContext()]. *)
Definition observe (w : World) : option SpanContext :=
  match (trace_getActiveSpan w).1 with
  | Normal (Some span) => Some (spanContext span)
  | _ => None
  end.

Module SampleRun.

(** The root span and the world in which [next] runs, for the request
    [GET /search] on the sample platform. *)
Definition entered : SpanHandle * World :=
  @enter Sample.platform Sample.tracer Sample.get_search Sample.world1.

End SampleRun.

(* ================================================================== *)
(** * The remaining helpers of [src/index.ts] and of the tests *)
(* ================================================================== *)

(** JavaScript numbers, as far as [parseNumericString] uses them. *)
Class NumberApi : Type := mkNumberApi {
  JsNum : Type;
  (** [Number(s)] *)
  js_Number : string → JsNum;
  (** [Number.isNaN(n)] *)
  js_isNaN : JsNum → bool;
  (** [n.toString()] *)
  js_toString : JsNum → string;
  (** [s.trim()] *)
  js_trim : string → string
}.

Section ParseNumeric.
Context `{NumberApi}.

(** [parseNumericString(message)]; [null] is [None]. *)
Definition parseNumericString (message : string) : option JsNum :=
  if String.length message <? 16 then
    if String.length message =? 0 then None
    else
      let length := js_Number message in
      if js_isNaN length then None
      else Some length
  else if String.length message =? 16 then
    let number := js_Number message in
    if negb (String.eqb (js_toString number) message)
       || (String.length (js_trim message) =? 0)
       || js_isNaN number
    then None
    else Some number
  else None.

End ParseNumeric.

(** [isNotEmpty(obj)]: [obj] is [undefined] or an object with its own
    enumerable properties; the loop returns at the first key. *)
Definition isNotEmpty {V} (obj : option (gmap string V)) : bool :=
  match obj with
  | None => false
  | Some obj =>
      match map_to_list obj with
      | _ :: _ => true
      | [] => false
      end
  end.

(** [CapturedSpan] of [test/test-setup.ts]. *)
Record CapturedSpan : Type := mkCapturedSpan {
  cs_name : option string;
  cs_traceId : Id;
  cs_spanId : Id;
  cs_isRecording : bool
}.

(** [captureSpanData(spanName)]: the module's array [capturedSpans] is
    passed in and returned. *)
Definition captureSpanData (spanName : option string)
    (capturedSpans : list CapturedSpan)
  : M (option CapturedSpan * list CapturedSpan) :=
  let* span := trace_getActiveSpan in
  match span with
  | None => ret (None, capturedSpans)
  | Some span =>
      let context := spanContext span in
      let* recording := span_isRecording span in
      let captured :=
        {| cs_name := spanName;
           cs_traceId := traceId context;
           cs_spanId := spanId context;
           cs_isRecording := recording |} in
      ret (Some captured, capturedSpans ++ [captured])
  end.

(** [resetCapturedSpans()] *)
Definition resetCapturedSpans (capturedSpans : list CapturedSpan)
  : list CapturedSpan := [].

Module SampleNumber.

(** Numbers for running [parseNumericString]: the integers and [NaN];
    [Number] reads decimal integers. *)
Definition trim_left : string → string :=
  fix go (s : string) : string :=
    match s with
    | String c s' => if Ascii.eqb c " " then go s' else s
    | EmptyString => EmptyString
    end.

Definition reverse_string (s : string) : string :=
  string_of_list_ascii (rev (list_ascii_of_string s)).

Definition trim (s : string) : string :=
  reverse_string (trim_left (reverse_string (trim_left s))).

Definition number_api : NumberApi :=
  {| JsNum := option Z;
     js_Number := λ s, Z.of_int <$> NilZero.int_of_string s;
     js_isNaN := λ n, match n with None => true | Some _ => false end;
     js_toString := λ n, match n with
                         | None => "NaN"
                         | Some z => NilZero.string_of_int (Z.to_int z)
                         end;
     js_trim := trim |}.

End SampleNumber.

Module SampleSpan.

(** A world in which one span has been started and is the current span. *)
Definition context : SpanContext := {| traceId := IdGen 1; spanId := IdGen 0 |}.
Definition span : SpanHandle := SdkSpan 0 context.
Definition data : SpanData :=
  mkSpanData "op" KindInternal context None StatusUnset ∅ [] false.
Definition world : World :=
  mkWorld [data] [] (trace_setSpan ROOT_CONTEXT span) true true 2 0 [].

(** The same world after the span has ended. *)
Definition world_ended : World :=
  mkWorld [apply_call CallEnd data] [] (trace_setSpan ROOT_CONTEXT span)
          true true 2 0 [].

(** The same world with no context manager registered. *)
Definition world_unmanaged : World :=
  mkWorld [data] [] (trace_setSpan ROOT_CONTEXT span) false true 2 0 [].

Definition attributes : Attributes :=
  <["route.handler" := AttrStr "attributes-test"]> ∅.

End SampleSpan.

(* ================================================================== *)
(** * The middleware on the event loop *)
(* ================================================================== *)

(** [middleware] above runs an invocation from the call to the settlement
    of the promise it returns, as if every promise it awaits settled at
    once.  The definitions of this part keep the suspension points of the
    code: an [await] suspends the invocation, the event loop may run jobs
    of other invocations before it resumes it, and an awaited promise may
    never settle.  They also keep what the environment may do at the two
    places where [middleware] fixes it: how the stream of a body ends, and
    what [String(error)] does. *)

(** How the stream of a body ends when it is read, and whether a reader
    holds it. *)
Inductive Stream : Type :=
| StreamCloses                  (* the stream yields its text and closes *)
| StreamErrors (e : JsValue)    (* the stream errors with [e] *)
| StreamNeverCloses             (* the stream stays open for ever *)
| StreamLocked.                 (* a reader has locked the stream *)

(** What handlers have seen of the active span: the number of the
    invocation, and the span context of [trace.getActiveSpan()]. *)
Abbreviation Sighting := (nat * option SpanContext)%type.

Record Runtime : Type := mkRuntime {
  rt_world : World;
  rt_streams : gmap nat Stream;   (* by body reference; absent: it closes *)
  rt_seen : list Sighting
}.

Definition set_world (w : World) (s : Runtime) : Runtime :=
  mkRuntime w (rt_streams s) (rt_seen s).
Definition set_streams (m : gmap nat Stream) (s : Runtime) : Runtime :=
  mkRuntime (rt_world s) m (rt_seen s).
Definition add_seen (x : Sighting) (s : Runtime) : Runtime :=
  mkRuntime (rt_world s) (rt_streams s) (rt_seen s ++ [x]).

Definition stream_of (s : Runtime) (b : nat) : Stream :=
  default StreamCloses (rt_streams s !! b).

(** Synchronous code: a call runs to its completion. *)
Definition Sync (A : Type) : Type := Runtime → Completion A * Runtime.

Definition ret_s {A} (a : A) : Sync A := λ s, (Normal a, s).
Definition bind_s {A B} (m : Sync A) (f : A → Sync B) : Sync B :=
  λ s, match m s with
       | (Normal a, s') => f a s'
       | (Throw e, s') => (Throw e, s')
       end.

(** The code embedded above, run on the world of the runtime. *)
Definition lift {A} (m : M A) : Sync A :=
  λ s, let (c, w) := m (rt_world s) in (c, set_world w s).

(** An asynchronous computation after it has run up to a suspension: it
    is done, or it awaits a promise that never settles, or it is
    suspended and a job of the event loop will resume it.  The same
    type describes the promise of an [async] function that has been
    called: settled, for ever pending, or pending on a job. *)
#[warnings="-register-all"]
Inductive Step (A : Type) : Type :=
| Done (c : Completion A)
| Never
| Await (job : Runtime → Step A * Runtime).
Arguments Done {A} c.
Arguments Never {A}.
Arguments Await {A} job.

(** The body of an [async] function: it runs up to its first suspension. *)
Definition AM (A : Type) : Type := Runtime → Step A * Runtime.

Definition ret_a {A} (a : A) : AM A := λ s, (Done (Normal a), s).
Definition throw_a {A} (e : JsValue) : AM A := λ s, (Done (Throw e), s).

(** A synchronous call inside an [async] function. *)
Definition call {A} (m : Sync A) : AM A :=
  λ s, let (c, s') := m s in (Done c, s').

(** What follows a computation runs when it is done, in the job that
    completes it. *)
Fixpoint graft {A B} (t : Step A) (f : Completion A → AM B) (s : Runtime)
  : Step B * Runtime :=
  match t with
  | Done c => f c s
  | Never => (Never, s)
  | Await job => (Await (λ s', let (t', s'') := job s' in graft t' f s''), s)
  end.

Definition bind_a {A B} (m : AM A) (f : A → AM B) : AM B :=
  λ s, let (t, s') := m s in
       graft t (λ c, match c with
                     | Normal a => f a
                     | Throw e => throw_a e
                     end) s'.

Notation "'let!' x := m 'in' k" := (bind_a m (λ x, k))
  (at level 10, x name, m at level 100, k at level 200).
Notation "m >>! k" := (bind_a m (λ _, k))
  (at level 190, right associativity).

(** [try { body } catch (error) { handler }] around code that awaits *)
Definition try_catch_a {A} (body : AM A) (handler : JsValue → AM A) : AM A :=
  λ s, let (t, s') := body s in
       graft t (λ c, match c with
                     | Normal a => ret_a a
                     | Throw e => handler e
                     end) s'.

(** [try { body } finally { fin }] around code that awaits: [fin] runs
    when [body] is done; while [body] is suspended it has not run. *)
Definition try_finally_a {A} (body : AM A) (fin : Sync unit) : AM A :=
  λ s, let (t, s') := body s in
       graft t (λ c s1, match fin s1 with
                        | (Normal _, s2) => (Done c, s2)
                        | (Throw e, s2) => (Done (Throw e), s2)
                        end) s'.

(** Calling an [async] function: the body runs up to its first
    suspension and the call returns the promise. *)
Definition async_fn {A} (body : AM A) : Sync (Step A) :=
  λ s, let (t, s') := body s in (Normal t, s').

(** The context manager of the SDK keeps the active context per
    asynchronous execution: a continuation runs in the context that was
    active where it was suspended. *)
Definition reenter (ctx : Context) (s : Runtime) : Runtime :=
  if w_cm_enabled (rt_world s) then set_world (set_active ctx (rt_world s)) s
  else s.

(** Awaiting the promise [t] in context [ctx]: the jobs of [t] run first;
    once it has settled, one more job resumes the awaiting code in [ctx]. *)
Fixpoint resume {A} (ctx : Context) (t : Step A) : Step A :=
  match t with
  | Done c => Await (λ s, (Done c, reenter ctx s))
  | Never => Never
  | Await job => Await (λ s, let (t', s') := job s in (resume ctx t', s'))
  end.

(** [await p] *)
Definition await_a {A} (p : Step A) : AM A :=
  λ s, (resume (w_active (rt_world s)) p, s).

(** A promise of the embedding above, as a promise of this one. *)
Definition settled {A} (p : Promise A) : Step A :=
  match p with
  | Resolved a => Done (Normal a)
  | Rejected e => Done (Throw e)
  end.

(** A [next] as [middleware] takes it, for [middleware_async]: the
    promise it returns has settled. *)
Definition lifted (next : M (Promise Response)) : Sync (Step Response) :=
  λ s, let (c, w) := next (rt_world s) in
       (match c with
        | Normal p => Normal (settled p)
        | Throw e => Throw e
        end, set_world w s).

(** How the promise that [middleware] returns has ended. *)
Definition ended (c : Completion (Promise Response)) : Completion Response :=
  match c with
  | Normal (Resolved response) => Normal response
  | Normal (Rejected e) | Throw e => Throw e
  end.

(** How a promise ends when the event loop runs its jobs one after the
    other, and nothing else. *)
Inductive Outcome (A : Type) : Type :=
| Settled (c : Completion A)
| Unsettled.
Arguments Settled {A} c.
Arguments Unsettled {A}.

Fixpoint finish {A} (t : Step A) (s : Runtime) : Outcome A * Runtime :=
  match t with
  | Done c => (Settled c, s)
  | Never => (Unsettled, s)
  | Await job => let (t', s') := job s in finish t' s'
  end.

(** A promise that has not settled. *)
Definition pending {A} (t : Step A) : bool :=
  match t with Done _ => false | _ => true end.

(** [String(value)]: the string, or what the conversion throws (a
    [TypeError] for an object without string form, or whatever its
    [toString] throws). *)
Class Conversion : Type := mkConversion {
  String_outcome : JsValue → Completion string
}.

Section Async.
Context `{Platform} `{Conversion}.

(** [context.with(ctx, fn)] *)
Definition context_with_s {A} (ctx : Context) (fn : Sync A) : Sync A :=
  λ s, if w_cm_enabled (rt_world s) then
         match fn (set_world (set_active ctx (rt_world s)) s) with
         | (c, s') =>
             (c, set_world (set_active (w_active (rt_world s)) (rt_world s')) s')
         end
       else fn s.

(** [tracer.startActiveSpan(name, options, context, fn)] *)
Definition tracer_startActiveSpan_s {A} (t : Tracer) (name : string)
    (options : SpanOptions) (context : option Context)
    (fn : SpanHandle → Sync A) : Sync A :=
  bind_s (lift context_active) (λ active,
  let parentContext := default active context in
  bind_s (lift (tracer_startSpan t name options parentContext)) (λ span,
  context_with_s (trace_setSpan parentContext span) (fn span))).

(** [response.clone()]: throws when the body has been read or is locked;
    the body of the clone ends as the body of the response does. *)
Definition Response_clone_s (r : Response) : Sync Response :=
  λ s, match resp_body r with
       | None => lift (Response_clone r) s
       | Some b =>
           match stream_of s b with
           | StreamLocked =>
               lift (let* e := new_TypeError body_unusable_message in throw e) s
           | _ =>
               match lift (Response_clone r) s with
               | (Normal clone, s') =>
                   (Normal clone,
                    match resp_body clone with
                    | Some b' =>
                        set_streams
                          (match rt_streams s !! b with
                           | Some fate => <[b' := fate]> (rt_streams s)
                           | None => delete b' (rt_streams s)
                           end) s'
                    | None => s'
                    end)
               | (Throw e, s') => (Throw e, s')
               end
           end
       end.

(** [response.text()]: the body is marked as read; the promise fulfils
    with the text when the stream closes, rejects when the stream errors,
    and stays pending while the stream stays open. *)
Definition Response_text_s (r : Response) : Sync (Step string) :=
  λ s, let unusable :=
         bind_s (lift (new_TypeError text_unusable_message))
                (λ e, ret_s (Done (Throw e))) s in
       match resp_body r with
       | None => (Normal (Done (Normal "")), s)
       | Some b =>
           match w_bodies (rt_world s) !! b with
           | Some (mkBody text false) =>
               let read :=
                 set_world (set_bodies (<[b := mkBody text true]>) (rt_world s))
                           s in
               match stream_of s b with
               | StreamCloses => (Normal (Done (Normal text)), read)
               | StreamErrors e => (Normal (Done (Throw e)), read)
               | StreamNeverCloses => (Normal Never, read)
               | StreamLocked => unusable
               end
           | _ => unusable
           end
       end.

(** [String(error)] *)
Definition String_s (v : JsValue) : Sync string :=
  λ s, (String_outcome v, s).

(** The middleware, with its suspension points. *)
Definition middleware_async (tracer : Tracer) (req : Request)
    (next : Sync (Step Response)) : Sync (Step Response) :=
  async_fn (
    let headers :=
      if headerHasToJSON then Headers_toJSON (req_headers req)
      else Object_fromEntries (req_headers req) in
    let! active := call (lift context_active) in
    let ctx := propagation_extract active headers in
    let! result :=
      call (tracer_startActiveSpan_s tracer "request"
        {| so_kind := KindServer; so_attributes := ∅ |} (Some ctx)
        (λ rootSpan, async_fn (
           let! pending :=
             call (context_with_s (trace_setSpan ctx rootSpan) (async_fn (
               try_finally_a
                 (try_catch_a
                    (let! pending := call next in
                     let! response := await_a pending in
                     call (lift (span_setStatus rootSpan StatusOk)) >>!
                     let attributes := basic_attributes req response in
                     let! attributes :=
                       match resp_body response with
                       | Some _ =>
                           let! clonedResponse :=
                             call (Response_clone_s response) in
                           let! pending :=
                             call (Response_text_s clonedResponse) in
                           let! text := await_a pending in
                           ret_a (<["http.response.body.size"
                                    := AttrNum (Z.of_nat (String.length text))]>
                                    attributes)
                       | None => ret_a attributes
                       end in
                     let attributes :=
                       add_request_headers (req_headers req) attributes in
                     let attributes :=
                       add_response_headers (resp_headers response) attributes in
                     call (lift (span_setAttributes rootSpan attributes)) >>!
                     ret_a response)
                    (λ error,
                       let! message :=
                         if instanceof_Error error
                         then ret_a (Error_message error)
                         else call (String_s error) in
                       call (lift (span_setStatus rootSpan
                                     (StatusError (Some message)))) >>!
                       call (lift (when (instanceof_Error error)
                                     (span_recordException rootSpan error))) >>!
                       throw_a error))
                 (lift
                    (let pathname := URL_pathname (req_url req) in
                     span_updateName rootSpan
                       (req_method req +:+ " " +:+ pathname) >>
                     span_end rootSpan))))) in
           let! response := await_a pending in
           ret_a response))) in
    await_a result).

(** What the [try] block does once [await next()] has produced
    [response]. *)
Definition succeed (rootSpan : SpanHandle) (req : Request) (response : Response)
  : AM Response :=
  call (lift (span_setStatus rootSpan StatusOk)) >>!
  let attributes := basic_attributes req response in
  let! attributes :=
    match resp_body response with
    | Some _ =>
        let! clonedResponse := call (Response_clone_s response) in
        let! pending := call (Response_text_s clonedResponse) in
        let! text := await_a pending in
        ret_a (<["http.response.body.size"
                 := AttrNum (Z.of_nat (String.length text))]> attributes)
    | None => ret_a attributes
    end in
  let attributes := add_request_headers (req_headers req) attributes in
  let attributes := add_response_headers (resp_headers response) attributes in
  call (lift (span_setAttributes rootSpan attributes)) >>!
  ret_a response.

(** The [catch] block. *)
Definition fail (rootSpan : SpanHandle) (error : JsValue) : AM Response :=
  let! message :=
    if instanceof_Error error then ret_a (Error_message error)
    else call (String_s error) in
  call (lift (span_setStatus rootSpan (StatusError (Some message)))) >>!
  call (lift (when (instanceof_Error error)
                (span_recordException rootSpan error))) >>!
  throw_a error.

(** The [finally] block. *)
Definition finalize (rootSpan : SpanHandle) (req : Request) : Sync unit :=
  lift (let pathname := URL_pathname (req_url req) in
        span_updateName rootSpan (req_method req +:+ " " +:+ pathname) >>
        span_end rootSpan).

(** The function passed to [context.with]: its body. *)
Definition traced (rootSpan : SpanHandle) (req : Request)
    (next : Sync (Step Response)) : AM Response :=
  try_finally_a
    (try_catch_a
       (let! pending := call next in
        let! response := await_a pending in
        succeed rootSpan req response)
       (fail rootSpan))
    (finalize rootSpan req).

(** The same body from the point where [await next()] has completed. *)
Definition conclude (rootSpan : SpanHandle) (req : Request)
    (c : Completion Response) : AM Response :=
  try_finally_a
    (try_catch_a
       (match c with
        | Normal response => succeed rootSpan req response
        | Throw e => throw_a e
        end)
       (fail rootSpan))
    (finalize rootSpan req).

(** A computation run from its start until it is done or stuck, the
    event loop running its jobs one after the other. *)
Definition run {A} (ts : Step A * Runtime) : Outcome A * Runtime :=
  let (t, s) := ts in finish t s.

(** One invocation of the middleware, alone on the event loop. *)
Definition run_alone (tracer : Tracer) (req : Request)
    (next : Sync (Step Response)) (s : Runtime) : Outcome Response * Runtime :=
  match middleware_async tracer req next s with
  | (Normal promise, s') => finish promise s'
  | (Throw e, s') => (Settled (Throw e), s')
  end.

(** The state with another active context. *)
Definition with_active (ctx : Context) (s : Runtime) : Runtime :=
  set_world (set_active ctx (rt_world s)) s.

(** The state in which the promise of [next] is awaited: the calls have
    returned, and the context of the caller of the middleware is active
    again. *)
Definition awaiting (s s1 : Runtime) : Runtime :=
  if w_cm_enabled (rt_world s) then with_active (w_active (rt_world s)) s1
  else s1.

(** How the call of [next] ends for the middleware, run alone: [next]
    throws, or the promise it returns settles or stays pending; and the
    state in which the middleware then goes on. *)
Definition after_next (tracer : Tracer) (req : Request)
    (next : Sync (Step Response)) (s : Runtime) : Outcome Response * Runtime :=
  let (rootSpan, w0) := enter tracer req (rt_world s) in
  match next (set_world w0 s) with
  | (Throw e, s1) => (Settled (Throw e), s1)
  | (Normal promise, s1) =>
      match finish promise (awaiting s s1) with
      | (Settled c, s2) => (Settled c, reenter (w_active (rt_world s1)) s2)
      | (Unsettled, s2) => (Unsettled, s2)
      end
  end.

(** How cloning [response] and reading the clone would go. *)
Inductive Reading : Type :=
| NoBody                     (* the response has no body *)
| Unusable                   (* [clone()] throws: the body is read or locked *)
| Reads (text : string)      (* the stream yields [text] and closes *)
| ReadFails (e : JsValue)    (* the stream errors: [text()] rejects *)
| ReadHangs.                 (* the stream never closes: [text()] stays pending *)

Definition reading (response : Response) (s : Runtime) : Reading :=
  match resp_body response with
  | None => NoBody
  | Some b =>
      match w_bodies (rt_world s) !! b with
      | Some (mkBody text false) =>
          match stream_of s b with
          | StreamCloses => Reads text
          | StreamErrors e => ReadFails e
          | StreamNeverCloses => ReadHangs
          | StreamLocked => Unusable
          end
      | _ => Unusable
      end
  end.

(** The message the [catch] block computes for the status, or what
    computing it throws. *)
Definition status_message (error : JsValue) : Completion string :=
  if instanceof_Error error then Normal (Error_message error)
  else String_outcome error.

(** The [catch] and [finally] blocks on [error]: the value the promise
    rejects with, and the calls made on the span. *)
Definition rejection (req : Request) (error : JsValue) : JsValue * list SpanCall :=
  match status_message error with
  | Normal message =>
      (error,
       CallSetStatus (StatusError (Some message))
       :: (if instanceof_Error error then [CallRecordException error] else [])
       ++ final_calls req)
  | Throw thrown => (thrown, final_calls req)
  end.

(** What the middleware does once [await next()] has completed with [c]:
    how its promise ends, the calls it makes on the span, and what it
    does to the objects of the Fetch API. *)
Definition concluded (req : Request) (c : Completion Response) (s : Runtime)
  : Outcome Response * list SpanCall * World :=
  let w := rt_world s in
  match c with
  | Throw e =>
      let (thrown, calls) := rejection req e in (Settled (Throw thrown), calls, w)
  | Normal response =>
      match reading response s with
      | NoBody =>
          (Settled (Normal response),
           [CallSetStatus StatusOk;
            CallSetAttributes (collected_attributes req response None)]
           ++ final_calls req, w)
      | Reads text =>
          (Settled (Normal response),
           [CallSetStatus StatusOk;
            CallSetAttributes
              (collected_attributes req response (Some (String.length text)))]
           ++ final_calls req, after_clone response w)
      | Unusable =>
          let (thrown, calls) := rejection req (clone_error w) in
          (Settled (Throw thrown), CallSetStatus StatusOk :: calls,
           set_next_obj (S (w_next_obj w)) w)
      | ReadFails e =>
          let (thrown, calls) := rejection req e in
          (Settled (Throw thrown), CallSetStatus StatusOk :: calls,
           after_clone response w)
      | ReadHangs =>
          (Unsettled, [CallSetStatus StatusOk], after_clone response w)
      end
  end.

(** One invocation run alone, from the way the call of [next] ends. *)
Definition expected (tracer : Tracer) (req : Request)
    (next : Sync (Step Response)) (s : Runtime) : Outcome Response * Runtime :=
  match after_next tracer req next s with
  | (Settled c, s2) => run (conclude (enter tracer req (rt_world s)).1 req c s2)
  | (Unsettled, s2) => (Unsettled, s2)
  end.

(** Two states that differ at most in the active context. *)
Definition same_but_active (s s' : Runtime) : Prop :=
  ∃ ctx, s' = with_active ctx s.

End Async.

Module SampleLoop.

(** An object without string form, as [Object.create(null)] makes. *)
Definition bare : JsValue := JsObject 3 "".

(** [String] as the runtime has it, on the values of the sample: it
    throws a [TypeError] on [bare]. *)
Definition conversion : Conversion :=
  {| String_outcome := λ v,
       match v with
       | JsObject 3 _ =>
           Throw (JsError 99 "Cannot convert object to primitive value")
       | _ => Normal (js_String v)
       end |}.

(** The world of [Sample.world1], all streams closing. *)
Definition runtime1 : Runtime := mkRuntime Sample.world1 ∅ [].

(** The same, but the stream of the body of [Sample.ok_response] never
    closes (a server-sent event stream, say). *)
Definition runtime_open : Runtime :=
  mkRuntime Sample.world1 {[0 := StreamNeverCloses]} [].

(** The same, but the stream errors. *)
Definition runtime_broken : Runtime :=
  mkRuntime Sample.world1 {[0 := StreamErrors Sample.boom]} [].

(** The same, but the body of [Sample.ok_response] has been read. *)
Definition runtime_used : Runtime := mkRuntime Sample.world_used ∅ [].

(** An [async] handler that returns the response. *)
Definition next_ok : Sync (Step Response) :=
  async_fn (ret_a Sample.ok_response).

(** A handler that throws [bare]. *)
Definition next_throw_bare : Sync (Step Response) := λ s, (Throw bare, s).

(** An [async] handler that throws [Sample.boom]. *)
Definition next_reject : Sync (Step Response) :=
  async_fn (throw_a Sample.boom).

End SampleLoop.

(* ================================================================== *)
(** * Invocations in flight together *)
(* ================================================================== *)

(** What a handler does, as far as the active span is concerned. *)
Inductive Script : Type :=
| Reply (response : Response)   (* [return response] *)
| Raise (e : JsValue)           (* [throw e] *)
| Look (rest : Script)          (* [trace.getActiveSpan()?.spanContext()] *)
| Wait (rest : Script)          (* [await] of a timer or of I/O *)
| Stall.                        (* [await] of a promise that never settles *)

(** The handler of invocation [i] records what it sees. *)
Definition look (i : nat) : Sync unit :=
  λ s, (Normal tt, add_seen (i, observe (rt_world s)) s).

Fixpoint handler (i : nat) (h : Script) : AM Response :=
  match h with
  | Reply response => ret_a response
  | Raise e => throw_a e
  | Look rest => call (look i) >>! handler i rest
  | Wait rest => await_a (Done (Normal tt)) >>! handler i rest
  | Stall => await_a Never
  end.

(** A request the server receives: the server calls the middleware from
    a job of its own, in the context [inv_ambient], with a [next] that
    calls the handler. *)
Record Invocation : Type := mkInvocation {
  inv_request : Request;
  inv_ambient : Context;
  inv_script : Script
}.

(** An invocation has not been called yet, or the middleware has
    returned its promise. *)
Inductive Slot : Type :=
| Queued
| Started (promise : Step Response).

Record Loop : Type := mkLoop {
  loop_runtime : Runtime;
  loop_slots : list Slot
}.

Section Loop.
Context `{Platform} `{Conversion}.

(** The context the middleware extracts for an invocation. *)
Definition extracted (inv : Invocation) : Context :=
  propagation_extract (inv_ambient inv) (request_headers (inv_request inv)).

(** One job of the event loop: the server calls the middleware for
    invocation [i], or the pending job of invocation [i] runs. *)
Definition step_loop (tracer : Tracer) (tasks : list Invocation) (i : nat)
    (l : Loop) : Loop :=
  match tasks !! i, loop_slots l !! i with
  | Some inv, Some Queued =>
      match middleware_async tracer (inv_request inv)
              (async_fn (handler i (inv_script inv)))
              (with_active (inv_ambient inv) (loop_runtime l)) with
      | (Normal promise, s) => mkLoop s (<[i := Started promise]> (loop_slots l))
      | (Throw e, s) => mkLoop s (<[i := Started (Done (Throw e))]> (loop_slots l))
      end
  | Some inv, Some (Started (Await job)) =>
      let (promise, s) := job (loop_runtime l) in
      mkLoop s (<[i := Started promise]> (loop_slots l))
  | _, _ => l
  end.

(** The event loop runs the jobs in any order: [schedule] names the
    invocation whose job runs next. *)
Definition run_loop (tracer : Tracer) (tasks : list Invocation)
    (schedule : list nat) (l : Loop) : Loop :=
  foldl (λ l i, step_loop tracer tasks i l) l schedule.

Definition start_loop (tasks : list Invocation) (s : Runtime) : Loop :=
  mkLoop s (replicate (length tasks) Queued).

(** The invocations whose promise is pending. *)
Definition in_flight (l : Loop) : list nat :=
  omap (λ x, match x with
             | (i, Started (Await _)) => Some i
             | _ => None
             end) (imap pair (loop_slots l)).

End Loop.

(** ** Jobs that keep to their invocation *)

(** What the jobs of invocation [i], whose span is [sp], may do: call
    methods of [sp], change the active context, let the handler record
    that it sees [sp], and use the Fetch API. *)
Record keeps_to (i : nat) (sp : SpanHandle) (s s' : Runtime) : Prop := mkKeeps {
  keeps_cm : w_cm_enabled (rt_world s') = w_cm_enabled (rt_world s);
  keeps_provider : w_provider (rt_world s') = w_provider (rt_world s);
  keeps_next_id : w_next_id (rt_world s') = w_next_id (rt_world s);
  keeps_log : ∃ calls, w_log (rt_world s')
                       = w_log (rt_world s) ++ map (EvSpan sp) calls;
  keeps_seen : ∃ seen, rt_seen s' = rt_seen s ++ seen ∧
                       Forall (λ x, x = (i, Some (spanContext sp))) seen
}.

Definition managed (s : Runtime) : Prop := w_cm_enabled (rt_world s) = true.

(** [sat i sp Q t s]: every job of the computation [t], run in a state
    with a context manager, keeps to invocation [i]; [Q] holds when the
    computation is done. *)
Inductive sat {A} (i : nat) (sp : SpanHandle)
    (Q : Completion A → Runtime → Prop) : Step A → Runtime → Prop :=
| sat_done c s : Q c s → sat i sp Q (Done c) s
| sat_never s : sat i sp Q Never s
| sat_await job s :
    (∀ s', managed s' → keeps_to i sp s' (job s').2) →
    (∀ s', managed s' → sat i sp Q (job s').1 (job s').2) →
    sat i sp Q (Await job) s.

(** The body of an [async] function, run in a state where [P] holds. *)
Definition am_sat {A} (i : nat) (sp : SpanHandle) (P : Runtime → Prop)
    (m : AM A) (Q : Completion A → Runtime → Prop) : Prop :=
  ∀ s, managed s → P s → keeps_to i sp s (m s).2 ∧ sat i sp Q (m s).1 (m s).2.

Definition sync_sat {A} (i : nat) (sp : SpanHandle) (P : Runtime → Prop)
    (m : Sync A) (Q : Completion A → Runtime → Prop) : Prop :=
  ∀ s, managed s → P s → keeps_to i sp s (m s).2 ∧ Q (m s).1 (m s).2.

(** A promise of invocation [i]. *)
Definition promise_of {A} (i : nat) (sp : SpanHandle) (p : Step A) : Prop :=
  ∀ s, sat i sp (λ _ _, True) p s.

Definition active_is (ctx : Context) (s : Runtime) : Prop :=
  w_active (rt_world s) = ctx.

(** ** The invariant of the event loop *)

(** The span the middleware has started for an invocation, if it has
    been called, against its slot. *)
Definition slot_ok (i : nat) (slot : Slot) (root : option SpanHandle) : Prop :=
  match slot, root with
  | Queued, None => True
  | Started p, Some sp => promise_of i sp p
  | _, _ => False
  end.

(** What the tracer drew for the span of an invocation. *)
Definition root_ok `{Platform} (w : World) (inv : Invocation) (sp : SpanHandle)
  : Prop :=
  ∃ n, S n < w_next_id w ∧
       spanId (spanContext sp) = IdGen n ∧
       traceId (spanContext sp)
       = match valid_parent (extracted inv) with
         | Some parent => traceId parent
         | None => IdGen (S n)
         end.

(** An event of the log is a call on the span of an invocation, or the
    start of the span of an invocation. *)
Definition event_ok `{Platform} (tasks : list Invocation)
    (roots : list (option SpanHandle)) (ev : Event) : Prop :=
  ∃ i sp inv, roots !! i = Some (Some sp) ∧ tasks !! i = Some inv ∧
    (ev = EvStartSpan sp "request" KindServer (extracted inv) ∨
     ∃ c, ev = EvSpan sp c).

Record loop_inv `{Platform} (tasks : list Invocation) (s0 : Runtime)
    (roots : list (option SpanHandle)) (l : Loop) : Prop := mkLoopInv {
  inv_managed : managed (loop_runtime l);
  inv_provider : w_provider (rt_world (loop_runtime l)) = true;
  inv_slots : length (loop_slots l) = length tasks;
  inv_roots : length roots = length tasks;
  inv_slot : ∀ i slot, loop_slots l !! i = Some slot →
               ∃ root, roots !! i = Some root ∧ slot_ok i slot root;
  inv_seen : ∃ seen, rt_seen (loop_runtime l) = rt_seen s0 ++ seen ∧
               Forall (λ x, ∃ sp, roots !! x.1 = Some (Some sp) ∧
                                  x.2 = Some (spanContext sp)) seen;
  inv_log : ∃ events, w_log (rt_world (loop_runtime l))
                      = w_log (rt_world s0) ++ events ∧
               Forall (event_ok tasks roots) events ∧
               ∀ i sp inv, roots !! i = Some (Some sp) → tasks !! i = Some inv →
                 EvStartSpan sp "request" KindServer (extracted inv) ∈ events;
  inv_root : ∀ i sp, roots !! i = Some (Some sp) →
               ∃ inv, tasks !! i = Some inv ∧
                      root_ok (rt_world (loop_runtime l)) inv sp;
  inv_distinct : ∀ i j sp sp', i ≠ j →
               roots !! i = Some (Some sp) → roots !! j = Some (Some sp') →
               spanId (spanContext sp) ≠ spanId (spanContext sp')
}.

Module SampleFlight.

(** A handler that awaits a timer, then looks at the active span and
    replies. *)
Definition script : Script := Wait (Look (Reply Sample.ok_response)).

Definition plain_a : Request :=
  mkRequest "GET" "http://localhost/concurrent/0" [].
Definition plain_b : Request :=
  mkRequest "GET" "http://localhost/concurrent/1" [].

(** Two requests without trace context. *)
Definition plain : list Invocation :=
  [mkInvocation plain_a ROOT_CONTEXT script;
   mkInvocation plain_b ROOT_CONTEXT script].

(** Two requests of one distributed trace. *)
Definition traced : list Invocation :=
  [mkInvocation Sample.traced_a ROOT_CONTEXT script;
   mkInvocation Sample.traced_b ROOT_CONTEXT script].

(** Both invocations are called, then their jobs alternate. *)
Definition schedule : list nat := [0; 1; 1; 0; 1; 0; 0; 1; 0; 1; 1; 0].

(** No context manager is registered. *)
Definition runtime_unmanaged : Runtime :=
  mkRuntime (mkWorld [] [mkBody "{}" false] ROOT_CONTEXT false true 0 10 [])
            ∅ [].

(** No tracer provider is registered. *)
Definition runtime_unprovided : Runtime :=
  mkRuntime (mkWorld [] [mkBody "{}" false] ROOT_CONTEXT true false 0 10 [])
            ∅ [].

Definition proxy : Tracer := ProxyTracer "@vafast/vafast".

End SampleFlight.

(* ================================================================== *)
(** * Theorems *)
(* ================================================================== *)

Section RunLemmas.
Context `{Platform}.

#[local] Arguments do_call : simpl never.

Lemma w_log_do_call sp c w : w_log (do_call sp c w) = w_log w ++ [EvSpan sp c].
Proof. destruct sp; reflexivity. Qed.

Lemma w_log_do_calls sp calls w :
  w_log (do_calls sp calls w) = w_log w ++ map (EvSpan sp) calls.
Proof.
  revert w. induction calls as [|c calls IH]; intros w; simpl.
  - by rewrite app_nil_r.
  - unfold do_calls in *. simpl. rewrite IH, w_log_do_call.
    by rewrite <- app_assoc.
Qed.

Lemma w_log_leave before w : w_log (leave before w) = w_log w.
Proof. unfold leave. by destruct (w_cm_enabled before). Qed.

Lemma do_calls_app sp cs1 cs2 w :
  do_calls sp (cs1 ++ cs2) w = do_calls sp cs2 (do_calls sp cs1 w).
Proof. unfold do_calls. apply foldl_app. Qed.

Lemma start_span_frame t name options ctx w sp w' :
  start_span t name options ctx w = (sp, w') →
  w_cm_enabled w' = w_cm_enabled w ∧ w_active w' = w_active w ∧
  w_bodies w' = w_bodies w ∧ w_provider w' = w_provider w ∧
  w_log w' = w_log w ++ [EvStartSpan sp name (so_kind options) ctx].
Proof.
  unfold start_span. intros Hs.
  destruct (tracer_is_noop t w); [|destruct (should_sample _)];
    inversion Hs; subst; done.
Qed.

Ltac same_world :=
  unfold set_active, final_name, error_status, final_calls; cbn; reflexivity.

(** The middleware, decomposed along its control flow. *)
Lemma middleware_run tracer req next w :
  middleware tracer req next w =
  let (sp, w0) := enter tracer req w in
  match next w0 with
  | (Normal (Resolved response), w1) =>
      match annotate sp req response w1 with
      | (Normal r, w2) =>
          (Normal (Resolved r), leave w (do_calls sp (final_calls req) w2))
      | (Throw e, w2) =>
          (Normal (Rejected e),
           leave w (do_calls sp (failure_calls e ++ final_calls req) w2))
      end
  | (Normal (Rejected e), w1) | (Throw e, w1) =>
      (Normal (Rejected e),
       leave w (do_calls sp (failure_calls e ++ final_calls req) w1))
  end.
Proof.
  unfold middleware, enter, tracer_startActiveSpan, tracer_startSpan,
    context_active, context_with, request_context, active_context,
    request_headers, Headers_toJSON, leave, annotate.
  unfold async, bind, try_finally, try_catch. cbn beta iota.
  destruct (start_span _ _ _ _ w) as [sp w'] eqn:Hs.
  destruct (start_span_frame _ _ _ _ _ _ _ Hs) as (Hcm & Hact & _).
  rewrite Hcm. destruct (w_cm_enabled w) eqn:Hen; cbn.
  - rewrite Hcm. unfold set_active at 1 3. cbn.
    fold (set_active (<[SPAN_KEY:=CtxSpan sp]>
           (propagation_extract (w_active w)
             (if headerHasToJSON then Object_fromEntries (req_headers req)
              else Object_fromEntries (req_headers req)))) w').
    rewrite Hact.
    destruct (next _) as [[[response|e]|e] w1]; cbn.
    + match goal with
      | |- context [?t (do_call sp (CallSetStatus StatusOk) w1)] =>
          destruct (t (do_call sp (CallSetStatus StatusOk) w1)) as [[a|e] w2]
      end; cbn; [same_world|].
      unfold when; destruct e; same_world.
    + unfold when; destruct e; same_world.
    + unfold when; destruct e; same_world.
  - destruct (next _) as [[[response|e]|e] w1]; cbn.
    + match goal with
      | |- context [?t (do_call sp (CallSetStatus StatusOk) w1)] =>
          destruct (t (do_call sp (CallSetStatus StatusOk) w1)) as [[a|e] w2]
      end; cbn; [same_world|].
      unfold when; destruct e; same_world.
    + unfold when; destruct e; same_world.
    + unfold when; destruct e; same_world.
Qed.

Lemma after_clone_do_call sp c response w :
  after_clone response (do_call sp c w) = do_call sp c (after_clone response w).
Proof.
  unfold after_clone. destruct (resp_body response) as [b|]; [|done].
  replace (w_bodies (do_call sp c w)) with (w_bodies w) by (by destruct sp).
  destruct (w_bodies w !! b); [|done]. by destruct sp.
Qed.


Lemma w_bodies_do_calls sp calls w : w_bodies (do_calls sp calls w) = w_bodies w.
Proof.
  revert w. induction calls as [|c calls IH]; intros w; [done|].
  unfold do_calls in *. simpl. rewrite IH. by destruct sp.
Qed.

Lemma bind_normal {A B} (m : M A) (f : A → M B) w a w' :
  m w = (Normal a, w') → bind m f w = f a w'.
Proof. unfold bind. by intros ->. Qed.

Lemma bind_throw {A B} (m : M A) (f : A → M B) w e w' :
  m w = (Throw e, w') → bind m f w = (Throw e, w').
Proof. unfold bind. by intros ->. Qed.

Lemma span_call_run sp c w : span_call sp c w = (Normal tt, do_call sp c w).
Proof. reflexivity. Qed.

(** Cloning a response with an unread body and reading the clone. *)
Lemma clone_and_read {A} (f : string → A) response w b text :
  resp_body response = Some b →
  w_bodies w !! b = Some (mkBody text false) →
  (let* clonedResponse := Response_clone response in
   let* pending := Response_text clonedResponse in
   let* text := await pending in
   ret (f text)) w
  = (Normal (f text), after_clone response w).
Proof.
  intros Hb Hl. unfold after_clone, Response_clone, bind. rewrite Hb, Hl.
  unfold Response_text. cbn. rewrite lookup_app_r by done.
  rewrite Nat.sub_diag. cbn. unfold ret, set_bodies, set_next_obj. cbn.
  do 2 f_equal. rewrite insert_app_r_alt by done. by rewrite Nat.sub_diag.
Qed.

(** Cloning a response whose body has been read throws. *)
Lemma clone_unusable response w b :
  resp_body response = Some b →
  body_readable response w = false →
  Response_clone response w
  = (Throw (JsError (w_next_obj w) body_unusable_message),
     set_next_obj (S (w_next_obj w)) w).
Proof.
  unfold body_readable, Response_clone. intros -> Hr.
  destruct (w_bodies w !! b) as [[text used]|]; [|done].
  simpl in Hr. by destruct used.
Qed.

Lemma w_bodies_do_call sp c w : w_bodies (do_call sp c w) = w_bodies w.
Proof. by destruct sp. Qed.

Lemma w_next_obj_do_call sp c w : w_next_obj (do_call sp c w) = w_next_obj w.
Proof. by destruct sp. Qed.

(** The [try] block on a response whose body can be read: the status is
    set, the body (if any) is cloned and the clone read, and the collected
    attributes are applied in one call. *)
Lemma annotate_readable sp req response w :
  body_readable response w = true →
  annotate sp req response w =
  (Normal response,
   do_calls sp [CallSetStatus StatusOk;
                CallSetAttributes
                  (collected_attributes req response (measured_size response w))]
            (after_clone response w)).
Proof.
  unfold body_readable, annotate, collected_attributes, measured_size.
  intros Hr. unfold do_calls. simpl foldl.
  rewrite <- after_clone_do_call.
  unfold span_setStatus, span_setAttributes.
  erewrite bind_normal by apply span_call_run.
  destruct (resp_body response) as [b|] eqn:Hb.
  - destruct (w_bodies w !! b) as [[text used]|] eqn:Hl; [|done].
    simpl in Hr. destruct used; [done|].
    erewrite bind_normal.
    2:{ apply clone_and_read with (b := b); [done|].
        by rewrite w_bodies_do_call. }
    by erewrite bind_normal by apply span_call_run.
  - erewrite bind_normal by reflexivity.
    erewrite bind_normal by apply span_call_run.
    unfold after_clone. by rewrite Hb.
Qed.

(** The [try] block on a response whose body has been read: cloning
    throws a [TypeError] after the status has been set. *)
Lemma annotate_unreadable sp req response w :
  body_readable response w = false →
  annotate sp req response w =
  (Throw (JsError (w_next_obj w) body_unusable_message),
   set_next_obj (S (w_next_obj w)) (do_call sp (CallSetStatus StatusOk) w)).
Proof.
  intros Hr. unfold annotate, span_setStatus.
  erewrite bind_normal by apply span_call_run.
  destruct (resp_body response) as [b|] eqn:Hb.
  - assert (Hc := clone_unusable response
                    (do_call sp (CallSetStatus StatusOk) w) b Hb).
    rewrite w_next_obj_do_call in Hc.
    erewrite bind_throw; [reflexivity|].
    erewrite bind_throw; [reflexivity|]. apply Hc.
    unfold body_readable in *. by rewrite Hb, w_bodies_do_call in *.
  - unfold body_readable in Hr. by rewrite Hb in Hr.
Qed.

Lemma set_next_obj_do_call sp c n w :
  set_next_obj n (do_call sp c w) = do_call sp c (set_next_obj n w).
Proof. by destruct sp. Qed.

(** The whole run of the middleware, from the completion of [next]. *)
Lemma middleware_summary tracer req next w sp w0 c w1 :
  enter tracer req w = (sp, w0) →
  next w0 = (c, w1) →
  middleware tracer req next w =
  (Normal (result_after_next c w1),
   leave w (do_calls sp (calls_after_next req c w1) (fetch_after_next c w1))).
Proof.
  intros He Hn. rewrite middleware_run, He, Hn.
  unfold result_after_next, calls_after_next, fetch_after_next.
  destruct c as [[response|e]|e]; [|done..].
  destruct (body_readable response w1) eqn:Hr.
  - rewrite annotate_readable by done.
    by rewrite <- do_calls_app.
  - rewrite annotate_unreadable by done.
    unfold clone_error. do 2 f_equal.
    rewrite set_next_obj_do_call.
    change (CallSetStatus StatusOk :: ?l) with ([CallSetStatus StatusOk] ++ l).
    by rewrite (do_calls_app sp [CallSetStatus StatusOk]).
Qed.

Lemma w_log_fetch_after_next c w1 : w_log (fetch_after_next c w1) = w_log w1.
Proof.
  unfold fetch_after_next, after_clone.
  destruct c as [[response|e]|e]; [|done..].
  destruct (body_readable response w1); [|done].
  destruct (resp_body response); [|done]. by destruct (w_bodies w1 !! _).
Qed.

Lemma w_spans_fetch_after_next c w1 : w_spans (fetch_after_next c w1) = w_spans w1.
Proof.
  unfold fetch_after_next, after_clone.
  destruct c as [[response|e]|e]; [|done..].
  destruct (body_readable response w1); [|done].
  destruct (resp_body response); [|done]. by destruct (w_bodies w1 !! _).
Qed.

(** The log after the middleware has run. *)
Lemma middleware_log tracer req next w sp w0 c w1 :
  enter tracer req w = (sp, w0) →
  next w0 = (c, w1) →
  w_log (middleware tracer req next w).2
  = w_log w1 ++ map (EvSpan sp) (calls_after_next req c w1).
Proof.
  intros He Hn. rewrite (middleware_summary _ _ _ _ _ _ _ _ He Hn). simpl.
  by rewrite w_log_leave, w_log_do_calls, w_log_fetch_after_next.
Qed.

Lemma w_spans_do_calls ref sc calls w :
  w_spans (do_calls (SdkSpan ref sc) calls w) !! ref
  = apply_calls calls <$> (w_spans w !! ref).
Proof.
  revert w. induction calls as [|c calls IH]; intros w.
  - simpl. by destruct (w_spans w !! ref).
  - unfold do_calls, apply_calls in *. simpl. rewrite IH.
    unfold do_call. simpl. rewrite list_lookup_alter.
    case_decide; [|done]. by destruct (w_spans w !! ref).
Qed.

Lemma w_spans_leave before w : w_spans (leave before w) = w_spans w.
Proof. unfold leave. by destruct (w_cm_enabled before). Qed.


(** The root span after the middleware has run. *)
Lemma middleware_span tracer req next w ref sc w0 c w1 :
  enter tracer req w = (SdkSpan ref sc, w0) →
  next w0 = (c, w1) →
  w_spans (middleware tracer req next w).2 !! ref
  = apply_calls (calls_after_next req c w1) <$> (w_spans w1 !! ref).
Proof.
  intros He Hn. rewrite (middleware_summary _ _ _ _ _ _ _ _ He Hn). simpl.
  by rewrite w_spans_leave, w_spans_do_calls, w_spans_fetch_after_next.
Qed.

(** The calls after [next] always end with the [finally] block. *)
Lemma calls_after_next_final req c w1 :
  ∃ before, calls_after_next req c w1 = before ++ final_calls req ∧
            count is_end before = 0 ∧ count is_updateName before = 0.
Proof.
  unfold calls_after_next, failure_calls.
  destruct c as [[response|e]|e].
  - destruct (body_readable response w1).
    + by eexists [_; _].
    + exists (CallSetStatus StatusOk :: failure_calls (clone_error w1)).
      split; [done|]. by compute.
  - exists (failure_calls e). split; [done|]. by destruct e.
  - exists (failure_calls e). split; [done|]. by destruct e.
Qed.

Lemma count_app {A} (p : A → bool) l1 l2 :
  count p (l1 ++ l2) = count p l1 + count p l2.
Proof. unfold count. by rewrite List.filter_app, length_app. Qed.

Lemma enter_log tracer req w sp w0 :
  enter tracer req w = (sp, w0) →
  w_log w0
  = w_log w ++ [EvStartSpan sp "request" KindServer (request_context req w)].
Proof.
  unfold enter. intros He.
  destruct (start_span _ _ _ _ w) as [sp' w'] eqn:Hs.
  apply start_span_frame in Hs as (_ & _ & _ & _ & Hlog).
  inversion He; subst. by destruct (w_cm_enabled w).
Qed.

(** The root span as the tracer creates it. *)
Lemma enter_span tracer req w ref sc w0 :
  enter tracer req w = (SdkSpan ref sc, w0) →
  w_spans w0 !! ref
  = Some (mkSpanData "request" KindServer sc
            (valid_parent (request_context req w)) StatusUnset ∅ [] false).
Proof.
  unfold enter, start_span. intros He.
  destruct (tracer_is_noop tracer w).
  { destruct (w_cm_enabled w); inversion He. }
  destruct (should_sample _).
  2:{ destruct (w_cm_enabled w); inversion He. }
  destruct (w_cm_enabled w); inversion He; subst; simpl;
    rewrite lookup_app_r by done; by rewrite Nat.sub_diag.
Qed.

(** The root span belongs to the trace of a valid parent. *)
Lemma enter_trace tracer req w sp w0 p :
  enter tracer req w = (sp, w0) →
  valid_parent (request_context req w) = Some p →
  traceId (spanContext sp) = traceId p.
Proof.
  unfold enter, start_span. intros He Hp. rewrite Hp in He.
  destruct (tracer_is_noop tracer w).
  { destruct (w_cm_enabled w); inversion He; by subst. }
  destruct (should_sample _); destruct (w_cm_enabled w);
    inversion He; by subst.
Qed.

Lemma count_map_EvSpan_start sp calls :
  count is_start (map (EvSpan sp) calls) = 0.
Proof. unfold count. induction calls; simpl; auto. Qed.

Lemma count_map_EvSpan_end sp calls :
  count is_end_event (map (EvSpan sp) calls) = count is_end calls.
Proof.
  unfold count. induction calls as [|c calls IH]; simpl; [done|].
  destruct c; simpl; auto.
Qed.

End RunLemmas.

(* ================================================================== *)
(** * The middleware: span life cycle, naming and error propagation *)
(* ================================================================== *)

Section MiddlewareClaims.
Context `{Platform}.

(** C7.  The span is started with the name "request", kind server, as a
    child of the context extracted from the request headers; when the
    request completes, whether [next] succeeded or failed, the span is
    renamed to "<METHOD> <pathname>" and then ended. *)
Theorem span_named_request_then_renamed tracer req next w rootSpan w0 :
  enter tracer req w = (rootSpan, w0) →
  w_log w0
  = w_log w ++ [EvStartSpan rootSpan "request" KindServer
                  (propagation_extract (active_context w) (request_headers req))] ∧
  (∀ p, valid_parent (request_context req w) = Some p →
        traceId (spanContext rootSpan) = traceId p) ∧
  (∀ ref sc, rootSpan = SdkSpan ref sc →
     ∃ s, w_spans w0 !! ref = Some s ∧ sd_name s = "request" ∧
          sd_kind s = KindServer ∧
          sd_parent s = valid_parent (request_context req w) ∧
          sd_ended s = false) ∧
  (∃ before,
     w_log (middleware tracer req next w).2
     = w_log (next w0).2
       ++ map (EvSpan rootSpan)
            (before ++ [CallUpdateName
                          (req_method req +:+ " " +:+ URL_pathname (req_url req));
                        CallEnd])) ∧
  (∀ ref sc s1, rootSpan = SdkSpan ref sc →
     w_spans (next w0).2 !! ref = Some s1 → sd_ended s1 = false →
     ∃ s, w_spans (middleware tracer req next w).2 !! ref = Some s ∧
          sd_name s = req_method req +:+ " " +:+ URL_pathname (req_url req) ∧
          sd_ended s = true).
Proof.
  intros He. destruct (next w0) as [c w1] eqn:Hn.
  split; [by apply (enter_log tracer)|].
  split; [intros p Hp; exact (enter_trace _ _ _ _ _ _ He Hp)|].
  split.
  { intros ref sc ->. eexists. split; [by apply (enter_span tracer req w)|done]. }
  destruct (calls_after_next_final req c w1) as (before & Hc & He0 & Hu0).
  split.
  { exists before. rewrite (middleware_log _ _ _ _ _ _ _ _ He Hn). simpl.
    by rewrite Hc. }
  intros ref sc s1 -> Hs1 Hended. simpl in Hs1.
  rewrite (middleware_span _ _ _ _ _ _ _ _ _ He Hn), Hs1. simpl.
  eexists. split; [done|].
  clear Hc He0 Hu0. unfold calls_after_next, failure_calls, apply_calls.
  destruct c as [[response|e]|e].
  - destruct (body_readable response w1); simpl;
      unfold apply_call; simpl; rewrite Hended; done.
  - destruct (instanceof_Error e); simpl;
      unfold apply_call; simpl; rewrite Hended; done.
  - destruct (instanceof_Error e); simpl;
      unfold apply_call; simpl; rewrite Hended; done.
Qed.



End MiddlewareClaims.

(* ================================================================== *)
(** * Three requests, run *)
(* ================================================================== *)

(** [GET http://localhost/search?q=test-search&limit=10], handled with a
    200 response: the response is returned, the span is renamed, Ok and
    ended, it carries the seven attributes (not the user agent), and the
    body that was read is the clone's. *)
Example search_request_succeeds :
  let run := @middleware Sample.platform Sample.tracer Sample.get_search
                         Sample.next_ok Sample.world1 in
  run.1 = Normal (Resolved Sample.ok_response) ∧
  w_bodies run.2 = [mkBody "{}" false; mkBody "{}" true] ∧
  ∃ s, w_spans run.2 = [s] ∧
       sd_name s = "GET /search" ∧ sd_kind s = KindServer ∧
       sd_status s = StatusOk ∧ sd_ended s = true ∧
       sd_attributes s !! "http.request.method" = Some (AttrStr "GET") ∧
       sd_attributes s !! "url.path" = Some (AttrStr "/search") ∧
       sd_attributes s !! "url.full"
       = Some (AttrStr "http://localhost/search?q=test-search&limit=10") ∧
       sd_attributes s !! "http.response.status_code" = Some (AttrNum 200) ∧
       sd_attributes s !! "http.response.body.size" = Some (AttrNum 2) ∧
       sd_attributes s !! "http.request.header.accept" = Some (AttrStr "*/*") ∧
       sd_attributes s !! "http.request.header.user-agent" = None ∧
       sd_attributes s !! "http.response.header.content-type"
       = Some (AttrStr "application/json") ∧
       size (sd_attributes s) = 7.
Proof. vm_compute. split; [done|]. split; [done|]. eexists. by repeat split. Qed.

(** The handler throws [Error('boom')]: the middleware rejects with the
    same error; the span has status Error with message "boom", the
    exception record, its final name and no attribute. *)
Example handler_throws_boom :
  let run := @middleware Sample.platform Sample.tracer Sample.get_search
                         Sample.next_throw Sample.world1 in
  run.1 = Normal (Rejected (JsError 7 "boom")) ∧
  w_spans run.2
  = [mkSpanData "GET /search" KindServer
                {| traceId := IdGen 1; spanId := IdGen 0 |} None
                (StatusError (Some "boom")) ∅ [JsError 7 "boom"] true].
Proof. vm_compute. done. Qed.

(** The handler throws a string: the status message is the string and no
    exception is recorded. *)
Example handler_throws_string :
  let run := @middleware Sample.platform Sample.tracer Sample.post_data
                         (throw (JsString "oops")) Sample.world1 in
  run.1 = Normal (Rejected (JsString "oops")) ∧
  w_spans run.2
  = [mkSpanData "POST /data" KindServer
                {| traceId := IdGen 1; spanId := IdGen 0 |} None
                (StatusError (Some "oops")) ∅ [] true].
Proof. vm_compute. done. Qed.

(* ================================================================== *)
(** * The attributes of a successful request *)
(* ================================================================== *)

Section Attributes.
Context `{Platform}.

Lemma strip_prefix_app p n : strip_prefix p (p +:+ n) = Some n.
Proof.
  induction p as [|a p IH]; simpl; [by destruct n|].
  by rewrite Ascii.eqb_refl.
Qed.

Lemma strip_prefix_Some p k n : strip_prefix p k = Some n → k = p +:+ n.
Proof.
  revert k. induction p as [|a p IH]; intros k; simpl.
  - destruct k; by intros [= <-].
  - destruct k as [|b k]; [done|].
    destruct (Ascii.eqb_spec a b) as [->|]; [|done].
    intros Hk. by rewrite (IH _ Hk).
Qed.

Lemma append_inj_prefix p a b : p +:+ a = p +:+ b → a = b.
Proof.
  intros Hab. pose proof (strip_prefix_app p a) as Ha.
  rewrite Hab, strip_prefix_app in Ha. by injection Ha.
Qed.

Lemma last_header_snoc name entries kv :
  last_header name (entries ++ [kv])
  = if decide (String_toLowerCase kv.1 = name) then Some kv.2
    else last_header name entries.
Proof. unfold last_header. by rewrite foldl_app. Qed.

(** What a loop over header entries leaves under a key. *)
Lemma lookup_add_headers (skip : string → bool) (p : string)
    (entries : Headers) (m : Attributes) (k : string) :
  foldl (λ a kv, if skip (String_toLowerCase kv.1) then a
                 else <[p +:+ String_toLowerCase kv.1 := AttrStr kv.2]> a)
        m entries !! k
  = match strip_prefix p k with
    | Some name =>
        if skip name then m !! k
        else match last_header name entries with
             | Some v => Some (AttrStr v)
             | None => m !! k
             end
    | None => m !! k
    end.
Proof.
  induction entries as [|kv entries IH] using rev_ind.
  - simpl. destruct (strip_prefix p k) as [name|]; [|done].
    by destruct (skip name).
  - rewrite foldl_app. simpl.
    destruct (skip (String_toLowerCase kv.1)) eqn:Hskip.
    + rewrite IH. destruct (strip_prefix p k) as [name|]; [|done].
      destruct (skip name) eqn:Hname; [done|].
      rewrite last_header_snoc. case_decide; [congruence|done].
    + destruct (decide (k = p +:+ String_toLowerCase kv.1)) as [->|Hne].
      * rewrite lookup_insert_eq, strip_prefix_app, Hskip, last_header_snoc.
        by rewrite decide_True.
      * rewrite lookup_insert_ne by done. rewrite IH.
        destruct (strip_prefix p k) as [name|] eqn:Hk; [|done].
        destruct (skip name); [done|].
        rewrite last_header_snoc. case_decide as Heq; [|done].
        apply strip_prefix_Some in Hk. by subst.
Qed.

Lemma lookup_add_request_headers entries (m : Attributes) k :
  add_request_headers entries m !! k
  = match strip_prefix "http.request.header." k with
    | Some name =>
        if decide (name = "user-agent") then m !! k
        else match last_header name entries with
             | Some v => Some (AttrStr v)
             | None => m !! k
             end
    | None => m !! k
    end.
Proof.
  unfold add_request_headers.
  rewrite (lookup_add_headers (λ n, String.eqb n "user-agent")).
  destruct (strip_prefix _ k) as [name|]; [|done].
  destruct (String.eqb_spec name "user-agent"); by case_decide.
Qed.

Lemma lookup_add_response_headers entries (m : Attributes) k :
  add_response_headers entries m !! k
  = match strip_prefix "http.response.header." k with
    | Some name =>
        match last_header name entries with
        | Some v => Some (AttrStr v)
        | None => m !! k
        end
    | None => m !! k
    end.
Proof.
  unfold add_response_headers.
  by rewrite (lookup_add_headers (λ _, false)).
Qed.

Lemma lookup_basic_attributes req response size k :
  match size with
  | Some n => <["http.response.body.size" := AttrNum (Z.of_nat n)]>
                (basic_attributes req response)
  | None => basic_attributes req response
  end !! k
  = if decide (k = "http.request.method") then Some (AttrStr (req_method req))
    else if decide (k = "url.path") then
      Some (AttrStr (URL_pathname (req_url req)))
    else if decide (k = "url.full") then Some (AttrStr (req_url req))
    else if decide (k = "http.response.status_code") then
      Some (AttrNum (resp_status response))
    else if decide (k = "http.response.body.size") then
      (λ n, AttrNum (Z.of_nat n)) <$> size
    else None.
Proof.
  unfold basic_attributes.
  destruct size as [n|]; repeat case_decide; by simplify_map_eq.
Qed.

(** The attributes the code collects are those of the specification. *)
Lemma collected_attributes_spec req response size k :
  collected_attributes req response size !! k
  = spec_attribute req response size k.
Proof.
  unfold collected_attributes, spec_attribute.
  rewrite lookup_add_response_headers, lookup_add_request_headers.
  rewrite lookup_basic_attributes.
  destruct (strip_prefix "http.response.header." k) as [name|] eqn:Hresp.
  - apply strip_prefix_Some in Hresp as ->.
    repeat (case_decide; [done|]).
    change (strip_prefix "http.request.header."
              ("http.response.header." +:+ name)) with (@None string).
    by destruct (last_header name (resp_headers response)).
  - destruct (strip_prefix "http.request.header." k) as [name|] eqn:Hreq.
    + apply strip_prefix_Some in Hreq as ->.
      repeat (case_decide; [done|]).
      by destruct (last_header name (req_headers req)).
    + by repeat case_decide.
Qed.

Lemma w_bodies_leave before w : w_bodies (leave before w) = w_bodies w.
Proof. unfold leave. by destruct (w_cm_enabled before). Qed.

(** The body streams after the middleware has run. *)
Lemma middleware_bodies tracer req next w sp w0 c w1 :
  enter tracer req w = (sp, w0) →
  next w0 = (c, w1) →
  w_bodies (middleware tracer req next w).2 = w_bodies (fetch_after_next c w1).
Proof.
  intros He Hn. rewrite (middleware_summary _ _ _ _ _ _ _ _ He Hn). simpl.
  by rewrite w_bodies_leave, w_bodies_do_calls.
Qed.


End Attributes.


(* ================================================================== *)
(** * The exported helpers *)
(* ================================================================== *)

Section Helpers.
Context `{Platform}.

(** [fn] throws synchronously while the span is recording: the status
    is set to Error with the error's message, the exception is recorded,
    the span is ended, and the error is thrown again. *)
Lemma handler_throw_recording {A} (fn : SpanFn A) span w e w1 :
  fn span w = (Throw e, w1) →
  is_recording span w1 = true →
  createActiveSpanHandler fn span w
  = (Throw e, do_calls span (thrown_calls e) w1).
Proof.
  intros Hfn Hrec. unfold createActiveSpanHandler, try_catch.
  erewrite bind_throw by exact Hfn.
  unfold bind, span_isRecording. by rewrite Hrec.
Qed.

(** [fn] throws synchronously after the span stopped recording: the
    error is thrown again and the span is not touched. *)
Lemma handler_throw_not_recording {A} (fn : SpanFn A) span w e w1 :
  fn span w = (Throw e, w1) →
  is_recording span w1 = false →
  createActiveSpanHandler fn span w = (Throw e, w1).
Proof.
  intros Hfn Hrec. unfold createActiveSpanHandler, try_catch.
  erewrite bind_throw by exact Hfn.
  unfold bind, span_isRecording. by rewrite Hrec.
Qed.

(** [fn] returns a promise that rejects: the handler returns a promise
    rejecting with the same error, and makes no call on the span, whether
    it is recording or not. *)
Lemma handler_rejection {A} (fn : SpanFn A) span w e w1 :
  fn span w = (Normal (Thenable (Rejected e)), w1) →
  createActiveSpanHandler fn span w = (Normal (Thenable (Rejected e)), w1).
Proof.
  intros Hfn. unfold createActiveSpanHandler, try_catch.
  by erewrite bind_normal by exact Hfn.
Qed.

(** [fn] returns normally: the span is ended if it is still recording. *)
Lemma handler_plain {A} (fn : SpanFn A) span w (a : A) w1 :
  fn span w = (Normal (Plain a), w1) →
  createActiveSpanHandler fn span w
  = (Normal (Plain a),
     if is_recording span w1 then do_call span CallEnd w1 else w1).
Proof.
  intros Hfn. unfold createActiveSpanHandler, try_catch.
  erewrite bind_normal by exact Hfn.
  unfold bind, span_isRecording. by destruct (is_recording span w1).
Qed.

(** While [next] runs, the current span is the root span of the request
    (with a context manager registered). *)
Lemma getCurrentSpan_in_request tracer req w rootSpan w0 :
  w_cm_enabled w = true →
  enter tracer req w = (rootSpan, w0) →
  getCurrentSpan w0 = (Normal (Some rootSpan), w0).
Proof.
  intros Hcm. unfold enter. rewrite Hcm.
  destruct (start_span _ _ _ _ w) as [sp w'] eqn:Hs.
  apply start_span_frame in Hs as (Hcm' & _). intros [= <- <-].
  unfold getCurrentSpan, context_active, bind, ret. simpl. rewrite Hcm', Hcm.
  unfold trace_setSpan, SPAN_KEY, contextKeySpan. by rewrite lookup_insert_eq.
Qed.

End Helpers.

(** C3, on the code: a span callback that returns a rejecting promise.
    [startActiveSpan] and the tracer of [getTracer()] return a promise
    that rejects with the original error, but the span, which is
    recording, gets no status, no exception record, and is not ended;
    when the same callback throws synchronously the span gets all three. *)
Theorem startActiveSpan_rejection_leaves_span_untouched :
  let sc := {| traceId := IdGen 1; spanId := IdGen 0 |} in
  let span := SdkSpan 0 sc in
  let started := EvStartSpan span "op" KindInternal ROOT_CONTEXT in
  let rejects := @startActiveSpan Sample.platform nat
                   (Args2 "op" Sample.work_rejects) empty_world in
  let throws := @startActiveSpan Sample.platform nat
                  (Args2 "op" Sample.work_throws) empty_world in
  let rejects' :=
    (let* tracer := @getTracer Sample.platform in
     wt_startActiveSpan tracer nat (Args2 "op" Sample.work_rejects))
      empty_world in
  rejects.1 = Normal (Thenable (Rejected Sample.boom)) ∧
  w_log rejects.2 = [started] ∧
  w_spans rejects.2
  = [mkSpanData "op" KindInternal sc None StatusUnset ∅ [] false] ∧
  is_recording span rejects.2 = true ∧
  rejects' = rejects ∧
  throws.1 = Throw Sample.boom ∧
  w_log throws.2
  = started :: map (EvSpan span)
                   [CallSetStatus (StatusError (Some "boom"));
                    CallRecordException Sample.boom; CallEnd] ∧
  w_spans throws.2
  = [mkSpanData "op" KindInternal sc None (StatusError (Some "boom")) ∅
                [Sample.boom] true].
Proof. vm_compute. done. Qed.

(* ================================================================== *)
(** * The factory *)
(* ================================================================== *)

Section Factory.
Context `{Platform}.


End Factory.


(* ================================================================== *)
(** * What entering the span and the calls on it leave alone *)
(* ================================================================== *)

Section Concurrency.
Context `{Platform}.

Lemma do_calls_frame sp calls w :
  w_cm_enabled (do_calls sp calls w) = w_cm_enabled w ∧
  w_provider (do_calls sp calls w) = w_provider w ∧
  w_next_id (do_calls sp calls w) = w_next_id w ∧
  w_active (do_calls sp calls w) = w_active w.
Proof.
  revert w. induction calls as [|c calls IH]; intros w; [done|].
  unfold do_calls in *. simpl.
  destruct (IH (do_call sp c w)) as (-> & -> & -> & ->). by destruct sp.
Qed.

Lemma fetch_after_next_frame c w :
  w_cm_enabled (fetch_after_next c w) = w_cm_enabled w ∧
  w_provider (fetch_after_next c w) = w_provider w ∧
  w_next_id (fetch_after_next c w) = w_next_id w ∧
  w_active (fetch_after_next c w) = w_active w.
Proof.
  unfold fetch_after_next, after_clone.
  destruct c as [[response|e]|e]; [|done..].
  destruct (body_readable response w); [|done].
  destruct (resp_body response); [|done]. by destruct (w_bodies w !! _).
Qed.

(** What [enter] does to the world, with the SDK registered. *)
Lemma enter_frame tracer req w sp w0 :
  w_provider w = true →
  w_cm_enabled w = true →
  enter tracer req w = (sp, w0) →
  w_cm_enabled w0 = true ∧ w_provider w0 = true ∧
  w_active w0 = trace_setSpan (request_context req w) sp ∧
  w_next_id w0 = S (S (w_next_id w)) ∧
  spanId (spanContext sp) = IdGen (w_next_id w) ∧
  traceId (spanContext sp)
  = match valid_parent (request_context req w) with
    | Some p => traceId p
    | None => IdGen (S (w_next_id w))
    end.
Proof.
  intros Hp Hcm. unfold enter, start_span, tracer_is_noop.
  rewrite Hp, Hcm. simpl.
  replace (match tracer with ProxyTracer _ => false | SdkTracer _ => false end)
    with false by (by destruct tracer).
  destruct (should_sample _); intros [= <- <-]; simpl; by rewrite ?Hp, ?Hcm.
Qed.

Lemma request_context_ambient req ambient w :
  w_cm_enabled ambient = true → w_cm_enabled w = true →
  w_active w = w_active ambient →
  request_context req w = request_context req ambient.
Proof.
  intros Ha Hw Hact. unfold request_context, active_context.
  by rewrite Ha, Hw, Hact.
Qed.

Lemma observe_in_context sp ctx w :
  w_cm_enabled w = true → w_active w = ctx →
  trace_getSpan ctx = Some sp →
  observe w = Some (spanContext sp).
Proof.
  intros Hcm Hact Hsp.
  unfold observe, trace_getActiveSpan, context_active, bind, ret. simpl.
  by rewrite Hcm, Hact, Hsp.
Qed.

Lemma trace_getSpan_setSpan ctx sp :
  trace_getSpan (trace_setSpan ctx sp) = Some sp.
Proof. unfold trace_getSpan, trace_setSpan. by rewrite lookup_insert_eq. Qed.

Lemma set_active_restore ctx w :
  set_active (w_active w) (set_active ctx w) = w.
Proof. by destruct w. Qed.

End Concurrency.

(* ================================================================== *)
(** * The theorems at work on concrete requests *)
(* ================================================================== *)

Module Witness.
Import Sample.

#[local] Existing Instance platform.

Lemma span_named_request_then_renamed_witness :
  enter tracer get_search world1 = (SampleRun.entered.1, SampleRun.entered.2) ∧
  ∃ before,
    w_log (middleware tracer get_search next_ok world1).2
    = w_log (next_ok SampleRun.entered.2).2
      ++ map (EvSpan SampleRun.entered.1)
           (before ++ [CallUpdateName "GET /search"; CallEnd]).
Proof.
  assert (Henter : enter tracer get_search world1 = (SampleRun.entered.1, SampleRun.entered.2))
    by (vm_compute; reflexivity).
  split; [exact Henter|].
  exact (proj1 (proj2 (proj2 (proj2
    (span_named_request_then_renamed tracer get_search next_ok world1
       SampleRun.entered.1 SampleRun.entered.2 Henter))))).
Defined.



End Witness.


(* ================================================================== *)
(** * More on the active-span wrapper *)
(* ================================================================== *)

Section Wrapper.
Context `{Platform}.

Lemma is_recording_after_end sp w :
  is_recording sp (do_call sp CallEnd w) = false.
Proof.
  destruct sp as [ref sc|sc]; [|done].
  unfold is_recording, do_call. simpl. rewrite list_lookup_alter.
  case_decide; [|done].
  destruct (w_spans w !! ref) as [s|]; [|done]. simpl.
  unfold apply_call. by destruct (sd_ended s) eqn:Hs; simpl; rewrite ?Hs.
Qed.

(** A call on a span that is not recording leaves every span as it was. *)
Lemma w_spans_do_call_not_recording sp c w :
  is_recording sp w = false → w_spans (do_call sp c w) = w_spans w.
Proof.
  destruct sp as [ref sc|sc]; [|done].
  unfold is_recording, do_call. simpl. intros Hrec.
  apply list_eq. intros i. rewrite list_lookup_alter.
  case_decide as Hi; [|done]. subst i.
  destruct (w_spans w !! ref) as [s|]; [|done]. simpl.
  unfold apply_call. by destruct (sd_ended s).
Qed.

(** [fn] returns a promise that fulfils: the span is ended if it is still
    recording, and the promise fulfils with the same value. *)
Lemma handler_fulfilled {A} (fn : SpanFn A) span w (a : A) w1 :
  fn span w = (Normal (Thenable (Resolved a)), w1) →
  createActiveSpanHandler fn span w
  = (Normal (Thenable (Resolved a)),
     if is_recording span w1 then do_call span CallEnd w1 else w1).
Proof.
  intros Hfn. unfold createActiveSpanHandler, try_catch.
  erewrite bind_normal by exact Hfn.
  unfold promise_then, async, bind, span_isRecording.
  by destruct (is_recording span w1).
Qed.

(** What the wrapper does after [fn] has completed with [c] in world [w1]. *)
Lemma handler_after_fn {A} (fn : SpanFn A) span w c w1 :
  fn span w = (c, w1) →
  createActiveSpanHandler fn span w
  = (c, if is_recording span w1 then
          match c with
          | Throw e => do_calls span (thrown_calls e) w1
          | Normal (Thenable (Rejected _)) => w1
          | Normal _ => do_call span CallEnd w1
          end
        else w1).
Proof.
  intros Hfn. destruct c as [[a|[a|e]]|e].
  - by rewrite (handler_plain fn span w a w1 Hfn).
  - by rewrite (handler_fulfilled fn span w a w1 Hfn).
  - rewrite (handler_rejection fn span w e w1 Hfn).
    by destruct (is_recording span w1).
  - destruct (is_recording span w1) eqn:Hrec.
    + by rewrite (handler_throw_recording fn span w e w1 Hfn Hrec).
    + by rewrite (handler_throw_not_recording fn span w e w1 Hfn Hrec).
Qed.

(** X1.  The wrapper made by [createActiveSpanHandler] never changes what
    the callback produced: it returns the callback's value, returns a
    promise settling as the callback's promise does, or throws the very
    error the callback threw. *)
Theorem handler_result_unchanged {A} (fn : SpanFn A) span w :
  (createActiveSpanHandler fn span w).1 = (fn span w).1.
Proof.
  destruct (fn span w) as [c w1] eqn:Hfn.
  by rewrite (handler_after_fn fn span w c w1 Hfn).
Qed.

(** X2.  Unless the callback returned a promise that rejects, the span is
    no longer recording when the wrapper is done: it has been ended,
    whether the callback returned a value, a fulfilling promise, or threw. *)
Theorem handler_stops_recording {A} (fn : SpanFn A) span w :
  (∀ e, (fn span w).1 ≠ Normal (Thenable (Rejected e))) →
  is_recording span (createActiveSpanHandler fn span w).2 = false.
Proof.
  intros Hnot. destruct (fn span w) as [c w1] eqn:Hfn.
  rewrite (handler_after_fn fn span w c w1 Hfn). simpl in *.
  destruct (is_recording span w1) eqn:Hrec; [|done].
  destruct c as [[a|[a|e]]|e]; try apply is_recording_after_end.
  by destruct (Hnot e).
Qed.

(** X3.  The wrapper only makes calls on the span it was given, ends it at
    most once, and makes no call at all on a span that stopped recording
    while the callback ran (one the callback ended itself). *)
Theorem handler_ends_at_most_once {A} (fn : SpanFn A) span w :
  ∃ calls,
    (createActiveSpanHandler fn span w).2 = do_calls span calls (fn span w).2 ∧
    count is_end calls ≤ 1 ∧
    (is_recording span (fn span w).2 = false → calls = []).
Proof.
  destruct (fn span w) as [c w1] eqn:Hfn.
  rewrite (handler_after_fn fn span w c w1 Hfn). simpl.
  destruct (is_recording span w1) eqn:Hrec.
  - assert (Hcount : ∀ calls : list SpanCall,
              count is_end calls ≤ 1 →
              count is_end calls ≤ 1 ∧ (true = false → calls = []))
      by (intros calls Hle; split; [done|discriminate]).
    destruct c as [[a|[a|e]]|e].
    + exists [CallEnd]. split; [done|]. apply Hcount. unfold count. simpl. lia.
    + exists [CallEnd]. split; [done|]. apply Hcount. unfold count. simpl. lia.
    + exists []. split; [done|]. apply Hcount. unfold count. simpl. lia.
    + exists (thrown_calls e). split; [done|]. apply Hcount.
      unfold thrown_calls, count. simpl. lia.
  - exists []. split; [done|]. split; [|done]. unfold count. simpl. lia.
Qed.

Lemma wrapper_idempotent {A} (fn : SpanFn A) span w :
  createActiveSpanHandler (createActiveSpanHandler fn) span w
  = createActiveSpanHandler fn span w.
Proof.
  destruct (fn span w) as [c w1] eqn:Hfn.
  pose proof (handler_after_fn fn span w c w1 Hfn) as Hin.
  rewrite (handler_after_fn (createActiveSpanHandler fn) span w _ _ Hin).
  rewrite Hin. f_equal.
  destruct (is_recording span w1) eqn:Hrec; [|by rewrite Hrec].
  destruct c as [[a|[a|e]]|e].
  - by rewrite is_recording_after_end.
  - by rewrite is_recording_after_end.
  - by rewrite Hrec.
  - unfold thrown_calls, do_calls. simpl. by rewrite is_recording_after_end.
Qed.

(** X4.  Wrapping a callback twice does what wrapping it once does: the
    second wrapper finds the span ended and makes no call. *)
Theorem handler_twice {A} (fn : SpanFn A) span w :
  createActiveSpanHandler (createActiveSpanHandler fn) span w
  = createActiveSpanHandler fn span w.
Proof. apply wrapper_idempotent. Qed.

Lemma tracer_startActiveSpan_ext {A} t name options context
    (f g : SpanHandle → M A) w :
  (∀ sp w', f sp w' = g sp w') →
  tracer_startActiveSpan t name options context f w
  = tracer_startActiveSpan t name options context g w.
Proof.
  intros Hfg. unfold tracer_startActiveSpan, bind, context_active,
    tracer_startSpan, context_with.
  destruct (start_span _ _ _ _ w) as [sp w']. simpl.
  destruct (w_cm_enabled w'); by rewrite Hfg.
Qed.

(** X5.  The exported [startActiveSpan] and the [startActiveSpan] of the
    tracer that [getTracer()] returns do the same, for each of the three
    call shapes. *)
Theorem startActiveSpan_same_as_getTracer {A} (args : ActiveSpanArgs (SpanFn A)) w :
  startActiveSpan args w
  = (let* tracer := getTracer in wt_startActiveSpan tracer A args) w.
Proof.
  unfold startActiveSpan, getTracer, bind, ret, trace_getTracer. simpl.
  destruct args as [name fn|name options fn|name options context fn]; simpl;
    apply tracer_startActiveSpan_ext; intros sp w'; apply wrapper_idempotent.
Qed.

End Wrapper.

Lemma handler_stops_recording_witness :
  (∀ e, (Sample.work_throws SampleSpan.span SampleSpan.world).1
        ≠ Normal (Thenable (Rejected e))) ∧
  is_recording SampleSpan.span SampleSpan.world = true ∧
  is_recording SampleSpan.span
    (createActiveSpanHandler Sample.work_throws
       SampleSpan.span SampleSpan.world).2 = false.
Proof.
  assert (Hnot : ∀ e,
            (Sample.work_throws SampleSpan.span SampleSpan.world).1
            ≠ Normal (Thenable (Rejected e))) by (intros e; simpl; discriminate).
  split; [exact Hnot|]. split; [reflexivity|].
  exact (handler_stops_recording Sample.work_throws
           SampleSpan.span SampleSpan.world Hnot).
Defined.

(* ================================================================== *)
(** * The current span: nesting, handlers and the middleware *)
(* ================================================================== *)

Section CurrentSpan.
Context `{Platform}.

Lemma getCurrentSpan_lookup w :
  getCurrentSpan w
  = (Normal (match active_context w !! contextKeySpan with
             | Some (CtxSpan current) => Some current
             | _ => None
             end), w).
Proof. reflexivity. Qed.

Lemma setAttributes_run attributes w :
  setAttributes attributes w
  = match (getCurrentSpan w).1 with
    | Normal (Some span) =>
        (Normal true, do_call span (CallSetAttributes attributes) w)
    | _ => (Normal false, w)
    end.
Proof.
  unfold setAttributes, bind. rewrite getCurrentSpan_lookup. simpl.
  by destruct (active_context w !! contextKeySpan) as [[span|n]|].
Qed.


(** X6.  A span started with [startActiveSpan] while another span with a
    valid span context is current (SDK and context manager registered)
    is a child of that span: it has the same trace identifier, a new span
    identifier, and the current span's context as parent.  The callback
    runs with the new span as the current span, and the context that was
    active before is active again afterwards. *)
Theorem startActiveSpan_child_of_current {A} name (fn : SpanFn A) w parent :
  w_cm_enabled w = true →
  w_provider w = true →
  (getCurrentSpan w).1 = Normal (Some parent) →
  isSpanContextValid (spanContext parent) = true →
  ∃ child w1,
    start_span (SdkTracer "@vafast/vafast") name default_SpanOptions
               (w_active w) w = (child, w1) ∧
    traceId (spanContext child) = traceId (spanContext parent) ∧
    spanId (spanContext child) = IdGen (w_next_id w) ∧
    (∀ ref sc, child = SdkSpan ref sc →
       sd_parent <$> (w_spans w1 !! ref) = Some (Some (spanContext parent))) ∧
    (getCurrentSpan (set_active (trace_setSpan (w_active w) child) w1)).1
    = Normal (Some child) ∧
    startActiveSpan (Args2 name fn) w
    = (let (c, w2) :=
         createActiveSpanHandler fn child
           (set_active (trace_setSpan (w_active w) child) w1) in
       (c, set_active (w_active w) w2)).
Proof.
  intros Hcm Hp Hcur Hvalid.
  rewrite getCurrentSpan_lookup in Hcur. simpl in Hcur.
  unfold active_context in Hcur. rewrite Hcm in Hcur.
  assert (Hparent : valid_parent (w_active w) = Some (spanContext parent)).
  { unfold valid_parent, trace_getSpanContext, trace_getSpan, SPAN_KEY.
    unfold contextKeySpan in Hcur.
    destruct (w_active w !! "OpenTelemetry Context Key SPAN")
      as [[sp|n]|]; [|done..].
    injection Hcur as ->. simpl. by rewrite Hvalid. }
  destruct (start_span (SdkTracer "@vafast/vafast") name default_SpanOptions
              (w_active w) w) as [child w1] eqn:Hs.
  exists child, w1. split; [done|].
  pose proof Hs as Hs'. unfold start_span in Hs'. simpl in Hs'.
  rewrite Hparent in Hs'.
  assert (Hcm1 : w_cm_enabled w1 = true)
    by (destruct (should_sample _); injection Hs' as <- <-; done).
  split; [by destruct (should_sample _); injection Hs' as <- <-|].
  split; [by destruct (should_sample _); injection Hs' as <- <-|].
  split.
  { intros ref sc ->. destruct (should_sample _); [|done].
    injection Hs' as <- <- <-. simpl.
    rewrite lookup_app_r by done. by rewrite Nat.sub_diag. }
  split.
  { rewrite getCurrentSpan_lookup. simpl. unfold active_context. simpl.
    rewrite Hcm1. unfold trace_setSpan, SPAN_KEY, contextKeySpan.
    by rewrite lookup_insert_eq. }
  unfold startActiveSpan, getTracer, bind, ret, trace_getTracer. simpl.
  rewrite Hp.
  rewrite (tracer_startActiveSpan_ext _ _ _ _ _ (createActiveSpanHandler fn))
    by (intros; apply wrapper_idempotent).
  unfold tracer_startActiveSpan, bind, context_active, tracer_startSpan,
    context_with. rewrite Hcm. simpl. rewrite Hs, Hcm1.
  destruct (createActiveSpanHandler fn child _) as [c w2].
  do 2 f_equal.
  unfold start_span in Hs. simpl in Hs.
  by destruct (valid_parent (w_active w)); destruct (should_sample _);
    injection Hs as <- <-.
Qed.

(** X7.  While [next] runs (SDK and context manager registered), the root
    span of the request is the current span for [getCurrentSpan()] and for
    [trace.getActiveSpan()]; its span context is valid, it is recording
    exactly when the sampler sampled it, and a [setAttributes] call of
    the handler returns [true] and reaches it. *)
Theorem root_span_current_during_next tracer req w rootSpan w0 attributes :
  w_cm_enabled w = true →
  w_provider w = true →
  enter tracer req w = (rootSpan, w0) →
  getCurrentSpan w0 = (Normal (Some rootSpan), w0) ∧
  trace_getActiveSpan w0 = (Normal (Some rootSpan), w0) ∧
  isSpanContextValid (spanContext rootSpan) = true ∧
  is_recording rootSpan w0 = should_sample (valid_parent (request_context req w)) ∧
  setAttributes attributes w0
  = (Normal true, do_call rootSpan (CallSetAttributes attributes) w0).
Proof.
  intros Hcm Hp He.
  pose proof (getCurrentSpan_in_request _ _ _ _ _ Hcm He) as Hcur.
  destruct (enter_frame _ _ _ _ _ Hp Hcm He)
    as (Hcm0 & _ & Hact0 & _ & Hspan & Htrace).
  split; [done|]. split.
  { unfold trace_getActiveSpan, bind, context_active, ret. simpl.
    by rewrite Hcm0, Hact0, trace_getSpan_setSpan. }
  split.
  { unfold isSpanContextValid. rewrite Hspan, Htrace. simpl.
    unfold valid_parent.
    destruct (trace_getSpanContext (request_context req w)) as [p|]; [|done].
    unfold isSpanContextValid.
    destruct (id_valid (traceId p)) eqn:Ht; simpl; [|done].
    destruct (id_valid (spanId p)); simpl; by rewrite ?Ht. }
  split.
  { unfold enter, start_span, tracer_is_noop in He. rewrite Hp, Hcm in He.
    simpl in He.
    replace (match tracer with ProxyTracer _ => false | SdkTracer _ => false end)
      with false in He by (by destruct tracer).
    destruct (should_sample _); injection He as <- <-; simpl; [|done].
    rewrite lookup_app_r by done. by rewrite Nat.sub_diag. }
  by rewrite setAttributes_run, Hcur.
Qed.

(** X8.  [setAttributes] returns [true] also when the current span is
    not recording (it has ended, or is a non-recording span); the call
    then stores nothing: every span is as it was. *)
Theorem setAttributes_on_ended_span attributes w span :
  (getCurrentSpan w).1 = Normal (Some span) →
  is_recording span w = false →
  (setAttributes attributes w).1 = Normal true ∧
  w_spans (setAttributes attributes w).2 = w_spans w.
Proof.
  intros Hcur Hrec. rewrite setAttributes_run, Hcur. simpl.
  split; [done|]. by apply w_spans_do_call_not_recording.
Qed.

(** X9.  With no context manager registered there is never a current
    span: [getCurrentSpan()] returns [undefined] and [setAttributes]
    returns [false] and does nothing, also while [next] runs inside the
    middleware. *)
Theorem no_context_manager_no_current_span attributes w :
  w_cm_enabled w = false →
  getCurrentSpan w = (Normal None, w) ∧
  setAttributes attributes w = (Normal false, w) ∧
  ∀ tracer req rootSpan w0,
    enter tracer req w = (rootSpan, w0) →
    getCurrentSpan w0 = (Normal None, w0) ∧
    setAttributes attributes w0 = (Normal false, w0).
Proof.
  intros Hcm.
  assert (Hnone : ∀ w', w_cm_enabled w' = false →
            getCurrentSpan w' = (Normal None, w') ∧
            setAttributes attributes w' = (Normal false, w')).
  { intros w' Hw'.
    assert (getCurrentSpan w' = (Normal None, w')) as Hg.
    { rewrite getCurrentSpan_lookup. unfold active_context. by rewrite Hw'. }
    split; [done|]. by rewrite setAttributes_run, Hg. }
  split; [by apply Hnone|]. split; [by apply Hnone|].
  intros tracer req rootSpan w0 He. apply Hnone.
  unfold enter in He. rewrite Hcm in He.
  destruct (start_span _ _ _ _ w) as [sp w'] eqn:Hs.
  apply start_span_frame in Hs as (Hcm' & _). injection He as <- <-.
  by rewrite Hcm'.
Qed.


(** X11.  The middleware does not leak the context of the request: with
    a context manager registered, the context that was active when the
    middleware was called is active again when it is done, whatever
    [next] did; with none registered, the middleware does not touch the
    active context at all. *)
Theorem middleware_restores_context tracer req next w :
  w_active (middleware tracer req next w).2
  = if w_cm_enabled w then w_active w
    else w_active (next (enter tracer req w).2).2.
Proof.
  destruct (enter tracer req w) as [sp w0] eqn:He.
  destruct (next w0) as [c w1] eqn:Hn.
  rewrite (middleware_summary _ _ _ _ _ _ _ _ He Hn). simpl.
  unfold leave. destruct (w_cm_enabled w); [done|]. rewrite Hn. simpl.
  destruct (do_calls_frame sp (calls_after_next req c w1)
              (fetch_after_next c w1)) as (_ & _ & _ & ->).
  by destruct (fetch_after_next_frame c w1) as (_ & _ & _ & ->).
Qed.

End CurrentSpan.


(* ================================================================== *)
(** * More on the attributes and on the body of the response *)
(* ================================================================== *)

Section MoreAttributes.
Context `{Platform}.

Lemma last_header_Some name entries v :
  last_header name entries = Some v →
  ∃ key, (key, v) ∈ entries ∧ String_toLowerCase key = name.
Proof.
  induction entries as [|kv entries IH] using rev_ind; [done|].
  rewrite last_header_snoc. case_decide as Hkey.
  - intros [= <-]. exists kv.1. split; [|done].
    apply elem_of_app. right. apply list_elem_of_singleton. by destruct kv.
  - intros Hl. destruct (IH Hl) as (key & Hin & Hk).
    exists key. split; [|done]. apply elem_of_app. by left.
Qed.

Lemma last_header_is_Some name entries key value :
  (key, value) ∈ entries → String_toLowerCase key = name →
  is_Some (last_header name entries).
Proof.
  intros Hin Hk. induction entries as [|kv entries IH] using rev_ind.
  - by apply elem_of_nil in Hin.
  - rewrite last_header_snoc. case_decide as Hkey; [by eexists|].
    apply elem_of_app in Hin as [Hin | Hin%list_elem_of_singleton]; [by apply IH|].
    subst kv. by destruct Hkey.
Qed.


(** X13.  When [next] returns a response whose body has already been
    read, [response.clone()] throws a [TypeError] after [setStatus] was
    called with Ok: the middleware rejects with that error (its message is
    the runtime's), and the calls it makes on the span are, in this
    order, [setStatus] with Ok, [setStatus] with Error and the error's
    message, [recordException] with the error, [updateName], [end]; it
    makes no [setAttributes] call and touches no body stream. *)
Theorem read_body_rejects tracer req next w rootSpan w0 w1 response :
  enter tracer req w = (rootSpan, w0) →
  next w0 = (Normal (Resolved response), w1) →
  body_readable response w1 = false →
  let error := JsError (w_next_obj w1) body_unusable_message in
  (middleware tracer req next w).1 = Normal (Rejected error) ∧
  w_log (middleware tracer req next w).2
  = w_log w1
    ++ map (EvSpan rootSpan)
         [CallSetStatus StatusOk;
          CallSetStatus (StatusError (Some body_unusable_message));
          CallRecordException error;
          CallUpdateName (final_name req); CallEnd] ∧
  w_bodies (middleware tracer req next w).2 = w_bodies w1.
Proof.
  intros He Hn Hr error.
  rewrite (middleware_bodies _ _ _ _ _ _ _ _ He Hn).
  rewrite (middleware_log _ _ _ _ _ _ _ _ He Hn).
  rewrite (middleware_summary _ _ _ _ _ _ _ _ He Hn).
  unfold result_after_next, calls_after_next, fetch_after_next.
  by rewrite Hr.
Qed.

(** X14.  Every attribute the middleware collects is accounted for: its
    key is one of the five fixed keys, or the request prefix followed by
    the lower-cased name of a header of the request other than the user
    agent, or the response prefix followed by the lower-cased name of a
    header of the response; a header attribute carries the value of such
    a header. *)
Theorem collected_attributes_sound req response size k v :
  collected_attributes req response size !! k = Some v →
  k ∈ ["http.request.method"; "url.path"; "url.full";
       "http.response.status_code"; "http.response.body.size"]
  ∨ (∃ name value,
       (name, value) ∈ req_headers req ∧
       String_toLowerCase name ≠ "user-agent" ∧
       k = "http.request.header." +:+ String_toLowerCase name ∧
       v = AttrStr value)
  ∨ (∃ name value,
       (name, value) ∈ resp_headers response ∧
       k = "http.response.header." +:+ String_toLowerCase name ∧
       v = AttrStr value).
Proof.
  rewrite collected_attributes_spec. unfold spec_attribute.
  do 5 (case_decide; [intros _; left; subst; set_solver|]).
  destruct (strip_prefix "http.request.header." k) as [name|] eqn:Hreq.
  - apply strip_prefix_Some in Hreq. case_decide as Hua; [by intros ?|].
    destruct (last_header name (req_headers req)) as [value|] eqn:Hl;
      [|by intros ?].
    intros [= <-]. right. left.
    destruct (last_header_Some _ _ _ Hl) as (key & Hin & <-).
    by exists key, value.
  - destruct (strip_prefix "http.response.header." k) as [name|] eqn:Hresp;
      [|by intros ?].
    apply strip_prefix_Some in Hresp.
    destruct (last_header name (resp_headers response)) as [value|] eqn:Hl;
      [|by intros ?].
    intros [= <-]. right. right.
    destruct (last_header_Some _ _ _ Hl) as (key & Hin & <-).
    by exists key, value.
Qed.

(** X15.  Every header of the request other than the user agent, and
    every header of the response, has its attribute, under the lower-cased
    name; the user agent has none, however its name is spelled. *)
Theorem collected_attributes_complete req response size :
  (∀ name value, (name, value) ∈ req_headers req →
     String_toLowerCase name ≠ "user-agent" →
     is_Some (collected_attributes req response size
                !! ("http.request.header." +:+ String_toLowerCase name))) ∧
  (∀ name value, (name, value) ∈ resp_headers response →
     is_Some (collected_attributes req response size
                !! ("http.response.header." +:+ String_toLowerCase name))) ∧
  collected_attributes req response size !! "http.request.header.user-agent"
  = None.
Proof.
  split; [|split].
  - intros name value Hin Hua.
    rewrite collected_attributes_spec. unfold spec_attribute.
    repeat (case_decide; [done|]).
    rewrite strip_prefix_app. rewrite decide_False by done.
    destruct (last_header_is_Some _ _ _ _ Hin eq_refl) as [v ->]. by eexists.
  - intros name value Hin.
    rewrite collected_attributes_spec. unfold spec_attribute.
    repeat (case_decide; [done|]).
    change (strip_prefix "http.request.header."
              ("http.response.header." +:+ String_toLowerCase name))
      with (@None string).
    rewrite strip_prefix_app.
    destruct (last_header_is_Some _ _ _ _ Hin eq_refl) as [v ->]. by eexists.
  - by rewrite collected_attributes_spec.
Qed.

End MoreAttributes.

(* ================================================================== *)
(** * More on the factory *)
(* ================================================================== *)

Section MoreFactory.
Context `{Platform}.

Lemma factory_registers options w mw w' :
  opentelemetry options w = (Normal mw, w') →
  w_provider w = true ∨ NodeSDK_start_provider (sdk_config options) = true →
  w_provider w' = true.
Proof.
  unfold opentelemetry, trace_getTracer, NodeSDK_new, NodeSDK_start,
    context_getContextManager_truthy, ContextManager_enable,
    context_setGlobalContextManager, sdk_config.
  unfold bind, try_catch, ret, modify, throw.
  destruct (w_provider w) eqn:Hp; simpl.
  - intros Hrun _. revert Hrun.
    destruct has_getContextManager; simpl; [by intros [= _ <-]|].
    destruct (opt_contextManager options) as [cm|]; simpl;
      [|by intros [= _ <-]].
    destruct (cm_enable_error cm); simpl; [by intros [= _ <-]|].
    destruct (w_cm_enabled w); simpl; by intros [= _ <-].
  - intros Hrun [|Hreg]; [done|]. revert Hrun.
    destruct (NodeSDK_constructor_error _); simpl; [done|].
    destruct (NodeSDK_start_error _); simpl; [done|].
    rewrite Hreg.
    destruct (NodeSDK_start_contextManager _), has_getContextManager; simpl;
      try (by intros [= _ <-]);
      (destruct (opt_contextManager options) as [cm|]; simpl;
         [|by intros [= _ <-]]);
      (destruct (cm_enable_error cm); simpl; [by intros [= _ <-]|]);
      try (destruct (w_cm_enabled w)); simpl; by intros [= _ <-].
Qed.

(** A start that registers no provider leaves the proxy tracer in place. *)
Lemma factory_unregistered options w mw w' :
  opentelemetry options w = (Normal mw, w') →
  w_provider w = false →
  NodeSDK_start_provider (sdk_config options) = false →
  w_provider w' = false ∧
  mw = middleware (ProxyTracer (default "@vafast/vafast"
                                        (opt_serviceName options))).
Proof.
  unfold opentelemetry, trace_getTracer, NodeSDK_new, NodeSDK_start,
    context_getContextManager_truthy, ContextManager_enable,
    context_setGlobalContextManager, sdk_config.
  unfold bind, try_catch, ret, modify, throw.
  intros Hrun Hp Hreg. revert Hrun. rewrite Hp. simpl.
  destruct (NodeSDK_constructor_error _); simpl; [done|].
  destruct (NodeSDK_start_error _); simpl; [done|].
  rewrite Hreg.
  destruct (NodeSDK_start_contextManager _), has_getContextManager; simpl;
    rewrite ?Hp; simpl;
    try (by intros [= <- <-]);
    (destruct (opt_contextManager options) as [cm|]; simpl;
       [|by intros [= <- <-]]);
    (destruct (cm_enable_error cm); simpl; [by intros [= <- <-]|]);
    try (destruct (w_cm_enabled w)); simpl; by intros [= <- <-].
Qed.

Lemma factory_with_provider options w :
  w_provider w = true →
  ∃ w', opentelemetry options w
        = (Normal (middleware
                     (SdkTracer (default "@vafast/vafast"
                                         (opt_serviceName options)))), w') ∧
        w_provider w' = true ∧ w_spans w' = w_spans w ∧ w_log w' = w_log w.
Proof.
  intros Hp.
  unfold opentelemetry, trace_getTracer, NodeSDK_new, NodeSDK_start,
    context_getContextManager_truthy, ContextManager_enable,
    context_setGlobalContextManager.
  unfold bind, try_catch, ret, modify, throw. rewrite Hp. simpl.
  destruct has_getContextManager; simpl; [eauto|].
  destruct (opt_contextManager options) as [cm|]; simpl; [|eauto].
  destruct (cm_enable_error cm); simpl; [eauto|].
  destruct (w_cm_enabled w); simpl; eauto.
Qed.

(** X16.  The bootstrap runs at most once exactly when it registers a
    tracer provider.  If a provider was registered before a factory call
    that returned a middleware, or the [sdk.start()] of that call
    registered one, then every later factory call returns a middleware
    around the provider's tracer for its service name ("@vafast/vafast"
    when none is given), whatever constructing or starting an SDK would
    do, and creates no span.  If none was registered and [sdk.start()]
    registered none (a disabled SDK), the middleware is built around the
    proxy tracer, there is still no provider, and the next factory call
    constructs an SDK again: what its constructor throws propagates. *)
Theorem factory_again options1 options2 w mw w1 :
  opentelemetry options1 w = (Normal mw, w1) →
  (w_provider w = true ∨ NodeSDK_start_provider (sdk_config options1) = true →
   ∃ w2,
     opentelemetry options2 w1
     = (Normal (middleware
                  (SdkTracer (default "@vafast/vafast"
                                      (opt_serviceName options2)))), w2) ∧
     w_provider w2 = true ∧ w_spans w2 = w_spans w1 ∧ w_log w2 = w_log w1) ∧
  (w_provider w = false →
   NodeSDK_start_provider (sdk_config options1) = false →
   w_provider w1 = false ∧
   mw = middleware (ProxyTracer (default "@vafast/vafast"
                                         (opt_serviceName options1))) ∧
   ∀ e, NodeSDK_constructor_error (sdk_config options2) = Some e →
        opentelemetry options2 w1 = (Throw e, w1)).
Proof.
  intros H1. split.
  - intros Hreg. apply factory_with_provider.
    by eapply factory_registers.
  - intros Hp Hreg.
    destruct (factory_unregistered _ _ _ _ H1 Hp Hreg) as [Hp1 Hmw].
    split; [done|]. split; [done|]. intros e He.
    unfold opentelemetry, trace_getTracer, NodeSDK_new, bind.
    fold (sdk_config options2). rewrite Hp1. simpl. by rewrite He.
Qed.

(** X17.  On an API whose context object has [_getContextManager], the
    [contextManager] option is never used: the factory does with it what
    it does without it, and [enable()] is not called. *)
Theorem factory_ignores_context_manager options w :
  has_getContextManager = true →
  opentelemetry options w
  = opentelemetry (mkOptions (opt_serviceName options)
                             (opt_instrumentations options) None
                             (opt_rest options)) w.
Proof.
  intros Hhas. unfold opentelemetry, context_getContextManager_truthy.
  simpl. by rewrite Hhas.
Qed.

End MoreFactory.

(* ================================================================== *)
(** * The helpers of the tests *)
(* ================================================================== *)

Section TestHelpers.
Context `{Platform}.

(** X18.  [captureSpanData], called by a handler while [next] runs (SDK
    and context manager registered), returns a record with the trace and
    span identifiers of the request's root span and its recording flag,
    and appends exactly that record to [capturedSpans]; the identifiers
    are valid and the world is not changed. *)
Theorem captureSpanData_in_request tracer req w rootSpan w0 name captured :
  w_cm_enabled w = true →
  w_provider w = true →
  enter tracer req w = (rootSpan, w0) →
  let record :=
    {| cs_name := name;
       cs_traceId := traceId (spanContext rootSpan);
       cs_spanId := spanId (spanContext rootSpan);
       cs_isRecording := should_sample (valid_parent (request_context req w)) |} in
  captureSpanData name captured w0
  = (Normal (Some record, captured ++ [record]), w0) ∧
  id_valid (cs_traceId record) = true ∧ id_valid (cs_spanId record) = true.
Proof.
  intros Hcm Hp He record.
  destruct (enter_frame _ _ _ _ _ Hp Hcm He)
    as (Hcm0 & _ & Hact0 & _ & Hspan & Htrace).
  assert (Hrec : is_recording rootSpan w0
                 = should_sample (valid_parent (request_context req w))).
  { unfold enter, start_span, tracer_is_noop in He. rewrite Hp, Hcm in He.
    simpl in He.
    replace (match tracer with ProxyTracer _ => false | SdkTracer _ => false end)
      with false in He by (by destruct tracer).
    destruct (should_sample _); injection He as <- <-; simpl; [|done].
    rewrite lookup_app_r by done. by rewrite Nat.sub_diag. }
  split.
  - unfold captureSpanData, trace_getActiveSpan, bind, context_active, ret,
      span_isRecording. simpl.
    by rewrite Hcm0, Hact0, trace_getSpan_setSpan, Hrec.
  - unfold record. simpl. rewrite Hspan, Htrace. split; [|done].
    unfold valid_parent.
    destruct (trace_getSpanContext (request_context req w)) as [p|]; [|done].
    unfold isSpanContextValid.
    by destruct (id_valid (traceId p)) eqn:Ht; destruct (id_valid (spanId p)).
Qed.

End TestHelpers.

(* ================================================================== *)
(** * The helpers the package does not use *)
(* ================================================================== *)

Section ParseNumericFacts.
Context `{NumberApi}.

(** X19.  Whatever [parseNumericString] returns is [Number(message)], is
    not [NaN], and comes from a message of 1 to 16 characters; for a
    message of 16 characters the number prints back to the message
    itself, and the message is not blank. *)
Theorem parseNumericString_result message n :
  parseNumericString message = Some n →
  n = js_Number message ∧ js_isNaN n = false ∧
  1 ≤ String.length message ≤ 16 ∧
  (String.length message = 16 →
   js_toString n = message ∧ String.length (js_trim message) ≠ 0).
Proof.
  unfold parseNumericString.
  destruct (String.length message <? 16) eqn:Hlt.
  - apply Nat.ltb_lt in Hlt.
    destruct (String.length message =? 0) eqn:H0; [done|].
    apply Nat.eqb_neq in H0.
    destruct (js_isNaN (js_Number message)) eqn:Hnan; [done|].
    intros [= <-]. repeat split; try done; lia.
  - apply Nat.ltb_ge in Hlt.
    destruct (String.length message =? 16) eqn:H16; [|done].
    apply Nat.eqb_eq in H16.
    destruct (String.eqb_spec (js_toString (js_Number message)) message)
      as [Heq|]; simpl; [|done].
    destruct (String.length (js_trim message) =? 0) eqn:Htrim; simpl; [done|].
    apply Nat.eqb_neq in Htrim.
    destruct (js_isNaN (js_Number message)) eqn:Hnan; [done|].
    intros [= <-]. repeat split; try done; lia.
Qed.

(** X20.  [parseNumericString] returns [null] for the empty message, for
    every message longer than 16 characters, and whenever [Number] makes
    [NaN] of the message; a message of 1 to 15 characters that [Number]
    reads is returned as that number. *)
Theorem parseNumericString_null message :
  (String.length message = 0 ∨ 16 < String.length message
   ∨ js_isNaN (js_Number message) = true →
   parseNumericString message = None) ∧
  (1 ≤ String.length message < 16 →
   js_isNaN (js_Number message) = false →
   parseNumericString message = Some (js_Number message)).
Proof.
  unfold parseNumericString. split.
  - intros [H0 | [Hlong | Hnan]].
    + rewrite H0. done.
    + destruct (String.length message <? 16) eqn:Hlt;
        [apply Nat.ltb_lt in Hlt; lia|].
      destruct (String.length message =? 16) eqn:H16; [|done].
      apply Nat.eqb_eq in H16. lia.
    + rewrite Hnan. rewrite orb_true_r.
      by repeat case_match.
  - intros [H1 H16] Hnan.
    destruct (String.length message <? 16) eqn:Hlt;
      [|apply Nat.ltb_ge in Hlt; lia].
    destruct (String.length message =? 0) eqn:H0;
      [apply Nat.eqb_eq in H0; lia|].
    by rewrite Hnan.
Qed.

End ParseNumericFacts.

(** X21.  [isNotEmpty(obj)] is [true] exactly when [obj] is an object
    with at least one property: [false] for [undefined] and for the empty
    object, [true] as soon as a key has been set. *)
Theorem isNotEmpty_iff {V} (obj : option (gmap string V)) :
  (isNotEmpty obj = true ↔ ∃ o k v, obj = Some o ∧ o !! k = Some v) ∧
  (∀ (o : gmap string V) k v, isNotEmpty (Some (<[k := v]> o)) = true) ∧
  isNotEmpty (Some (∅ : gmap string V)) = false ∧
  isNotEmpty (@None (gmap string V)) = false.
Proof.
  assert (Hiff : isNotEmpty obj = true ↔ ∃ o k v, obj = Some o ∧ o !! k = Some v).
  { unfold isNotEmpty. destruct obj as [o|].
    - destruct (map_to_list o) as [|[k v] l] eqn:Hl.
      + apply map_to_list_empty_iff in Hl. subst o. split; [done|].
        intros (o & k & v & [= <-] & Hk). by rewrite lookup_empty in Hk.
      + split; [|done]. intros _. exists o, k, v. split; [done|].
        apply elem_of_map_to_list. rewrite Hl. by left.
    - split; [done|]. by intros (o & k & v & ? & _). }
  split; [done|]. split; [|split].
  - intros o k v. unfold isNotEmpty.
    destruct (map_to_list (<[k:=v]> o)) eqn:Hl; [|done].
    apply map_to_list_empty_iff in Hl.
    by apply insert_non_empty in Hl.
  - unfold isNotEmpty. by rewrite map_to_list_empty.
  - done.
Qed.

(* ================================================================== *)
(** * What the package leaves alone *)
(* ================================================================== *)

Section Frame.
Context `{Platform}.

Lemma w_spans_do_calls_other sp calls w (ref : nat) :
  (∀ sc, sp ≠ SdkSpan ref sc) →
  w_spans (do_calls sp calls w) !! ref = w_spans w !! ref.
Proof.
  intros Hsp. revert w. induction calls as [|c calls IH]; intros w; [done|].
  unfold do_calls in *. simpl. rewrite IH.
  destruct sp as [r sc|sc]; [|done]. simpl.
  rewrite list_lookup_alter_ne; [done|].
  intros ->. by apply (Hsp sc).
Qed.

Lemma w_spans_do_calls_length sp calls w :
  length (w_spans (do_calls sp calls w)) = length (w_spans w).
Proof.
  revert w. induction calls as [|c calls IH]; intros w; [done|].
  unfold do_calls in *. simpl. rewrite IH.
  destruct sp as [r sc|sc]; [|done]. simpl. by rewrite length_alter.
Qed.

(** X22.  When [fn] throws synchronously, the handler throws the same
    error again; if the span is still recording it makes exactly three
    calls on it, in this order: status Error with the error's [message]
    (undefined when the error has none), [recordException], [end]; if the
    span is not recording it makes no call at all. *)
Theorem handler_throw_annotates {A} (fn : SpanFn A) span w e w1 :
  fn span w = (Throw e, w1) →
  (createActiveSpanHandler fn span w).1 = Throw e ∧
  w_log (createActiveSpanHandler fn span w).2
  = w_log w1
    ++ (if is_recording span w1
        then map (EvSpan span)
               [CallSetStatus (StatusError (optional_message e));
                CallRecordException e; CallEnd]
        else []).
Proof.
  intros Hfn. destruct (is_recording span w1) eqn:Hrec.
  - rewrite (handler_throw_recording _ _ _ _ _ Hfn Hrec). cbn [fst snd].
    split; [done|]. by rewrite w_log_do_calls.
  - rewrite (handler_throw_not_recording _ _ _ _ _ Hfn Hrec). cbn [fst snd].
    split; [done|]. by rewrite app_nil_r.
Qed.

(** X23.  The middleware changes no span but the root span of its own
    request: every other span, and every span when the root span is a
    non-recording one, is as [next] left it, and the middleware creates no
    span after the root span. *)
Theorem middleware_touches_only_root_span tracer req next w rootSpan w0 c w1 :
  enter tracer req w = (rootSpan, w0) →
  next w0 = (c, w1) →
  length (w_spans (middleware tracer req next w).2) = length (w_spans w1) ∧
  ∀ ref : nat,
    (∀ sc, rootSpan ≠ SdkSpan ref sc) →
    w_spans (middleware tracer req next w).2 !! ref = w_spans w1 !! ref.
Proof.
  intros He Hn. rewrite (middleware_summary _ _ _ _ _ _ _ _ He Hn). simpl.
  rewrite w_spans_leave. split.
  - by rewrite w_spans_do_calls_length, w_spans_fetch_after_next.
  - intros ref Hother.
    by rewrite w_spans_do_calls_other, w_spans_fetch_after_next.
Qed.

(** X24.  The root span continues the trace of the caller: a recording
    root span is a new span of kind SERVER named "request", appended to
    the spans there were, whose parent is the valid span context that the
    propagator extracted from the request's headers, if any; it is in the
    trace of that parent, and in a new trace when there is none. *)
Theorem root_span_continues_trace tracer req w ref sc w0 :
  enter tracer req w = (SdkSpan ref sc, w0) →
  let parent := valid_parent (request_context req w) in
  w_spans w0
  = w_spans w
    ++ [mkSpanData "request" KindServer sc parent StatusUnset ∅ [] false] ∧
  ref = length (w_spans w) ∧
  traceId sc = match parent with
               | Some p => traceId p
               | None => IdGen (S (w_next_id w))
               end ∧
  spanId sc = IdGen (w_next_id w).
Proof.
  intros He parent. unfold enter, start_span in He.
  change (valid_parent (request_context req w)) with parent in He.
  destruct (tracer_is_noop tracer w); [by destruct (w_cm_enabled w)|].
  destruct (should_sample parent); [|by destruct (w_cm_enabled w)].
  by destruct (w_cm_enabled w); injection He as <- <- <-.
Qed.

End Frame.

(* ================================================================== *)
(** * The further properties at the sample inputs *)
(* ================================================================== *)

Module MoreWitness.
Import Sample.

#[local] Existing Instance platform.

Lemma startActiveSpan_child_of_current_witness :
  w_cm_enabled SampleSpan.world = true ∧
  w_provider SampleSpan.world = true ∧
  (getCurrentSpan SampleSpan.world).1 = Normal (Some SampleSpan.span) ∧
  isSpanContextValid (spanContext SampleSpan.span) = true ∧
  ∃ child w1,
    start_span (SdkTracer "@vafast/vafast") "child" default_SpanOptions
               (w_active SampleSpan.world) SampleSpan.world = (child, w1) ∧
    traceId (spanContext child) = traceId SampleSpan.context ∧
    spanId (spanContext child) = IdGen 2.
Proof.
  assert (Hcm : w_cm_enabled SampleSpan.world = true) by reflexivity.
  assert (Hp : w_provider SampleSpan.world = true) by reflexivity.
  assert (Hcur : (getCurrentSpan SampleSpan.world).1
                 = Normal (Some SampleSpan.span)) by reflexivity.
  assert (Hvalid : isSpanContextValid (spanContext SampleSpan.span) = true)
    by reflexivity.
  split; [exact Hcm|]. split; [exact Hp|]. split; [exact Hcur|].
  split; [exact Hvalid|].
  destruct (startActiveSpan_child_of_current "child" work_throws
              SampleSpan.world SampleSpan.span Hcm Hp Hcur Hvalid)
    as (child & w1 & Hs & Ht & Hi & _).
  exists child, w1. split; [exact Hs|]. split; [exact Ht|exact Hi].
Defined.

Lemma root_span_current_during_next_witness :
  w_cm_enabled world1 = true ∧
  w_provider world1 = true ∧
  enter tracer get_search world1 = (SampleRun.entered.1, SampleRun.entered.2) ∧
  getCurrentSpan SampleRun.entered.2
  = (Normal (Some SampleRun.entered.1), SampleRun.entered.2) ∧
  trace_getActiveSpan SampleRun.entered.2
  = (Normal (Some SampleRun.entered.1), SampleRun.entered.2).
Proof.
  assert (Hcm : w_cm_enabled world1 = true) by reflexivity.
  assert (Hp : w_provider world1 = true) by reflexivity.
  assert (Henter : enter tracer get_search world1
                   = (SampleRun.entered.1, SampleRun.entered.2))
    by (vm_compute; reflexivity).
  split; [exact Hcm|]. split; [exact Hp|]. split; [exact Henter|].
  destruct (root_span_current_during_next tracer get_search world1
              SampleRun.entered.1 SampleRun.entered.2 SampleSpan.attributes
              Hcm Hp Henter) as (Hcur & Hactive & _).
  split; [exact Hcur|exact Hactive].
Defined.

Lemma setAttributes_on_ended_span_witness :
  (getCurrentSpan SampleSpan.world_ended).1 = Normal (Some SampleSpan.span) ∧
  is_recording SampleSpan.span SampleSpan.world_ended = false ∧
  (setAttributes SampleSpan.attributes SampleSpan.world_ended).1 = Normal true ∧
  w_spans (setAttributes SampleSpan.attributes SampleSpan.world_ended).2
  = w_spans SampleSpan.world_ended.
Proof.
  assert (Hcur : (getCurrentSpan SampleSpan.world_ended).1
                 = Normal (Some SampleSpan.span)) by reflexivity.
  assert (Hrec : is_recording SampleSpan.span SampleSpan.world_ended = false)
    by reflexivity.
  split; [exact Hcur|]. split; [exact Hrec|].
  exact (setAttributes_on_ended_span SampleSpan.attributes
           SampleSpan.world_ended SampleSpan.span Hcur Hrec).
Defined.

Lemma no_context_manager_no_current_span_witness :
  w_cm_enabled SampleSpan.world_unmanaged = false ∧
  getCurrentSpan SampleSpan.world_unmanaged
  = (Normal None, SampleSpan.world_unmanaged) ∧
  setAttributes SampleSpan.attributes SampleSpan.world_unmanaged
  = (Normal false, SampleSpan.world_unmanaged).
Proof.
  assert (Hcm : w_cm_enabled SampleSpan.world_unmanaged = false) by reflexivity.
  split; [exact Hcm|].
  destruct (no_context_manager_no_current_span SampleSpan.attributes
              SampleSpan.world_unmanaged Hcm) as (Hcur & Hset & _).
  split; [exact Hcur|exact Hset].
Defined.



Lemma read_body_rejects_witness :
  enter tracer get_search world_used
  = ((enter tracer get_search world_used).1,
     (enter tracer get_search world_used).2) ∧
  next_ok (enter tracer get_search world_used).2
  = (Normal (Resolved ok_response), (enter tracer get_search world_used).2) ∧
  body_readable ok_response (enter tracer get_search world_used).2 = false ∧
  (middleware tracer get_search next_ok world_used).1
  = Normal (Rejected
              (JsError (w_next_obj (enter tracer get_search world_used).2)
                       body_unusable_message)).
Proof.
  set (e := enter tracer get_search world_used).
  assert (Henter : enter tracer get_search world_used = (e.1, e.2))
    by (vm_compute; reflexivity).
  assert (Hnext : next_ok e.2 = (Normal (Resolved ok_response), e.2))
    by reflexivity.
  assert (Hbody : body_readable ok_response e.2 = false)
    by (vm_compute; reflexivity).
  split; [exact Henter|]. split; [exact Hnext|]. split; [exact Hbody|].
  exact (proj1 (read_body_rejects tracer get_search next_ok world_used
                  e.1 e.2 e.2 ok_response Henter Hnext Hbody)).
Defined.

Lemma collected_attributes_sound_witness :
  collected_attributes get_search ok_response
    (measured_size ok_response world1) !! "url.path"
  = Some (AttrStr "/search") ∧
  ("url.path"
   ∈ ["http.request.method"; "url.path"; "url.full";
      "http.response.status_code"; "http.response.body.size"]
   ∨ (∃ name value,
        (name, value) ∈ req_headers get_search ∧
        String_toLowerCase name ≠ "user-agent" ∧
        "url.path" = "http.request.header." +:+ String_toLowerCase name ∧
        AttrStr "/search" = AttrStr value)
   ∨ (∃ name value,
        (name, value) ∈ resp_headers ok_response ∧
        "url.path" = "http.response.header." +:+ String_toLowerCase name ∧
        AttrStr "/search" = AttrStr value)).
Proof.
  assert (Hk : collected_attributes get_search ok_response
                 (measured_size ok_response world1) !! "url.path"
               = Some (AttrStr "/search")) by (vm_compute; reflexivity).
  split; [exact Hk|].
  exact (collected_attributes_sound get_search ok_response
           (measured_size ok_response world1) "url.path" (AttrStr "/search") Hk).
Defined.

Lemma factory_again_witness :
  opentelemetry options_default world_bare
  = (Normal (middleware (SdkTracer "@vafast/vafast")),
     (opentelemetry options_default world_bare).2) ∧
  (w_provider world_bare = true
   ∨ NodeSDK_start_provider (sdk_config options_default) = true) ∧
  ∃ w2,
    opentelemetry options_bad_manager
                  (opentelemetry options_default world_bare).2
    = (Normal (middleware
                 (SdkTracer (default "@vafast/vafast"
                                     (opt_serviceName options_bad_manager)))),
       w2) ∧
    w_provider w2 = true.
Proof.
  assert (Hfirst : opentelemetry options_default world_bare
                   = (Normal (middleware (SdkTracer "@vafast/vafast")),
                      (opentelemetry options_default world_bare).2))
    by reflexivity.
  assert (Hreg : w_provider world_bare = true
                 ∨ NodeSDK_start_provider (sdk_config options_default) = true)
    by (right; reflexivity).
  split; [exact Hfirst|]. split; [exact Hreg|].
  destruct (proj1 (factory_again options_default options_bad_manager world_bare
                     (middleware (SdkTracer "@vafast/vafast"))
                     (opentelemetry options_default world_bare).2 Hfirst) Hreg)
    as (w2 & Hsecond & Hp & _).
  exists w2. split; [exact Hsecond|exact Hp].
Defined.

Lemma factory_ignores_context_manager_witness :
  has_getContextManager = true ∧
  opentelemetry options_bad_manager world_bare
  = opentelemetry (mkOptions (opt_serviceName options_bad_manager)
                             (opt_instrumentations options_bad_manager) None
                             (opt_rest options_bad_manager)) world_bare.
Proof.
  assert (Hhas : has_getContextManager = true) by reflexivity.
  split; [exact Hhas|].
  exact (factory_ignores_context_manager options_bad_manager world_bare Hhas).
Defined.

Lemma captureSpanData_in_request_witness :
  w_cm_enabled world1 = true ∧
  w_provider world1 = true ∧
  enter tracer get_search world1 = (SampleRun.entered.1, SampleRun.entered.2) ∧
  captureSpanData (Some "test-span") [] SampleRun.entered.2
  = (Normal
       (Some {| cs_name := Some "test-span";
                cs_traceId := traceId (spanContext SampleRun.entered.1);
                cs_spanId := spanId (spanContext SampleRun.entered.1);
                cs_isRecording :=
                  should_sample
                    (valid_parent (request_context get_search world1)) |},
        [] ++ [{| cs_name := Some "test-span";
                  cs_traceId := traceId (spanContext SampleRun.entered.1);
                  cs_spanId := spanId (spanContext SampleRun.entered.1);
                  cs_isRecording :=
                    should_sample
                      (valid_parent (request_context get_search world1)) |}]),
     SampleRun.entered.2).
Proof.
  assert (Hcm : w_cm_enabled world1 = true) by reflexivity.
  assert (Hp : w_provider world1 = true) by reflexivity.
  assert (Henter : enter tracer get_search world1
                   = (SampleRun.entered.1, SampleRun.entered.2))
    by (vm_compute; reflexivity).
  split; [exact Hcm|]. split; [exact Hp|]. split; [exact Henter|].
  exact (proj1 (captureSpanData_in_request tracer get_search world1
                  SampleRun.entered.1 SampleRun.entered.2 (Some "test-span") []
                  Hcm Hp Henter)).
Defined.

Lemma handler_throw_annotates_witness :
  work_throws SampleSpan.span SampleSpan.world = (Throw boom, SampleSpan.world) ∧
  (createActiveSpanHandler work_throws SampleSpan.span SampleSpan.world).1
  = Throw boom ∧
  w_log (createActiveSpanHandler work_throws SampleSpan.span SampleSpan.world).2
  = w_log SampleSpan.world
    ++ (if is_recording SampleSpan.span SampleSpan.world
        then map (EvSpan SampleSpan.span)
               [CallSetStatus (StatusError (optional_message boom));
                CallRecordException boom; CallEnd]
        else []).
Proof.
  assert (Hfn : work_throws SampleSpan.span SampleSpan.world
                = (Throw boom, SampleSpan.world)) by reflexivity.
  split; [exact Hfn|].
  exact (handler_throw_annotates work_throws SampleSpan.span SampleSpan.world
           boom SampleSpan.world Hfn).
Defined.

Lemma middleware_touches_only_root_span_witness :
  enter tracer get_search world1 = (SampleRun.entered.1, SampleRun.entered.2) ∧
  next_ok SampleRun.entered.2
  = (Normal (Resolved ok_response), SampleRun.entered.2) ∧
  length (w_spans (middleware tracer get_search next_ok world1).2)
  = length (w_spans SampleRun.entered.2).
Proof.
  assert (Henter : enter tracer get_search world1
                   = (SampleRun.entered.1, SampleRun.entered.2))
    by (vm_compute; reflexivity).
  assert (Hnext : next_ok SampleRun.entered.2
                  = (Normal (Resolved ok_response), SampleRun.entered.2))
    by reflexivity.
  split; [exact Henter|]. split; [exact Hnext|].
  exact (proj1 (middleware_touches_only_root_span tracer get_search next_ok
                  world1 SampleRun.entered.1 SampleRun.entered.2
                  (Normal (Resolved ok_response)) SampleRun.entered.2
                  Henter Hnext)).
Defined.

Lemma root_span_continues_trace_witness :
  enter tracer get_search world1
  = (SdkSpan 0 SampleSpan.context, SampleRun.entered.2) ∧
  w_spans SampleRun.entered.2
  = w_spans world1
    ++ [mkSpanData "request" KindServer SampleSpan.context
                   (valid_parent (request_context get_search world1))
                   StatusUnset ∅ [] false].
Proof.
  assert (Henter : enter tracer get_search world1
                   = (SdkSpan 0 SampleSpan.context, SampleRun.entered.2))
    by (vm_compute; reflexivity).
  split; [exact Henter|].
  exact (proj1 (root_span_continues_trace tracer get_search world1 0
                  SampleSpan.context SampleRun.entered.2 Henter)).
Defined.

End MoreWitness.

Lemma parseNumericString_result_witness :
  @parseNumericString SampleNumber.number_api "1234567890123456"
  = Some (Some 1234567890123456%Z) ∧
  @js_isNaN SampleNumber.number_api (Some 1234567890123456%Z) = false ∧
  1 ≤ String.length "1234567890123456" ≤ 16.
Proof.
  assert (Hparse : @parseNumericString SampleNumber.number_api
                     "1234567890123456" = Some (Some 1234567890123456%Z))
    by (vm_compute; reflexivity).
  split; [exact Hparse|].
  destruct (@parseNumericString_result SampleNumber.number_api
              "1234567890123456" (Some 1234567890123456%Z) Hparse)
    as (_ & Hnan & Hlen & _).
  split; [exact Hnan|exact Hlen].
Defined.

(* ================================================================== *)
(** * The event loop: running a computation to its end *)
(* ================================================================== *)

Lemma Step_induction {A} (P : Step A → Prop) :
  (∀ c, P (Done c)) → P Never →
  (∀ job, (∀ s, P (job s).1) → P (Await job)) →
  ∀ t, P t.
Proof.
  intros HD HN HA. fix IH 1. intros [c| |job].
  - apply HD.
  - apply HN.
  - apply HA. intros s. apply IH.
Qed.

Lemma finish_graft {A B} (t : Step A) (f : Completion A → AM B) s :
  run (graft t f s)
  = match finish t s with
    | (Settled c, s') => run (f c s')
    | (Unsettled, s') => (Unsettled, s')
    end.
Proof.
  revert s. induction t as [c| |job IH] using Step_induction; intros s.
  - done.
  - done.
  - unfold run in *. simpl. specialize (IH s).
    destruct (job s) as [t' s']. simpl in IH. apply IH.
Qed.

Lemma finish_resume {A} ctx (t : Step A) s :
  finish (resume ctx t) s
  = match finish t s with
    | (Settled c, s') => (Settled c, reenter ctx s')
    | (Unsettled, s') => (Unsettled, s')
    end.
Proof.
  revert s. induction t as [c| |job IH] using Step_induction; intros s.
  - done.
  - done.
  - simpl. specialize (IH s). destruct (job s) as [t' s']. apply IH.
Qed.

Lemma resume_pending {A} ctx (t : Step A) : pending (resume ctx t) = true.
Proof. by destruct t. Qed.

Lemma graft_pending {A B} (t : Step A) (f : Completion A → AM B) s :
  pending t = true →
  pending (graft t f s).1 = true ∧
  (graft t f s).2 = s ∧
  ∀ s', finish (graft t f s).1 s'
        = match finish t s' with
          | (Settled c, s2) => run (f c s2)
          | (Unsettled, s2) => (Unsettled, s2)
          end.
Proof.
  destruct t as [c| |job]; [done|done|]. intros _. simpl.
  split; [done|]. split; [done|]. intros s'.
  destruct (job s') as [t' s''] eqn:Hj.
  apply (finish_graft t' f s'').
Qed.

Section Sequential.
Context `{Platform} `{Conversion}.

Ltac rt_simpl :=
  unfold set_world, with_active; cbn [rt_world rt_streams rt_seen fst snd].

Lemma middleware_async_traced tracer req next :
  middleware_async tracer req next
  = async_fn (
      let headers :=
        if headerHasToJSON then Headers_toJSON (req_headers req)
        else Object_fromEntries (req_headers req) in
      let! active := call (lift context_active) in
      let ctx := propagation_extract active headers in
      let! result :=
        call (tracer_startActiveSpan_s tracer "request"
          {| so_kind := KindServer; so_attributes := ∅ |} (Some ctx)
          (λ rootSpan, async_fn (
             let! pending :=
               call (context_with_s (trace_setSpan ctx rootSpan)
                       (async_fn (traced rootSpan req next))) in
             let! response := await_a pending in
             ret_a response))) in
      await_a result).
Proof. reflexivity. Qed.

(** The catch block always completes in the job that runs it. *)
Lemma fail_done sp e s : ∃ c s', fail sp e s = (Done c, s').
Proof.
  unfold fail, bind_a, call, lift, String_s, ret_a, throw_a, when.
  destruct (instanceof_Error e); simpl; [eauto|].
  destruct (String_outcome e); simpl; eauto.
Qed.

Lemma conclude_throw_done sp req e s :
  ∃ c s', conclude sp req (Throw e) s = (Done c, s').
Proof.
  unfold conclude, try_finally_a, try_catch_a, throw_a. simpl.
  destruct (fail_done sp e s) as (c & s' & ->). simpl.
  destruct (finalize sp req s') as [[[]|e'] s'']; eauto.
Qed.

Lemma traced_throw sp req next s e s1 :
  next s = (Throw e, s1) →
  traced sp req next s = conclude sp req (Throw e) s1.
Proof.
  intros Hn. unfold traced, conclude, try_finally_a, try_catch_a, bind_a, call.
  rewrite Hn. reflexivity.
Qed.

Lemma run_graft_graft {A B C} (m : AM A) (f : Completion A → AM B)
    (g : Completion B → AM C) s :
  run (let (t, s') := (let (t, s') := m s in graft t f s') in graft t g s')
  = match run (m s) with
    | (Settled c, x) =>
        match run (f c x) with
        | (Settled c2, y) => run (g c2 y)
        | (Unsettled, y) => (Unsettled, y)
        end
    | (Unsettled, x) => (Unsettled, x)
    end.
Proof.
  destruct (m s) as [t x]. 
  pose proof (finish_graft t f x) as Hf.
  destruct (graft t f x) as [t2 y].
  rewrite (finish_graft t2 g y). unfold run in *. rewrite Hf.
  by destruct (finish t x) as [[c|] x'].
Qed.

Lemma traced_promise sp req next s p s1 :
  next s = (Normal p, s1) →
  (traced sp req next s).2 = s1 ∧
  pending (traced sp req next s).1 = true ∧
  ∀ s', finish (traced sp req next s).1 s'
        = match finish p s' with
          | (Settled c, s2) =>
              run (conclude sp req c (reenter (w_active (rt_world s1)) s2))
          | (Unsettled, s2) => (Unsettled, s2)
          end.
Proof.
  intros Hn.
  cut (∃ T, traced sp req next s = (T, s1) ∧ pending T = true ∧
        ∀ s', finish T s'
        = match finish p s' with
          | (Settled c, s2) =>
              run (conclude sp req c (reenter (w_active (rt_world s1)) s2))
          | (Unsettled, s2) => (Unsettled, s2)
          end).
  { by intros (T & -> & ? & ?). }
  unfold traced, conclude, try_finally_a, try_catch_a, bind_a at 1, call.
  rewrite Hn. cbn [graft]. unfold bind_a at 1, await_a.
  set (R := resume (w_active (rt_world s1)) p).
  assert (HR : pending R = true) by apply resume_pending.
  match goal with |- context [graft R ?f s1] => set (f1 := f) end.
  destruct (graft_pending R f1 s1 HR) as (Hp1 & Hs1 & Hf1).
  destruct (graft R f1 s1) as [T1 x1]. cbn [fst snd] in Hp1, Hs1, Hf1. subst x1.
  match goal with |- context [graft T1 ?f s1] => set (f2 := f) end.
  destruct (graft_pending T1 f2 s1 Hp1) as (Hp2 & Hs2 & Hf2).
  destruct (graft T1 f2 s1) as [T2 x2]. cbn [fst snd] in Hp2, Hs2, Hf2. subst x2.
  match goal with |- context [graft T2 ?f s1] => set (f3 := f) end.
  destruct (graft_pending T2 f3 s1 Hp2) as (Hp3 & Hs3 & Hf3).
  destruct (graft T2 f3 s1) as [T3 x3]. cbn [fst snd] in Hp3, Hs3, Hf3. subst x3.
  exists T3. split; [done|]. split; [exact Hp3|]. intros s'.
  rewrite Hf3, Hf2, Hf1. unfold R. rewrite finish_resume.
  destruct (finish p s') as [[c|] s2]; [|done].
  change (match c with
          | Normal response => succeed sp req response
          | Throw e => throw_a e
          end) with (f1 c).
  rewrite (run_graft_graft (f1 c) f2 f3).
  by destruct (run (f1 c (reenter (w_active (rt_world s1)) s2))) as [[c1|] x].
Qed.

Lemma fail_run sp req e s :
  run (try_finally_a (fail sp e) (finalize sp req) s)
  = (Settled (Throw (rejection req e).1),
     set_world (do_calls sp (rejection req e).2 (rt_world s)) s).
Proof.
  unfold try_finally_a, fail, rejection, status_message, bind_a, call, lift,
    String_s, ret_a, throw_a, when, finalize, run.
  destruct (instanceof_Error e); simpl.
  - by destruct s.
  - destruct (String_outcome e); simpl; by destruct s.
Qed.

Lemma set_active_same w : set_active (w_active w) w = w.
Proof. by destruct w. Qed.

Lemma reenter_same s : reenter (w_active (rt_world s)) s = s.
Proof.
  unfold reenter. destruct (w_cm_enabled (rt_world s)); [|done].
  unfold set_world. rewrite set_active_same. by destruct s.
Qed.

Lemma stream_of_do_call sp c w st seen b :
  stream_of (mkRuntime (do_call sp c w) st seen) b = stream_of (mkRuntime w st seen) b.
Proof. reflexivity. Qed.

Lemma reading_do_call sp c response w st seen :
  reading response (mkRuntime (do_call sp c w) st seen)
  = reading response (mkRuntime w st seen).
Proof. unfold reading. rt_simpl. by rewrite w_bodies_do_call. Qed.

(** [clone()] on a body that cannot be used. *)
Lemma clone_s_unusable response s :
  reading response s = Unusable →
  Response_clone_s response s
  = (Throw (clone_error (rt_world s)),
     set_world (set_next_obj (Datatypes.S (w_next_obj (rt_world s))) (rt_world s)) s).
Proof.
  unfold reading, Response_clone_s, lift, Response_clone, bind, new_TypeError,
    throw, clone_error.
  destruct (resp_body response) as [b|]; [|done].
  destruct (w_bodies (rt_world s) !! b) as [[text []]|];
    destruct (stream_of s b); done.
Qed.

(** [clone()] on a body that can be used: the clone has a new body over
    the same text, which ends as the body of the response does. *)
Lemma clone_s_usable response s b text :
  resp_body response = Some b →
  w_bodies (rt_world s) !! b = Some (mkBody text false) →
  stream_of s b ≠ StreamLocked →
  ∃ st,
    Response_clone_s response s
    = (Normal (mkResponse (w_next_obj (rt_world s)) (resp_status response)
                          (resp_headers response)
                          (Some (length (w_bodies (rt_world s))))),
       mkRuntime
         (set_next_obj (Datatypes.S (w_next_obj (rt_world s)))
            (set_bodies (λ l, l ++ [mkBody text false]) (rt_world s)))
         st (rt_seen s)) ∧
    default StreamCloses (st !! length (w_bodies (rt_world s))) = stream_of s b ∧
    ∀ b', b' ≠ length (w_bodies (rt_world s)) → st !! b' = rt_streams s !! b'.
Proof.
  intros Hb Hl Hlock.
  unfold Response_clone_s, lift, Response_clone. rewrite Hb, Hl.
  unfold stream_of in *.
  destruct (rt_streams s !! b) as [fate|] eqn:Hf; simpl in *.
  - eexists. split; [by destruct fate|]. split; [by rewrite lookup_insert_eq|].
    intros b' Hb'. by rewrite lookup_insert_ne.
  - eexists. split; [done|]. split; [by rewrite lookup_delete_eq|].
    intros b' Hb'. by rewrite lookup_delete_ne.
Qed.

(** [text()] on the body of a clone that has just been made. *)
Lemma text_s_fresh id status headers w text st seen :
  Response_text_s (mkResponse id status headers (Some (length (w_bodies w))))
    (mkRuntime (set_next_obj (Datatypes.S (w_next_obj w))
                  (set_bodies (λ l, l ++ [mkBody text false]) w)) st seen)
  = (Normal (match default StreamCloses (st !! length (w_bodies w)) with
             | StreamCloses => Done (Normal text)
             | StreamErrors e => Done (Throw e)
             | StreamNeverCloses => Never
             | StreamLocked =>
                 Done (Throw (JsError (Datatypes.S (w_next_obj w))
                                      text_unusable_message))
             end),
     match default StreamCloses (st !! length (w_bodies w)) with
     | StreamLocked =>
         mkRuntime (set_next_obj (Datatypes.S (Datatypes.S (w_next_obj w)))
                      (set_bodies (λ l, l ++ [mkBody text false]) w)) st seen
     | _ =>
         mkRuntime (set_next_obj (Datatypes.S (w_next_obj w))
                      (set_bodies (λ l, l ++ [mkBody text true]) w)) st seen
     end).
Proof.
  unfold Response_text_s, stream_of. rt_simpl. cbn [resp_body].
  cbn [w_bodies set_next_obj set_bodies].
  rewrite lookup_app_r by done. rewrite Nat.sub_diag. cbn [lookup list_lookup].
  assert (Hins : <[length (w_bodies w) := mkBody text true]>
                   (w_bodies w ++ [mkBody text false])
                 = w_bodies w ++ [mkBody text true]).
  { rewrite insert_app_r_alt by done. by rewrite Nat.sub_diag. }
  destruct (default StreamCloses (st !! length (w_bodies w)));
    unfold set_bodies, set_next_obj, bind_s, lift, new_TypeError, ret_s;
    rt_simpl; cbn [w_bodies w_spans w_active w_cm_enabled w_provider w_next_id
                   w_next_obj w_log]; by rewrite ?Hins.
Qed.

Lemma bind_a_call {A B} (m : Sync A) (f : A → AM B) s :
  bind_a (call m) f s
  = match m s with
    | (Normal a, s') => f a s'
    | (Throw e, s') => (Done (Throw e), s')
    end.
Proof. unfold bind_a, call. by destruct (m s) as [[a|e] s']. Qed.

Lemma run_bind {A B} (m : AM A) (f : A → AM B) s :
  run (bind_a m f s)
  = match run (m s) with
    | (Settled (Normal a), s') => run (f a s')
    | (Settled (Throw e), s') => (Settled (Throw e), s')
    | (Unsettled, s') => (Unsettled, s')
    end.
Proof.
  unfold bind_a. destruct (m s) as [t s'].
  rewrite finish_graft. unfold run.
  by destruct (finish t s') as [[[a|e]|] x].
Qed.

Lemma run_await {A} (t : Step A) s :
  run (await_a t s)
  = match finish t s with
    | (Settled c, s') => (Settled c, reenter (w_active (rt_world s)) s')
    | (Unsettled, s') => (Unsettled, s')
    end.
Proof. unfold run, await_a. apply finish_resume. Qed.

Lemma run_try {A} (m : AM A) (h : JsValue → AM A) (fin : Sync unit) s :
  run (try_finally_a (try_catch_a m h) fin s)
  = match run (m s) with
    | (Settled (Normal a), x) =>
        match fin x with
        | (Normal _, y) => (Settled (Normal a), y)
        | (Throw e, y) => (Settled (Throw e), y)
        end
    | (Settled (Throw e), x) => run (try_finally_a (h e) fin x)
    | (Unsettled, x) => (Unsettled, x)
    end.
Proof.
  unfold try_finally_a, try_catch_a.
  rewrite run_graft_graft.
  destruct (run (m s)) as [[[a|e]|] x]; [| |done].
  - unfold ret_a, run. cbn [finish]. by destruct (fin x) as [[[]|e] y].
  - destruct (h e x) as [t y]. by rewrite finish_graft.
Qed.

(** Cloning a response whose body can be used, and reading the clone. *)
Lemma measure_usable {A} (f : string → A) response s b text :
  resp_body response = Some b →
  w_bodies (rt_world s) !! b = Some (mkBody text false) →
  stream_of s b ≠ StreamLocked →
  ∃ st,
    run ((let! clonedResponse := call (Response_clone_s response) in
          let! pending := call (Response_text_s clonedResponse) in
          let! text := await_a pending in
          ret_a (f text)) s)
    = (match stream_of s b with
       | StreamCloses => Settled (Normal (f text))
       | StreamErrors e => Settled (Throw e)
       | _ => Unsettled
       end,
       mkRuntime (after_clone response (rt_world s)) st (rt_seen s)) ∧
    ∀ b', b' ≠ length (w_bodies (rt_world s)) → st !! b' = rt_streams s !! b'.
Proof.
  intros Hb Hl Hlock.
  destruct (clone_s_usable response s b text Hb Hl Hlock)
    as (st & Hc & Hst & Hkeep).
  exists st. split; [|done].
  rewrite bind_a_call, Hc, bind_a_call, text_s_fresh, Hst.
  unfold after_clone. rewrite Hb, Hl. cbn [body_text].
  destruct (stream_of s b) as [|e| |]; [| | |done].
  - rewrite run_bind, run_await. cbn [finish].
    rewrite reenter_same. done.
  - rewrite run_bind, run_await. cbn [finish].
    rewrite reenter_same. done.
  - rewrite run_bind, run_await. cbn [finish]. done.
Qed.

Lemma reading_usable response s :
  match reading response s with
  | NoBody => resp_body response = None
  | Unusable => is_Some (resp_body response)
  | Reads text =>
      ∃ b, resp_body response = Some b ∧
           w_bodies (rt_world s) !! b = Some (mkBody text false) ∧
           stream_of s b = StreamCloses
  | ReadFails e =>
      ∃ b text, resp_body response = Some b ∧
                w_bodies (rt_world s) !! b = Some (mkBody text false) ∧
                stream_of s b = StreamErrors e
  | ReadHangs =>
      ∃ b text, resp_body response = Some b ∧
                w_bodies (rt_world s) !! b = Some (mkBody text false) ∧
                stream_of s b = StreamNeverCloses
  end.
Proof.
  unfold reading. destruct (resp_body response) as [b|]; [|done].
  destruct (w_bodies (rt_world s) !! b) as [[text []]|] eqn:Hl;
    [by eexists| |by eexists].
  destruct (stream_of s b) eqn:Hs;
    [by exists b|by exists b, text|by exists b, text|by eexists].
Qed.

(** The [try] block from the point where [next] has produced [response]. *)
Lemma succeed_run sp req response s :
  ∃ st,
    (∀ b', b' ≠ length (w_bodies (rt_world s)) → st !! b' = rt_streams s !! b') ∧
    run (succeed sp req response s)
    = match reading response s with
      | NoBody =>
          (Settled (Normal response),
           mkRuntime
             (do_calls sp [CallSetStatus StatusOk;
                           CallSetAttributes
                             (collected_attributes req response None)]
                       (rt_world s)) st (rt_seen s))
      | Reads text =>
          (Settled (Normal response),
           mkRuntime
             (do_calls sp [CallSetStatus StatusOk;
                           CallSetAttributes
                             (collected_attributes req response
                                (Some (String.length text)))]
                       (after_clone response (rt_world s))) st (rt_seen s))
      | Unusable =>
          (Settled (Throw (clone_error (rt_world s))),
           mkRuntime
             (do_call sp (CallSetStatus StatusOk)
                (set_next_obj (Datatypes.S (w_next_obj (rt_world s))) (rt_world s)))
             st (rt_seen s))
      | ReadFails e =>
          (Settled (Throw e),
           mkRuntime
             (do_call sp (CallSetStatus StatusOk)
                (after_clone response (rt_world s))) st (rt_seen s))
      | ReadHangs =>
          (Unsettled,
           mkRuntime
             (do_call sp (CallSetStatus StatusOk)
                (after_clone response (rt_world s))) st (rt_seen s))
      end.
Proof.
  destruct s as [w st seen]. unfold succeed.
  rewrite bind_a_call.
  unfold lift at 1, span_setStatus, span_call, modify. rt_simpl.
  rewrite run_bind.
  set (s1 := mkRuntime (do_call sp (CallSetStatus StatusOk) w) st seen).
  pose proof (reading_do_call sp (CallSetStatus StatusOk) response w st seen)
    as Hread. fold s1 in Hread.
  pose proof (reading_usable response s1) as Hu. rewrite Hread in Hu.
  destruct (reading response (mkRuntime w st seen)) as [| |text|e|] eqn:Hr.
  - rewrite Hu. exists st. split; [done|]. unfold ret_a, run. cbn [finish].
    rewrite bind_a_call. unfold lift, span_setAttributes, span_call, modify.
    by rt_simpl.
  - destruct Hu as [b Hb]. rewrite Hb, bind_a_call.
    rewrite (clone_s_unusable response s1) by done.
    exists st. split; [done|]. unfold run. cbn [finish]. unfold s1. rt_simpl.
    unfold clone_error. rewrite w_next_obj_do_call.
    by rewrite set_next_obj_do_call.
  - destruct Hu as (b & Hb & Hl & Hs). rewrite Hb.
    destruct (measure_usable
                (λ text, <["http.response.body.size"
                           := AttrNum (Z.of_nat (String.length text))]>
                           (basic_attributes req response))
                response s1 b text Hb Hl) as (st' & -> & Hkeep);
      [by rewrite Hs|].
    rewrite Hs. exists st'.
    split; [intros b' Hb'; apply Hkeep; unfold s1; rt_simpl;
            by rewrite w_bodies_do_call|].
    rewrite bind_a_call.
    unfold lift, span_setAttributes, span_call, modify, ret_a, run.
    rt_simpl. cbn [finish]. unfold s1. rt_simpl.
    by rewrite after_clone_do_call.
  - destruct Hu as (b & text & Hb & Hl & Hs). rewrite Hb.
    destruct (measure_usable
                (λ text, <["http.response.body.size"
                           := AttrNum (Z.of_nat (String.length text))]>
                           (basic_attributes req response))
                response s1 b text Hb Hl) as (st' & -> & Hkeep);
      [by rewrite Hs|].
    rewrite Hs. exists st'.
    split; [intros b' Hb'; apply Hkeep; unfold s1; rt_simpl;
            by rewrite w_bodies_do_call|].
    unfold s1. rt_simpl.
    by rewrite after_clone_do_call.
  - destruct Hu as (b & text & Hb & Hl & Hs). rewrite Hb.
    destruct (measure_usable
                (λ text, <["http.response.body.size"
                           := AttrNum (Z.of_nat (String.length text))]>
                           (basic_attributes req response))
                response s1 b text Hb Hl) as (st' & -> & Hkeep);
      [by rewrite Hs|].
    rewrite Hs. exists st'.
    split; [intros b' Hb'; apply Hkeep; unfold s1; rt_simpl;
            by rewrite w_bodies_do_call|].
    unfold s1. rt_simpl.
    by rewrite after_clone_do_call.
Qed.

Lemma finalize_run sp req s :
  finalize sp req s = (Normal tt, set_world (do_calls sp (final_calls req) (rt_world s)) s).
Proof. reflexivity. Qed.

(** The middleware from the point where [await next()] has completed. *)
Lemma conclude_run sp req c s :
  ∃ st,
    (∀ b', b' ≠ length (w_bodies (rt_world s)) → st !! b' = rt_streams s !! b') ∧
    run (conclude sp req c s)
    = ((concluded req c s).1.1,
       mkRuntime (do_calls sp (concluded req c s).1.2 (concluded req c s).2)
                 st (rt_seen s)).
Proof.
  unfold conclude, concluded. rewrite run_try.
  destruct c as [response|e].
  - destruct (succeed_run sp req response s) as (st & Hkeep & ->).
    destruct (reading response s) as [| |text|e|]; cbn [fst snd].
    + exists st. split; [done|].
      rewrite finalize_run. rt_simpl. by rewrite do_calls_app.
    + exists st. split; [done|]. rewrite fail_run. rt_simpl.
      destruct (rejection req (clone_error (rt_world s))) as [thrown calls].
      cbn [fst snd].
      change (CallSetStatus StatusOk :: calls)
        with ([CallSetStatus StatusOk] ++ calls).
      by rewrite do_calls_app.
    + exists st. split; [done|].
      rewrite finalize_run. rt_simpl. by rewrite do_calls_app.
    + exists st. split; [done|]. rewrite fail_run. rt_simpl.
      destruct (rejection req e) as [thrown calls]. cbn [fst snd].
      change (CallSetStatus StatusOk :: calls)
        with ([CallSetStatus StatusOk] ++ calls).
      by rewrite do_calls_app.
    + by exists st.
  - unfold throw_a at 1. unfold run at 1. cbn [finish].
    rewrite fail_run. exists (rt_streams s). split; [done|].
    by destruct (rejection req e) as [thrown calls].
Qed.

Lemma await_ret {A} (t : Step A) s :
  ∃ T, (let! x := await_a t in ret_a x) s = (T, s) ∧ pending T = true ∧
       ∀ s', finish T s'
             = match finish t s' with
               | (Settled c, s2) =>
                   (Settled c, reenter (w_active (rt_world s)) s2)
               | (Unsettled, s2) => (Unsettled, s2)
               end.
Proof.
  unfold bind_a, await_a.
  set (R := resume (w_active (rt_world s)) t).
  assert (HR : pending R = true) by apply resume_pending.
  match goal with |- context [graft R ?f s] => set (f1 := f) end.
  destruct (graft_pending R f1 s HR) as (Hp1 & Hs1 & Hf1).
  destruct (graft R f1 s) as [T1 x1]. cbn [fst snd] in Hp1, Hs1, Hf1. subst x1.
  exists T1. split; [done|]. split; [done|]. intros s'.
  rewrite Hf1. unfold R. rewrite finish_resume.
  destruct (finish t s') as [[[a|e]|] s2]; done.
Qed.

Lemma same_but_active_refl s : same_but_active s s.
Proof. exists (w_active (rt_world s)). by destruct s as [[] ? ?]. Qed.

Lemma same_but_active_with_active ctx s : same_but_active s (with_active ctx s).
Proof. by exists ctx. Qed.

Lemma same_but_active_trans s1 s2 s3 :
  same_but_active s1 s2 → same_but_active s2 s3 → same_but_active s1 s3.
Proof. intros [c1 ->] [c2 ->]. by exists c2. Qed.

Lemma same_but_active_reenter ctx s : same_but_active s (reenter ctx s).
Proof.
  unfold reenter. destruct (w_cm_enabled (rt_world s)).
  - apply same_but_active_with_active.
  - apply same_but_active_refl.
Qed.

Lemma run_alone_expected tracer req next s :
  ∃ o x final,
    run_alone tracer req next s = (o, final) ∧
    expected tracer req next s = (o, x) ∧
    same_but_active x final.
Proof.
  unfold run_alone, expected, after_next. rewrite middleware_async_traced.
  destruct s as [w st seen].
  unfold async_fn at 1. unfold bind_a at 1. unfold call at 1. unfold lift at 1.
  unfold context_active. rt_simpl. cbn [graft].
  unfold bind_a at 1. unfold call at 1. unfold tracer_startActiveSpan_s.
  unfold bind_s, lift, context_active, tracer_startSpan.
  rt_simpl. cbn [graft default].
  unfold enter, request_context, active_context, request_headers, Headers_toJSON.
  set (ctx := propagation_extract _ _).
  change (id ctx) with ctx.
  destruct (start_span tracer "request" _ ctx w) as [sp w'] eqn:Hs.
  destruct (start_span_frame _ _ _ _ _ _ _ Hs) as (Hcm & Hact & _).
  rt_simpl. unfold awaiting. rt_simpl.
  unfold context_with_s at 1. rt_simpl. rewrite Hcm.
  destruct (w_cm_enabled w) eqn:Hen.
  - unfold async_fn at 1. unfold bind_a at 1. unfold call at 1.
    unfold context_with_s at 1. rt_simpl.
    change (w_cm_enabled (set_active ?c ?x)) with (w_cm_enabled x).
    rewrite Hcm. rt_simpl.
    change (w_active (set_active ?c ?x)) with c.
    change (set_active ?c (set_active ?d ?x)) with (set_active c x).
    unfold async_fn at 1.
    set (X := {| rt_world := set_active (trace_setSpan ctx sp) w';
                 rt_streams := st; rt_seen := seen |}).
    destruct (next X) as [[p|e] s1] eqn:Hn.
    + destruct (traced_promise sp req next X p s1 Hn) as (Hst & Hpend & Hfin).
      destruct (traced sp req next X) as [T x]. cbn [fst snd] in *. subst x.
      cbn [graft].
      destruct (await_ret T {| rt_world := set_active (trace_setSpan ctx sp)
                                              (rt_world s1);
                               rt_streams := rt_streams s1;
                               rt_seen := rt_seen s1 |})
        as (T2 & -> & Hp2 & Hf2).
      rt_simpl. cbn [graft]. unfold await_a. rt_simpl.
      change (set_active ?c (set_active ?d ?x)) with (set_active c x).
      change (w_active (set_active ?c ?x)) with c in *.
      rewrite finish_resume, Hf2, Hfin, Hact.
      destruct (finish p _) as [[c|] s2]; [|by eexists _, _, _; split_and!;
                                              [..|apply same_but_active_refl]].
      destruct (run (conclude sp req c (reenter (w_active (rt_world s1)) s2)))
        as [[c'|] s3].
      * eexists _, _, _. split_and!; [done..|].
        eapply same_but_active_trans; apply same_but_active_reenter.
      * eexists _, _, _. split_and!; [done..|]. apply same_but_active_refl.
    + rewrite (traced_throw sp req next X e s1 Hn).
      destruct (conclude_throw_done sp req e s1) as (c' & s1' & Hc).
      rewrite Hc. cbn [graft]. 
      destruct (await_ret (Done c')
                  {| rt_world := set_active (trace_setSpan ctx sp)
                                            (rt_world s1');
                     rt_streams := rt_streams s1';
                     rt_seen := rt_seen s1' |})
        as (T2 & -> & Hp2 & Hf2).
      rt_simpl. cbn [graft]. unfold await_a. rt_simpl.
      rewrite finish_resume, Hf2. cbn [finish]. unfold run. cbn [finish].
      eexists _, _, _. split_and!; [done..|].
      eapply same_but_active_trans; [|apply same_but_active_reenter].
      eapply same_but_active_trans; [|apply same_but_active_reenter].
      by eexists.
  - unfold async_fn at 1. unfold bind_a at 1. unfold call at 1.
    unfold context_with_s at 1. rt_simpl. rewrite Hcm.
    unfold async_fn at 1.
    set (X := {| rt_world := w'; rt_streams := st; rt_seen := seen |}).
    destruct (next X) as [[p|e] s1] eqn:Hn.
    + destruct (traced_promise sp req next X p s1 Hn) as (Hst & Hpend & Hfin).
      destruct (traced sp req next X) as [T x]. cbn [fst snd] in *. subst x.
      cbn [graft].
      destruct (await_ret T s1) as (T2 & -> & Hp2 & Hf2).
      cbn [graft]. unfold await_a.
      rewrite finish_resume, Hf2, Hfin.
      destruct (finish p _) as [[c|] s2]; [|by eexists _, _, _; split_and!;
                                              [..|apply same_but_active_refl]].
      destruct (run (conclude sp req c (reenter (w_active (rt_world s1)) s2)))
        as [[c'|] s3].
      * eexists _, _, _. split_and!; [done..|].
        eapply same_but_active_trans; apply same_but_active_reenter.
      * eexists _, _, _. split_and!; [done..|]. apply same_but_active_refl.
    + rewrite (traced_throw sp req next X e s1 Hn).
      destruct (conclude_throw_done sp req e s1) as (c' & s1' & Hc).
      rewrite Hc. cbn [graft].
      destruct (await_ret (Done c') s1') as (T2 & -> & Hp2 & Hf2).
      cbn [graft]. unfold await_a.
      rewrite finish_resume, Hf2. cbn [finish]. unfold run. cbn [finish].
      eexists _, _, _. split_and!; [done..|].
      eapply same_but_active_trans; apply same_but_active_reenter.
Qed.

Lemma run_alone_summary tracer req next s :
  (run_alone tracer req next s).1 = (expected tracer req next s).1 ∧
  same_but_active (expected tracer req next s).2 (run_alone tracer req next s).2.
Proof.
  by destruct (run_alone_expected tracer req next s)
    as (o & x & final & -> & -> & ?).
Qed.

End Sequential.

(* ================================================================== *)
(** * The middleware run alone: settlement, failures and the response *)
(* ================================================================== *)

Section Settlement.
Context `{Platform} `{Conversion}.

(** One invocation run alone, from the way the call of [next] ends. *)
Lemma run_alone_after_next tracer req next s rootSpan w0 :
  enter tracer req (rt_world s) = (rootSpan, w0) →
  match after_next tracer req next s with
  | (Settled c, s2) =>
      ∃ ctx st,
        run_alone tracer req next s
        = ((concluded req c s2).1.1,
           mkRuntime
             (set_active ctx
                (do_calls rootSpan (concluded req c s2).1.2
                          (concluded req c s2).2))
             st (rt_seen s2)) ∧
        ∀ b, b ≠ length (w_bodies (rt_world s2)) → st !! b = rt_streams s2 !! b
  | (Unsettled, s2) =>
      ∃ ctx, run_alone tracer req next s = (Unsettled, with_active ctx s2)
  end.
Proof.
  intros He.
  destruct (run_alone_expected tracer req next s)
    as (o & x & final & Hrun & Hexp & [ctx ->]).
  unfold expected in Hexp. rewrite He in Hexp. cbn [fst] in Hexp.
  destruct (after_next tracer req next s) as [[c|] s2].
  - destruct (conclude_run rootSpan req c s2) as (st & Hkeep & Hc).
    rewrite Hc in Hexp. injection Hexp as <- <-.
    exists ctx, st. split; [|done]. by rewrite Hrun.
  - injection Hexp as <- <-. by exists ctx.
Qed.

Lemma count_final_calls req :
  count is_end (final_calls req) = 1.
Proof. reflexivity. Qed.

Lemma rejection_calls req e :
  ∃ before, (rejection req e).2 = before ++ final_calls req ∧
            count is_end before = 0 ∧ count is_updateName before = 0 ∧
            count is_setAttributes before = 0.
Proof.
  unfold rejection. destruct (status_message e).
  - eexists (_ :: _). split; [done|]. by destruct (instanceof_Error e).
  - by exists [].
Qed.

(** The calls of a settled invocation end with the [finally] block. *)
Lemma concluded_calls req c s :
  match (concluded req c s).1.1 with
  | Settled _ =>
      ∃ before, (concluded req c s).1.2 = before ++ final_calls req ∧
                count is_end before = 0 ∧ count is_updateName before = 0
  | Unsettled =>
      (concluded req c s).1.2 = [CallSetStatus StatusOk] ∧
      ∃ response, c = Normal response ∧ reading response s = ReadHangs
  end.
Proof.
  unfold concluded. destruct c as [response|e].
  - destruct (reading response s) as [| |text|e|] eqn:Hr.
    + by eexists [_; _].
    + destruct (rejection_calls req (clone_error (rt_world s)))
        as (before & Hc & He & Hu & _).
      destruct (rejection req _) as [thrown calls]. simpl in *. subst calls.
      exists (CallSetStatus StatusOk :: before). split; [done|].
      unfold count in *. simpl. by rewrite He, Hu.
    + by eexists [_; _].
    + destruct (rejection_calls req e) as (before & Hc & He & Hu & _).
      destruct (rejection req _) as [thrown calls]. simpl in *. subst calls.
      exists (CallSetStatus StatusOk :: before). split; [done|].
      unfold count in *. simpl. by rewrite He, Hu.
    + simpl. split; [done|]. by exists response.
  - destruct (rejection_calls req e) as (before & Hc & He & Hu & _).
    destruct (rejection req _) as [thrown calls]. simpl in *. subst calls.
    by exists before.
Qed.

Lemma w_log_after_clone response w :
  w_log (after_clone response w) = w_log w.
Proof.
  unfold after_clone. destruct (resp_body response); [|done].
  by destruct (w_bodies w !! _).
Qed.

Lemma concluded_log req c s :
  w_log (concluded req c s).2 = w_log (rt_world s).
Proof.
  unfold concluded. destruct c as [response|e]; [|by destruct (rejection _ _)].
  destruct (reading response s); try destruct (rejection _ _);
    cbn [fst snd]; by rewrite ?w_log_after_clone.
Qed.

(** C1 (amended).  An invocation of the middleware starts exactly one
    span, before [next] is called.  When the call of [next] ends ([next]
    throws, or the promise it returns settles) and the body of the
    response, if it is read, does not stay open for ever, the promise of
    the middleware settles and the span is ended exactly once: the calls
    made after [next] are calls on that span, [end] occurs once among
    them, and the finalization (rename, then end) comes last and once. *)
Theorem one_span_started_and_ended_when_settled
    tracer req next s rootSpan w0 c s2 :
  enter tracer req (rt_world s) = (rootSpan, w0) →
  after_next tracer req next s = (Settled c, s2) →
  (∀ response, c = Normal response → reading response s2 ≠ ReadHangs) →
  ∃ result calls before,
    (run_alone tracer req next s).1 = Settled result ∧
    w_log w0
    = w_log (rt_world s)
      ++ [EvStartSpan rootSpan "request" KindServer
                      (request_context req (rt_world s))] ∧
    w_log (rt_world (run_alone tracer req next s).2)
    = w_log (rt_world s2) ++ map (EvSpan rootSpan) calls ∧
    (let own := EvStartSpan rootSpan "request" KindServer
                            (request_context req (rt_world s))
                :: map (EvSpan rootSpan) calls in
     count is_start own = 1 ∧ count is_end_event own = 1) ∧
    calls = before ++ [CallUpdateName (final_name req); CallEnd] ∧
    count is_end before = 0 ∧ count is_updateName before = 0.
Proof.
  intros He Hn Hread.
  pose proof (run_alone_after_next tracer req next s rootSpan w0 He) as Hrun.
  rewrite Hn in Hrun. destruct Hrun as (ctx & st & Hrun & _).
  pose proof (concluded_calls req c s2) as Hcalls.
  destruct ((concluded req c s2).1.1) as [result|] eqn:Ho.
  2:{ destruct Hcalls as (_ & response & -> & Hr). by destruct (Hread response). }
  destruct Hcalls as (before & Hc & He0 & Hu0).
  exists result, ((concluded req c s2).1.2), before.
  rewrite Hrun. cbn [fst snd rt_world].
  split; [done|]. split; [by apply (enter_log tracer)|].
  split.
  { change (w_log (set_active ?c ?x)) with (w_log x).
    by rewrite w_log_do_calls, concluded_log. }
  split; [|done].
  cbv zeta.
  change (EvStartSpan ?a ?b ?c ?d :: ?l) with ([EvStartSpan a b c d] ++ l).
  rewrite !count_app, count_map_EvSpan_start, count_map_EvSpan_end.
  split; [done|]. rewrite Hc, count_app, He0. done.
Qed.

(** While the promise of [next] stays pending, the promise of the
    middleware stays pending and the middleware makes no call: the span
    it started is not ended. *)
Lemma pending_next_never_ends tracer req next s s2 :
  after_next tracer req next s = (Unsettled, s2) →
  (run_alone tracer req next s).1 = Unsettled ∧
  w_log (rt_world (run_alone tracer req next s).2) = w_log (rt_world s2) ∧
  w_spans (rt_world (run_alone tracer req next s).2) = w_spans (rt_world s2).
Proof.
  intros Hn.
  destruct (enter tracer req (rt_world s)) as [rootSpan w0] eqn:He.
  pose proof (run_alone_after_next tracer req next s rootSpan w0 He) as Hrun.
  rewrite Hn in Hrun. destruct Hrun as [ctx ->]. done.
Qed.

(** C4 (amended).  When the call of [next] ends with a thrown value or
    a rejection [e], and [e] is an [Error] instance or [String(e)]
    returns a string, the middleware calls [setStatus] on its span with
    code Error and the message [e.message], respectively [String(e)],
    calls [recordException(e)] exactly when [e] is an [Error] instance,
    renames and ends the span, makes no other call, and its promise
    rejects with [e] itself. *)
Theorem failure_annotated_and_rethrown_when_printable
    tracer req next s rootSpan w0 e s2 message :
  enter tracer req (rt_world s) = (rootSpan, w0) →
  after_next tracer req next s = (Settled (Throw e), s2) →
  status_message e = Normal message →
  (run_alone tracer req next s).1 = Settled (Throw e) ∧
  (instanceof_Error e = true → message = Error_message e) ∧
  (instanceof_Error e = false → String_outcome e = Normal message) ∧
  w_log (rt_world (run_alone tracer req next s).2)
  = w_log (rt_world s2)
    ++ map (EvSpan rootSpan)
         (CallSetStatus (StatusError (Some message))
          :: (if instanceof_Error e then [CallRecordException e] else [])
          ++ [CallUpdateName (final_name req); CallEnd]) ∧
  w_bodies (rt_world (run_alone tracer req next s).2) = w_bodies (rt_world s2).
Proof.
  intros He Hn Hm.
  pose proof (run_alone_after_next tracer req next s rootSpan w0 He) as Hrun.
  rewrite Hn in Hrun. destruct Hrun as (ctx & st & Hrun & _).
  rewrite Hrun. cbn [fst snd rt_world].
  change (w_log (set_active ?c ?x)) with (w_log x).
  change (w_bodies (set_active ?c ?x)) with (w_bodies x).
  rewrite w_log_do_calls, w_bodies_do_calls.
  unfold concluded, rejection. rewrite Hm. cbn [fst snd].
  split; [done|]. split.
  { intros Hi. unfold status_message in Hm. rewrite Hi in Hm. congruence. }
  split; [|done].
  intros Hi. unfold status_message in Hm. by rewrite Hi in Hm.
Qed.

(** C6 (amended).  When the promise of [next] resolves with a response
    that has no body, or whose body is unread, unlocked and a stream that
    closes without error, the promise of the middleware resolves with
    that very response; every body that existed keeps its text, its
    state and its stream, so that the body of the response reads as it
    would have before the middleware measured it. *)
Theorem response_returned_unconsumed_when_readable
    tracer req next s rootSpan w0 response s2 :
  enter tracer req (rt_world s) = (rootSpan, w0) →
  after_next tracer req next s = (Settled (Normal response), s2) →
  (reading response s2 = NoBody ∨ ∃ text, reading response s2 = Reads text) →
  let final := run_alone tracer req next s in
  final.1 = Settled (Normal response) ∧
  (∀ b body, w_bodies (rt_world s2) !! b = Some body →
     w_bodies (rt_world final.2) !! b = Some body ∧
     stream_of final.2 b = stream_of s2 b) ∧
  reading response final.2 = reading response s2.
Proof.
  intros He Hn Hread.
  pose proof (run_alone_after_next tracer req next s rootSpan w0 He) as Hrun.
  rewrite Hn in Hrun. destruct Hrun as (ctx & st & Hrun & Hst).
  cbv zeta. rewrite Hrun. cbn [fst snd rt_world].
  change (w_bodies (set_active ?c ?x)) with (w_bodies x).
  rewrite w_bodies_do_calls.
  assert (Hout : (concluded req (Normal response) s2).1.1
                 = Settled (Normal response)).
  { unfold concluded. by destruct Hread as [->|[text ->]]. }
  assert (Hkeep : ∀ b body, w_bodies (rt_world s2) !! b = Some body →
     w_bodies (concluded req (Normal response) s2).2 !! b = Some body ∧
     stream_of (mkRuntime (set_active ctx
                  (do_calls rootSpan (concluded req (Normal response) s2).1.2
                            (concluded req (Normal response) s2).2))
                  st (rt_seen s2)) b = stream_of s2 b).
  { intros b body Hb. split.
    - unfold concluded. destruct Hread as [->|[text ->]]; cbn [snd]; [done|].
      unfold after_clone. destruct (resp_body response); [|done].
      destruct (w_bodies (rt_world s2) !! n); [|done].
      cbn. by apply lookup_app_l_Some.
    - unfold stream_of. cbn [rt_streams]. rewrite Hst; [done|].
      apply lookup_lt_Some in Hb. lia. }
  split; [done|]. split; [done|].
  unfold reading at 1 2. cbn [rt_world].
  change (w_bodies (set_active ?c ?x)) with (w_bodies x).
  rewrite w_bodies_do_calls.
  destruct (resp_body response) as [b|] eqn:Hb; [|done].
  destruct (w_bodies (rt_world s2) !! b) as [body|] eqn:Hl.
  - destruct (Hkeep b body Hl) as [-> ->]. done.
  - exfalso. unfold reading in Hread. rewrite Hb, Hl in Hread.
    destruct Hread as [?|[? ?]]; done.
Qed.

End Settlement.

(** C1, as stated, fails: [next] returns a response whose body stream
    never closes; the promise of [clonedResponse.text()] stays pending,
    the promise of the middleware never settles, and the span it started
    is never ended. *)
Lemma open_body_span_never_ended :
  let final := @run_alone Sample.platform SampleLoop.conversion Sample.tracer
                 Sample.get_search SampleLoop.next_ok SampleLoop.runtime_open in
  final.1 = Unsettled ∧
  count is_start (w_log (rt_world final.2)) = 1 ∧
  count is_end_event (w_log (rt_world final.2)) = 0.
Proof. vm_compute. done. Qed.

(** C4, as stated, fails: the handler throws a value without string
    form; [String(error)] throws in the [catch] block, [setStatus] is
    not called, and the promise of the middleware rejects with another
    value than the one thrown. *)
Lemma unprintable_error_replaced :
  let final := @run_alone Sample.platform SampleLoop.conversion Sample.tracer
                 Sample.get_search SampleLoop.next_throw_bare
                 SampleLoop.runtime1 in
  final.1 = Settled (Throw (JsError 99 "Cannot convert object to primitive value")) ∧
  JsError 99 "Cannot convert object to primitive value" ≠ SampleLoop.bare ∧
  w_log (rt_world final.2)
  = [EvStartSpan SampleRun.entered.1 "request" KindServer ROOT_CONTEXT;
     EvSpan SampleRun.entered.1 (CallUpdateName "GET /search");
     EvSpan SampleRun.entered.1 CallEnd].
Proof. vm_compute. done. Qed.

(** A response whose unread body stream errors: reading the clone
    rejects, and the promise of the middleware rejects instead of
    resolving with the response. *)
Lemma broken_body_not_returned :
  let s := SampleLoop.runtime_broken in
  let final := @run_alone Sample.platform SampleLoop.conversion Sample.tracer
                 Sample.get_search SampleLoop.next_ok s in
  Sample.world1.(w_bodies) !! 0 = Some (mkBody "{}" false) ∧
  final.1 = Settled (Throw Sample.boom).
Proof. vm_compute. done. Qed.

(** C6, as stated, fails: [next] returns a response whose body has been
    read; [response.clone()] throws, and the promise of the middleware
    rejects instead of resolving with the response. *)
Lemma used_body_not_returned :
  let final := @run_alone Sample.platform SampleLoop.conversion Sample.tracer
                 Sample.get_search SampleLoop.next_ok SampleLoop.runtime_used in
  (@after_next Sample.platform Sample.tracer Sample.get_search
     SampleLoop.next_ok SampleLoop.runtime_used).1
  = Settled (Normal Sample.ok_response) ∧
  final.1 = Settled (Throw (JsError 10 "Body is unusable")).
Proof. vm_compute. done. Qed.

Module LoopWitness.
Import Sample SampleLoop.

#[local] Existing Instance platform.
#[local] Existing Instance conversion.

Lemma one_span_started_and_ended_when_settled_witness :
  enter tracer get_search (rt_world runtime1)
  = (SampleRun.entered.1, SampleRun.entered.2) ∧
  after_next tracer get_search next_ok runtime1
  = (Settled (Normal ok_response),
     (after_next tracer get_search next_ok runtime1).2) ∧
  ∃ result calls before,
    (run_alone tracer get_search next_ok runtime1).1 = Settled result ∧
    w_log (rt_world (run_alone tracer get_search next_ok runtime1).2)
    = w_log (rt_world (after_next tracer get_search next_ok runtime1).2)
      ++ map (EvSpan SampleRun.entered.1) calls ∧
    calls = before ++ [CallUpdateName (final_name get_search); CallEnd] ∧
    count is_end before = 0.
Proof.
  assert (He : enter tracer get_search (rt_world runtime1)
               = (SampleRun.entered.1, SampleRun.entered.2))
    by (vm_compute; reflexivity).
  assert (Hn : after_next tracer get_search next_ok runtime1
               = (Settled (Normal ok_response),
                  (after_next tracer get_search next_ok runtime1).2))
    by (vm_compute; reflexivity).
  assert (Hr : ∀ response, Normal ok_response = Normal response →
               reading response (after_next tracer get_search next_ok runtime1).2
               ≠ ReadHangs).
  { intros response Heq. injection Heq as <-. vm_compute. discriminate. }
  split; [exact He|]. split; [exact Hn|].
  destruct (one_span_started_and_ended_when_settled tracer get_search next_ok
              runtime1 _ _ _ _ He Hn Hr)
    as (result & calls & before & H1 & _ & H3 & _ & H5 & H6 & _).
  exists result, calls, before. split; [exact H1|]. split; [exact H3|].
  split; [exact H5|exact H6].
Defined.

Lemma failure_annotated_and_rethrown_when_printable_witness :
  enter tracer get_search (rt_world runtime1)
  = (SampleRun.entered.1, SampleRun.entered.2) ∧
  after_next tracer get_search next_reject runtime1
  = (Settled (Throw boom), (after_next tracer get_search next_reject runtime1).2) ∧
  status_message boom = Normal "boom" ∧
  (run_alone tracer get_search next_reject runtime1).1 = Settled (Throw boom).
Proof.
  assert (He : enter tracer get_search (rt_world runtime1)
               = (SampleRun.entered.1, SampleRun.entered.2))
    by (vm_compute; reflexivity).
  assert (Hn : after_next tracer get_search next_reject runtime1
               = (Settled (Throw boom),
                  (after_next tracer get_search next_reject runtime1).2))
    by (vm_compute; reflexivity).
  assert (Hm : status_message boom = Normal "boom") by reflexivity.
  split; [exact He|]. split; [exact Hn|]. split; [exact Hm|].
  exact (proj1 (failure_annotated_and_rethrown_when_printable tracer get_search
                  next_reject runtime1 _ _ _ _ _ He Hn Hm)).
Defined.

Lemma response_returned_unconsumed_when_readable_witness :
  enter tracer get_search (rt_world runtime1)
  = (SampleRun.entered.1, SampleRun.entered.2) ∧
  after_next tracer get_search next_ok runtime1
  = (Settled (Normal ok_response),
     (after_next tracer get_search next_ok runtime1).2) ∧
  reading ok_response (after_next tracer get_search next_ok runtime1).2
  = Reads "{}" ∧
  (run_alone tracer get_search next_ok runtime1).1
  = Settled (Normal ok_response) ∧
  reading ok_response (run_alone tracer get_search next_ok runtime1).2
  = Reads "{}".
Proof.
  assert (He : enter tracer get_search (rt_world runtime1)
               = (SampleRun.entered.1, SampleRun.entered.2))
    by (vm_compute; reflexivity).
  assert (Hn : after_next tracer get_search next_ok runtime1
               = (Settled (Normal ok_response),
                  (after_next tracer get_search next_ok runtime1).2))
    by (vm_compute; reflexivity).
  assert (Hr : reading ok_response
                 (after_next tracer get_search next_ok runtime1).2
               = Reads "{}") by (vm_compute; reflexivity).
  split; [exact He|]. split; [exact Hn|]. split; [exact Hr|].
  destruct (response_returned_unconsumed_when_readable tracer get_search
              next_ok runtime1 _ _ _ _ He Hn
              (or_intror (ex_intro _ "{}" Hr)))
    as (H1 & _ & H3).
  split; [exact H1|]. rewrite H3. exact Hr.
Defined.

End LoopWitness.

(* ================================================================== *)
(** * The two embeddings of the middleware agree *)
(* ================================================================== *)

Section Agreement.
Context `{Platform} `{Conversion}.

Lemma do_call_set_active sp c ctx w :
  do_call sp c (set_active ctx w) = set_active ctx (do_call sp c w).
Proof. by destruct sp. Qed.

Lemma do_calls_set_active sp calls ctx w :
  do_calls sp calls (set_active ctx w) = set_active ctx (do_calls sp calls w).
Proof.
  revert w. induction calls as [|c calls IH]; intros w; [done|].
  unfold do_calls in *. cbn [foldl]. by rewrite do_call_set_active, IH.
Qed.

Lemma after_clone_set_active response ctx w :
  after_clone response (set_active ctx w)
  = set_active ctx (after_clone response w).
Proof.
  unfold after_clone. destruct (resp_body response); [|done].
  cbn. by destruct (w_bodies w !! n).
Qed.

Lemma concluded_set_active req c ctx w st seen :
  concluded req c (mkRuntime (set_active ctx w) st seen)
  = ((concluded req c (mkRuntime w st seen)).1,
     set_active ctx (concluded req c (mkRuntime w st seen)).2).
Proof.
  unfold concluded, reading, stream_of, clone_error. cbn [rt_world rt_streams].
  change (w_bodies (set_active ctx w)) with (w_bodies w).
  change (w_next_obj (set_active ctx w)) with (w_next_obj w).
  destruct c as [response|e].
  - destruct (resp_body response) as [b|] eqn:Hb; [|done].
    destruct (w_bodies w !! b) as [[text []]|]; cbn [fst snd];
      try (by destruct (rejection req _)).
    destruct (default StreamCloses (st !! b)); cbn [fst snd];
      rewrite ?after_clone_set_active; try done;
      by destruct (rejection req _).
  - by destruct (rejection req e).
Qed.

Lemma rejection_agrees req e :
  (∀ v, instanceof_Error v = false → String_outcome v = Normal (js_String v)) →
  rejection req e = (e, failure_calls e ++ final_calls req).
Proof.
  intros Hs. unfold rejection, status_message, failure_calls, error_status.
  destruct (instanceof_Error e) eqn:Hi; [done|]. by rewrite (Hs e Hi).
Qed.

(** What the middleware does after [next]: [concluded] against
    [result_after_next], [calls_after_next] and [fetch_after_next]. *)
Lemma concluded_agrees req c w seen :
  (∀ v, instanceof_Error v = false → String_outcome v = Normal (js_String v)) →
  concluded req (ended c) (mkRuntime w ∅ seen)
  = (Settled (ended (Normal (result_after_next c w))),
     calls_after_next req c w, fetch_after_next c w).
Proof.
  intros Hs.
  unfold concluded, reading, stream_of, result_after_next, calls_after_next,
    fetch_after_next, body_readable, measured_size, after_clone, ended.
  cbn [rt_world rt_streams].
  destruct c as [[response|e]|e].
  - destruct (resp_body response) as [b|] eqn:Hb; [|done].
    rewrite lookup_empty. cbn [default].
    destruct (w_bodies w !! b) as [[text []]|] eqn:Hl; cbn;
      rewrite ?rejection_agrees by done; try done.
  - by rewrite rejection_agrees.
  - by rewrite rejection_agrees.
Qed.

Lemma after_lifted_next tracer req next s sp w0 c w1 :
  enter tracer req (rt_world s) = (sp, w0) →
  next w0 = (c, w1) →
  ∃ ctx, after_next tracer req (lifted next) s
         = (Settled (ended c),
            mkRuntime (set_active ctx w1) (rt_streams s) (rt_seen s)).
Proof.
  intros He Hn. unfold after_next, lifted. rewrite He.
  cbn [rt_world set_world]. rewrite Hn.
  destruct c as [p|e].
  - assert (Hf : ∀ x, finish (settled p) x
                      = (Settled (ended (Normal p)), x)) by (by destruct p).
    rewrite Hf.
    unfold reenter, awaiting, with_active, set_world.
    cbn [rt_world rt_streams rt_seen].
    destruct (w_cm_enabled (rt_world s)); cbn [rt_world rt_streams rt_seen];
      change (w_cm_enabled (set_active ?c ?x)) with (w_cm_enabled x);
      destruct (w_cm_enabled w1); cbn [rt_world rt_streams rt_seen];
      try (by eexists);
      exists (w_active w1); by rewrite set_active_same.
  - exists (w_active w1). by rewrite set_active_same.
Qed.

(** With every stream closing and [String] returning what [js_String]
    does, the middleware on the event loop, run alone with a [next]
    whose promise has settled, ends as [middleware] does: the same
    settlement, and the same world up to the active context. *)
Lemma run_alone_middleware tracer req next s :
  (∀ v, instanceof_Error v = false → String_outcome v = Normal (js_String v)) →
  rt_streams s = ∅ →
  (run_alone tracer req (lifted next) s).1
  = Settled (ended (middleware tracer req next (rt_world s)).1) ∧
  ∃ ctx, rt_world (run_alone tracer req (lifted next) s).2
         = set_active ctx (middleware tracer req next (rt_world s)).2.
Proof.
  intros Hs Hst.
  destruct (enter tracer req (rt_world s)) as [sp w0] eqn:He.
  destruct (next w0) as [c w1] eqn:Hn.
  rewrite (middleware_summary _ _ _ _ _ _ _ _ He Hn). cbn [fst snd].
  pose proof (run_alone_after_next tracer req (lifted next) s sp w0 He) as Hrun.
  destruct (after_lifted_next tracer req next s sp w0 c w1 He Hn) as [ctx1 Ha].
  rewrite Ha in Hrun. destruct Hrun as (ctx & st & Hrun & _).
  rewrite Hrun. rewrite concluded_set_active, Hst, concluded_agrees by done.
  cbn [fst snd rt_world]. split; [done|].
  rewrite do_calls_set_active.
  change (set_active ?c (set_active ?d ?x)) with (set_active c x).
  exists ctx. unfold leave. by destruct (w_cm_enabled (rt_world s)).
Qed.

End Agreement.

(* ================================================================== *)
(** * Invocations in flight together: jobs that keep to their invocation *)
(* ================================================================== *)

Section Logic.
Context `{Platform} `{Conversion}.
Context (i : nat) (sp : SpanHandle).

Lemma keeps_to_refl s : keeps_to i sp s s.
Proof.
  split; try done.
  - exists []. by rewrite app_nil_r.
  - exists []. by rewrite app_nil_r.
Qed.

Lemma keeps_to_trans s1 s2 s3 :
  keeps_to i sp s1 s2 → keeps_to i sp s2 s3 → keeps_to i sp s1 s3.
Proof.
  intros [c1 p1 n1 [l1 Hl1] [x1 [Hx1 Hf1]]] [c2 p2 n2 [l2 Hl2] [x2 [Hx2 Hf2]]].
  split; try congruence.
  - exists (l1 ++ l2). by rewrite Hl2, Hl1, map_app, app_assoc.
  - exists (x1 ++ x2). split; [by rewrite Hx2, Hx1, app_assoc|].
    by apply Forall_app.
Qed.

Lemma keeps_to_managed s s' : managed s → keeps_to i sp s s' → managed s'.
Proof. unfold managed. intros Hm [Hc _ _ _ _]. congruence. Qed.

Lemma sat_weaken {A} (Q R : Completion A → Runtime → Prop) t s :
  (∀ c s, Q c s → R c s) → sat i sp Q t s → sat i sp R t s.
Proof.
  intros HQR Hs. induction Hs as [c s Hq|s|job s Hk Hj IH].
  - apply sat_done. by apply HQR.
  - apply sat_never.
  - apply sat_await; [done|]. intros s' Hm. by apply IH.
Qed.

Lemma sat_promise {A} (Q : Completion A → Runtime → Prop) t s :
  sat i sp Q t s → promise_of i sp t.
Proof.
  intros Hs s0. induction Hs as [c s Hq|s|job s Hk Hj IH].
  - by apply sat_done.
  - apply sat_never.
  - apply sat_await; [done|]. intros s' Hm.
    eapply sat_weaken; [|apply Hj, Hm]. done.
Qed.

Lemma graft_sat {A B} (Q : Completion A → Runtime → Prop)
    (R : Completion B → Runtime → Prop) t (f : Completion A → AM B) s :
  sat i sp Q t s →
  (∀ c, am_sat i sp (Q c) (f c) R) →
  managed s →
  keeps_to i sp s (graft t f s).2 ∧ sat i sp R (graft t f s).1 (graft t f s).2.
Proof.
  intros Hs Hf. induction Hs as [c s Hq|s|job s Hk Hj IH]; intros Hm.
  - cbn [graft]. by apply Hf.
  - cbn [graft fst snd]. split; [apply keeps_to_refl|apply sat_never].
  - cbn [graft fst snd]. split; [apply keeps_to_refl|].
    apply sat_await.
    + intros s' Hm'. specialize (Hk s' Hm'). specialize (IH s' Hm').
      destruct (job s') as [t' s'']. cbn [fst snd] in *.
      eapply keeps_to_trans; [exact Hk|].
      apply IH. by eapply keeps_to_managed.
    + intros s' Hm'. specialize (Hk s' Hm'). specialize (IH s' Hm').
      destruct (job s') as [t' s'']. cbn [fst snd] in *.
      apply IH. by eapply keeps_to_managed.
Qed.

Lemma ret_sat {A} (P : Runtime → Prop) (a : A) :
  am_sat i sp P (ret_a a) (λ c s, c = Normal a ∧ P s).
Proof.
  intros s Hm HP. split; [apply keeps_to_refl|]. by apply sat_done.
Qed.

Lemma throw_sat {A} (P : Runtime → Prop) e :
  am_sat i sp P (@throw_a A e) (λ c s, c = Throw e ∧ P s).
Proof.
  intros s Hm HP. split; [apply keeps_to_refl|]. by apply sat_done.
Qed.

Lemma am_sat_weaken {A} (P P' : Runtime → Prop)
    (Q Q' : Completion A → Runtime → Prop) m :
  am_sat i sp P m Q →
  (∀ s, P' s → P s) → (∀ c s, Q c s → Q' c s) →
  am_sat i sp P' m Q'.
Proof.
  intros Hs HP HQ s Hm HP'. destruct (Hs s Hm (HP s HP')) as [Hk Ht].
  split; [done|]. by eapply sat_weaken.
Qed.

Lemma call_sat {A} (P : Runtime → Prop) (m : Sync A) Q :
  sync_sat i sp P m Q → am_sat i sp P (call m) Q.
Proof.
  intros Hs s Hm HP. specialize (Hs s Hm HP). unfold call.
  destruct (m s) as [c s']. cbn [fst snd] in *.
  split; [apply Hs|]. apply sat_done, Hs.
Qed.

Lemma bind_sat {A B} (P : Runtime → Prop) (m : AM A) Q (f : A → AM B) R :
  am_sat i sp P m Q →
  (∀ a, am_sat i sp (Q (Normal a)) (f a) R) →
  (∀ e s, Q (Throw e) s → R (Throw e) s) →
  am_sat i sp P (bind_a m f) R.
Proof.
  intros Hm Hf He s Hs HP. unfold bind_a.
  destruct (Hm s Hs HP) as [Hk Ht].
  destruct (m s) as [t s']. cbn [fst snd] in *.
  edestruct (graft_sat Q R t) as [Hk' Ht']; [exact Ht| |by eapply keeps_to_managed|].
  2:{ split; [|exact Ht']. eapply keeps_to_trans; [exact Hk|exact Hk']. }
  intros [a|e]; [apply Hf|].
  intros s0 Hm0 HQ. split; [apply keeps_to_refl|]. apply sat_done. by apply He.
Qed.

Lemma try_catch_sat {A} (P : Runtime → Prop) (body : AM A) Q handler R :
  am_sat i sp P body Q →
  (∀ e, am_sat i sp (Q (Throw e)) (handler e) R) →
  (∀ a s, Q (Normal a) s → R (Normal a) s) →
  am_sat i sp P (try_catch_a body handler) R.
Proof.
  intros Hm Hf He s Hs HP. unfold try_catch_a.
  destruct (Hm s Hs HP) as [Hk Ht].
  destruct (body s) as [t s']. cbn [fst snd] in *.
  edestruct (graft_sat Q R t) as [Hk' Ht']; [exact Ht| |by eapply keeps_to_managed|].
  2:{ split; [|exact Ht']. eapply keeps_to_trans; [exact Hk|exact Hk']. }
  intros [a|e]; [|apply Hf].
  intros s0 Hm0 HQ. split; [apply keeps_to_refl|]. apply sat_done. by apply He.
Qed.

Lemma try_finally_sat {A} (P : Runtime → Prop) (body : AM A) Q fin
    (R : Runtime → Prop) :
  am_sat i sp P body Q →
  (∀ c, sync_sat i sp (Q c) fin (λ _, R)) →
  am_sat i sp P (try_finally_a body fin) (λ _, R).
Proof.
  intros Hm Hf s Hs HP. unfold try_finally_a.
  destruct (Hm s Hs HP) as [Hk Ht].
  destruct (body s) as [t s']. cbn [fst snd] in *.
  edestruct (graft_sat (B:=A) Q (λ _, R) t) as [Hk' Ht'];
    [exact Ht| |by eapply keeps_to_managed|].
  2:{ split; [|exact Ht']. eapply keeps_to_trans; [exact Hk|exact Hk']. }
  intros c s0 Hm0 HQ. destruct (Hf c s0 Hm0 HQ) as [Hk0 HR].
  destruct (fin s0) as [[[]|e] s1]; cbn [fst snd] in *;
    (split; [done|by apply sat_done]).
Qed.

(** A state that differs in the active context only. *)
Lemma keeps_to_with_active ctx s : keeps_to i sp s (with_active ctx s).
Proof.
  split; try done.
  - exists []. by rewrite app_nil_r.
  - exists []. by rewrite app_nil_r.
Qed.

Lemma keeps_to_reenter ctx s : keeps_to i sp s (reenter ctx s).
Proof.
  unfold reenter. destruct (w_cm_enabled (rt_world s)).
  - apply keeps_to_with_active.
  - apply keeps_to_refl.
Qed.

Lemma active_reenter ctx s : managed s → active_is ctx (reenter ctx s).
Proof. unfold managed, reenter, active_is. by intros ->. Qed.

Lemma resume_sat {A} ctx (p : Step A) s :
  promise_of i sp p → sat i sp (λ _, active_is ctx) (resume ctx p) s.
Proof.
  intros Hp. specialize (Hp s).
  induction Hp as [c s Hq|s|job s Hk Hj IH]; cbn [resume].
  - apply sat_await; intros s' Hm; cbn [fst snd].
    + apply keeps_to_reenter.
    + apply sat_done. by apply active_reenter.
  - apply sat_never.
  - apply sat_await; intros s' Hm.
    + specialize (Hk s' Hm). by destruct (job s').
    + specialize (IH s' Hm). by destruct (job s').
Qed.

Lemma await_sat {A} ctx (p : Step A) :
  promise_of i sp p →
  am_sat i sp (active_is ctx) (await_a p) (λ _, active_is ctx).
Proof.
  intros Hp s Hm Ha. unfold await_a. cbn [fst snd].
  split; [apply keeps_to_refl|]. rewrite Ha. by apply resume_sat.
Qed.

(** ** The parts of the middleware keep to their invocation *)

Lemma keeps_to_quiet s s' :
  w_cm_enabled (rt_world s') = w_cm_enabled (rt_world s) →
  w_provider (rt_world s') = w_provider (rt_world s) →
  w_next_id (rt_world s') = w_next_id (rt_world s) →
  w_log (rt_world s') = w_log (rt_world s) →
  rt_seen s' = rt_seen s →
  keeps_to i sp s s'.
Proof.
  intros ? ? ? Hl Hs. split; try done.
  - exists []. by rewrite app_nil_r.
  - exists []. by rewrite app_nil_r.
Qed.

Lemma span_call_sat ctx c :
  sync_sat i sp (active_is ctx) (lift (span_call sp c)) (λ _, active_is ctx).
Proof.
  intros s Hm Ha. unfold lift, span_call, modify. cbn [fst snd].
  destruct (do_calls_frame sp [c] (rt_world s)) as (Hc & Hp & Hn & Hact).
  change (do_calls sp [c] (rt_world s)) with (do_call sp c (rt_world s)) in *.
  split.
  - split; try done.
    + exists [c]. apply w_log_do_call.
    + exists []. by rewrite app_nil_r.
  - unfold active_is in *. cbn [rt_world set_world]. congruence.
Qed.

Lemma finalize_sat ctx req :
  sync_sat i sp (active_is ctx) (finalize sp req) (λ _, active_is ctx).
Proof.
  intros s Hm Ha. unfold finalize, lift, span_updateName, span_end, span_call,
    modify, bind. cbn [fst snd].
  destruct (do_calls_frame sp (final_calls req) (rt_world s))
    as (Hc & Hp & Hn & Hact).
  split.
  - split; try done.
    + exists (final_calls req). apply (w_log_do_calls sp (final_calls req)).
    + exists []. by rewrite app_nil_r.
  - unfold active_is in *. cbn [rt_world set_world]. 
    change (w_active (do_calls sp (final_calls req) (rt_world s)) = ctx).
    congruence.
Qed.

Lemma String_sat ctx e :
  sync_sat i sp (active_is ctx) (String_s e) (λ _, active_is ctx).
Proof. intros s Hm Ha. split; [apply keeps_to_refl|done]. Qed.

Lemma clone_sat ctx r :
  sync_sat i sp (active_is ctx) (Response_clone_s r) (λ _, active_is ctx).
Proof.
  intros s Hm Ha. unfold active_is in *.
  unfold Response_clone_s, Response_clone, lift, new_TypeError, bind, throw,
    stream_of, set_streams, set_world.
  repeat case_match; simplify_eq; cbn [fst snd rt_world rt_seen];
    (split; [by apply keeps_to_quiet|done]).
Qed.

Lemma text_sat ctx r :
  sync_sat i sp (active_is ctx) (Response_text_s r)
    (λ c s, active_is ctx s ∧ ∀ p, c = Normal p → promise_of i sp p).
Proof.
  intros s Hm Ha. unfold active_is in *.
  unfold Response_text_s, lift, new_TypeError, bind_s, ret_s, stream_of,
    set_world.
  repeat case_match; simplify_eq; cbn [fst snd rt_world rt_seen];
    (split; [by apply keeps_to_quiet|]); (split; [done|]);
    intros p Hp s0; simplify_eq; by constructor.
Qed.

Lemma succeed_sat ctx req response :
  am_sat i sp (active_is ctx) (succeed sp req response) (λ _, active_is ctx).
Proof.
  unfold succeed.
  eapply bind_sat; [apply call_sat, span_call_sat| |done].
  intros ?. cbv beta zeta.
  eapply bind_sat with (Q := λ _, active_is ctx); [| |done].
  - destruct (resp_body response).
    + eapply bind_sat; [apply call_sat, clone_sat| |done].
      intros clone.
      eapply bind_sat; [apply call_sat, text_sat| |by intros ? ? []].
      intros p.
      eapply bind_sat with (Q := λ _, active_is ctx); [| |done].
      * intros s Hm [Ha Hp]. apply await_sat; [by apply Hp|done..].
      * intros text. eapply am_sat_weaken; [apply ret_sat|done|by intros ? ? []].
    + eapply am_sat_weaken; [apply ret_sat|done|by intros ? ? []].
  - intros attributes.
    eapply bind_sat; [apply call_sat, span_call_sat| |done].
    intros ?. cbv beta. eapply am_sat_weaken; [apply ret_sat|done|by intros ? ? []].
Qed.

Lemma fail_sat ctx e :
  am_sat i sp (active_is ctx) (fail sp e) (λ _, active_is ctx).
Proof.
  unfold fail.
  eapply bind_sat with (Q := λ _, active_is ctx); [| |done].
  - destruct (instanceof_Error e).
    + eapply am_sat_weaken; [apply ret_sat|done|by intros ? ? []].
    + apply call_sat, String_sat.
  - intros message.
    eapply bind_sat; [apply call_sat, span_call_sat| |done].
    intros ?. cbv beta.
    eapply bind_sat with (Q := λ _, active_is ctx); [| |done].
    + apply call_sat. unfold when. destruct (instanceof_Error e).
      * apply span_call_sat.
      * intros s Hm Ha. split; [|done]. unfold lift, ret. cbn.
        destruct s. apply keeps_to_refl.
    + intros ?. cbv beta. eapply am_sat_weaken; [apply throw_sat|done|by intros ? ? []].
Qed.

(** The body of the function passed to [context.with], for a [next]
    that keeps to the invocation. *)
Lemma traced_sat ctx req (next : Sync (Step Response)) :
  sync_sat i sp (active_is ctx) next
    (λ c s, active_is ctx s ∧ ∀ p, c = Normal p → promise_of i sp p) →
  am_sat i sp (active_is ctx) (traced sp req next) (λ _, active_is ctx).
Proof.
  intros Hnext. unfold traced.
  eapply try_finally_sat with (Q := λ _, active_is ctx);
    [|intros c; apply finalize_sat].
  eapply try_catch_sat with (Q := λ _, active_is ctx);
    [|intros e; apply fail_sat|done].
  eapply bind_sat; [apply call_sat, Hnext| |by intros ? ? []].
  intros p.
  eapply bind_sat with (Q := λ _, active_is ctx); [| |done].
  - intros s Hm [Ha Hp]. apply await_sat; [by apply Hp|done..].
  - intros response. apply succeed_sat.
Qed.

(** ** Handlers *)

Lemma handler_active h s :
  w_active (rt_world (handler i h s).2) = w_active (rt_world s).
Proof.
  revert s. induction h as [response|e|rest IH|rest IH|]; intros s; try done.
  cbn [handler]. unfold bind_a, call, look. cbn [graft fst snd].
  by rewrite IH.
Qed.

Lemma look_sat ctx :
  trace_getSpan ctx = Some sp →
  sync_sat i sp (active_is ctx) (look i) (λ _, active_is ctx).
Proof.
  intros Hsp s Hm Ha. unfold look, add_seen. cbn [fst snd]. split; [|done].
  split; try done.
  - exists []. by rewrite app_nil_r.
  - exists [(i, observe (rt_world s))]. split; [done|].
    apply Forall_singleton. f_equal. by eapply observe_in_context.
Qed.

Lemma handler_sat ctx h :
  trace_getSpan ctx = Some sp →
  am_sat i sp (active_is ctx) (handler i h) (λ _, active_is ctx).
Proof.
  intros Hsp. induction h as [response|e|rest IH|rest IH|]; cbn [handler].
  - eapply am_sat_weaken; [apply ret_sat|done|by intros ? ? []].
  - eapply am_sat_weaken; [apply throw_sat|done|by intros ? ? []].
  - eapply bind_sat; [apply call_sat, look_sat, Hsp| |done]. intros ?. apply IH.
  - eapply bind_sat; [apply await_sat| |done]; [|intros ?; apply IH].
    intros s. by constructor.
  - apply await_sat. intros s. constructor.
Qed.

Lemma next_sat ctx h :
  trace_getSpan ctx = Some sp →
  sync_sat i sp (active_is ctx) (async_fn (handler i h))
    (λ c s, active_is ctx s ∧ ∀ p, c = Normal p → promise_of i sp p).
Proof.
  intros Hsp s Hm Ha.
  destruct (handler_sat ctx h Hsp s Hm Ha) as [Hk Ht].
  pose proof (handler_active h s) as Hact.
  unfold async_fn. destruct (handler i h s) as [t s']. cbn [fst snd] in *.
  split; [done|]. split; [unfold active_is in *; congruence|].
  intros p [= <-]. by eapply sat_promise.
Qed.

End Logic.

Section Start.
Context `{Platform} `{Conversion}.
Context (i : nat) (sp : SpanHandle).

Ltac rt_simpl :=
  unfold set_world, with_active; cbn [rt_world rt_streams rt_seen fst snd].

Lemma async_fn_sat {A} (P : Runtime → Prop) (body : AM A) Q :
  am_sat i sp P body Q →
  sync_sat i sp P (async_fn body)
    (λ c _, ∀ p, c = Normal p → promise_of i sp p).
Proof.
  intros Hb s Hm HP. destruct (Hb s Hm HP) as [Hk Ht].
  unfold async_fn. destruct (body s) as [t s']. cbn [fst snd] in *.
  split; [done|]. intros p [= <-]. by eapply sat_promise.
Qed.

Lemma context_with_sat {A} c0 ctx (fn : Sync A) (Q : Completion A → Prop) :
  sync_sat i sp (active_is ctx) fn (λ c _, Q c) →
  sync_sat i sp (active_is c0) (context_with_s ctx fn)
    (λ c s, active_is c0 s ∧ Q c).
Proof.
  intros Hfn s Hm Ha. unfold context_with_s. rewrite Hm.
  destruct (Hfn (with_active ctx s)) as [Hk HQ]; [done..|].
  unfold with_active in *.
  destruct (fn (set_world (set_active ctx (rt_world s)) s)) as [c s'].
  cbn [fst snd] in *. split; [|by split].
  eapply keeps_to_trans; [apply (keeps_to_with_active i sp ctx)|].
  eapply keeps_to_trans; [exact Hk|].
  apply (keeps_to_with_active i sp).
Qed.

(** The call of the middleware: it starts the span, runs up to its first
    suspension and returns a promise whose jobs keep to the invocation. *)
Lemma middleware_async_start tracer req next s w0 :
  managed s →
  enter tracer req (rt_world s) = (sp, w0) →
  sync_sat i sp
    (active_is (trace_setSpan (request_context req (rt_world s)) sp)) next
    (λ c s', active_is (trace_setSpan (request_context req (rt_world s)) sp) s' ∧
             ∀ p, c = Normal p → promise_of i sp p) →
  ∃ T s1,
    middleware_async tracer req next s = (Normal T, s1) ∧
    promise_of i sp T ∧
    keeps_to i sp (set_world w0 s) s1.
Proof.
  intros Hm He Hnext.
  rewrite middleware_async_traced.
  unfold enter in He. revert He Hnext.
  unfold request_context, active_context, request_headers, Headers_toJSON.
  unfold managed in Hm. rewrite Hm.
  set (ctx := propagation_extract _ _).
  destruct (start_span tracer "request" _ ctx (rt_world s)) as [sp' w'] eqn:Hs.
  intros [= -> <-] Hnext.
  destruct (start_span_frame _ _ _ _ _ _ _ Hs) as (Hcm & Hact & _ & Hprov & Hlog).
  unfold async_fn at 1. unfold bind_a at 1. unfold call at 1. unfold lift at 1.
  unfold context_active. rewrite Hm. rt_simpl. cbn [graft].
  unfold bind_a at 1. unfold call at 1. unfold tracer_startActiveSpan_s.
  unfold bind_s, lift, context_active, tracer_startSpan.
  rt_simpl. cbn [graft default]. rewrite ?Hm.
  unfold Headers_toJSON. fold ctx. change (id ctx) with ctx.
  rewrite Hs. rt_simpl.
  match goal with
  | |- context [context_with_s _ (async_fn ?body) ?X] =>
      set (wrapped := body); set (s' := X)
  end.
  assert (Hw : am_sat i sp (active_is (trace_setSpan ctx sp)) wrapped
                      (λ _ _, True)).
  { unfold wrapped.
    eapply bind_sat.
    - apply call_sat. apply context_with_sat with (Q := λ c, ∀ p, c = Normal p → promise_of i sp p).
      apply async_fn_sat with (Q := λ _, active_is (trace_setSpan ctx sp)).
      by apply traced_sat.
    - intros p. cbv beta.
      eapply bind_sat with (Q := λ _, active_is (trace_setSpan ctx sp)).
      + intros x Hx [Ha Hp]. apply await_sat; [by apply Hp|done..].
      + intros response. eapply am_sat_weaken; [apply ret_sat|done..].
      + done.
    - done. }
  destruct (context_with_sat (w_active (rt_world s)) (trace_setSpan ctx sp)
              (async_fn wrapped)
              (λ c, ∀ p, c = Normal p → promise_of i sp p)
              (async_fn_sat _ _ _ Hw) s') as [Hk [Ha Hp]].
  { unfold managed, s'. cbn. congruence. }
  { unfold active_is, s'. cbn. congruence. }
  destruct (context_with_s (trace_setSpan ctx sp) (async_fn wrapped) s')
    as [[result|e] s1]; cbn [fst snd graft] in *.
  - unfold await_a. eexists _, _. split; [done|]. split.
    + intros x. eapply sat_weaken; [|apply resume_sat, Hp]; done.
    + eapply keeps_to_trans; [|exact Hk].
      apply keeps_to_quiet; unfold s'; cbn; by destruct (w_cm_enabled w').
  - unfold throw_a. eexists _, _. split; [done|]. split.
    + intros x. by constructor.
    + eapply keeps_to_trans; [|exact Hk].
      apply keeps_to_quiet; unfold s'; cbn; by destruct (w_cm_enabled w').
Qed.

End Start.

(* ================================================================== *)
(** * Invocations in flight together: every handler sees its own span *)
(* ================================================================== *)

Section LoopFacts.
Context `{Platform} `{Conversion}.

Lemma root_ok_keeps i sp0 s s' inv sp :
  keeps_to i sp0 s s' →
  root_ok (rt_world s) inv sp → root_ok (rt_world s') inv sp.
Proof.
  intros [_ _ Hn [calls Hl] _] (n & Hlt & Hid).
  exists n. split; [lia|done].
Qed.

Lemma elem_of_map_EvSpan sp calls ev :
  ev ∈ map (EvSpan sp) calls → ∃ c, ev = EvSpan sp c.
Proof.
  induction calls as [|c calls IH]; cbn [map].
  - by intros ?%elem_of_nil.
  - intros [->|Hin]%elem_of_cons; [by exists c|by apply IH].
Qed.

Lemma event_ok_insert tasks roots i sp ev :
  roots !! i = Some None →
  event_ok tasks roots ev → event_ok tasks (<[i := Some sp]> roots) ev.
Proof.
  intros Hi (j & sp' & inv & Hj & Ht & Hev).
  exists j, sp', inv. split; [|done].
  rewrite list_lookup_insert_ne; [done|]. intros ->. congruence.
Qed.

Lemma loop_inv_start tasks s :
  managed s → w_provider (rt_world s) = true →
  loop_inv tasks s (replicate (length tasks) None) (start_loop tasks s).
Proof.
  intros Hm Hp. split; try done.
  - apply length_replicate.
  - apply length_replicate.
  - intros i slot [-> Hi]%lookup_replicate. exists None.
    split; [by apply lookup_replicate|done].
  - exists []. by rewrite app_nil_r.
  - exists []. rewrite app_nil_r. split; [done|]. split; [done|].
    intros i sp inv [? _]%lookup_replicate. done.
  - intros i sp [? _]%lookup_replicate. done.
  - intros i j sp sp' _ [? _]%lookup_replicate. done.
Qed.

(** A job of an invocation that has been started. *)
Lemma loop_inv_job tasks s0 roots l i job :
  loop_inv tasks s0 roots l →
  loop_slots l !! i = Some (Started (Await job)) →
  loop_inv tasks s0 roots
    (mkLoop (job (loop_runtime l)).2
            (<[i := Started (job (loop_runtime l)).1]> (loop_slots l))).
Proof.
  intros [Hm Hp Hls Hlr Hslot [seen [Hseen Hall]] [events (Hlog & Hev & Hstart)] Hroot Hd] Hi.
  destruct (Hslot i _ Hi) as (root & Hri & Hok).
  destruct root as [sp|]; [|done]. cbn in Hok.
  specialize (Hok (loop_runtime l)). inversion Hok as [| |job' s' Hk Hj]; subst.
  specialize (Hk _ Hm). specialize (Hj _ Hm).
  destruct (job (loop_runtime l)) as [t s1]. cbn [fst snd] in *.
  pose proof Hk as [Hcm Hprov Hnext [calls Hcalls] [new [Hnew Hnewall]]].
  split; cbn [loop_runtime loop_slots].
  - by eapply keeps_to_managed.
  - congruence.
  - by rewrite length_insert.
  - done.
  - intros j slot Hj'. destruct (decide (j = i)) as [->|Hne].
    + rewrite list_lookup_insert_eq in Hj' by (by eapply lookup_lt_Some).
      injection Hj' as <-. exists (Some sp). split; [done|].
      by eapply sat_promise.
    + rewrite list_lookup_insert_ne in Hj' by done. by apply Hslot.
  - exists (seen ++ new). split; [by rewrite Hnew, Hseen, app_assoc|].
    apply Forall_app. split; [done|].
    eapply Forall_impl; [exact Hnewall|]. intros x ->. by exists sp.
  - exists (events ++ map (EvSpan sp) calls).
    split; [by rewrite Hcalls, Hlog, app_assoc|]. split.
    + apply Forall_app. split; [done|].
      apply Forall_forall. intros ev (c & ->)%elem_of_map_EvSpan.
      destruct (Hroot i sp Hri) as (inv & Ht & _).
      exists i, sp, inv. split_and!; [done..|]. right. by exists c.
    + intros j sp' inv Hj' Ht. apply elem_of_app. left. by eapply Hstart.
  - intros j sp' Hj'. destruct (Hroot j sp' Hj') as (inv & Ht & Hr).
    exists inv. split; [done|]. by eapply root_ok_keeps.
  - done.
Qed.

(** The call of the middleware for an invocation. *)
Lemma loop_inv_call tracer tasks s0 roots l i inv :
  loop_inv tasks s0 roots l →
  tasks !! i = Some inv →
  loop_slots l !! i = Some Queued →
  ∃ sp, loop_inv tasks s0 (<[i := Some sp]> roots)
          (step_loop tracer tasks i l).
Proof.
  intros [Hm Hp Hls Hlr Hslot [seen [Hseen Hall]] [events (Hlog & Hev & Hstart)] Hroot Hd]
    Ht Hi.
  destruct (Hslot i _ Hi) as (root & Hri & Hok).
  destruct root as [|]; [done|]. clear Hok.
  unfold step_loop. rewrite Ht, Hi.
  set (s := with_active (inv_ambient inv) (loop_runtime l)).
  assert (Hms : managed s) by done.
  destruct (enter tracer (inv_request inv) (rt_world s)) as [sp w0] eqn:He.
  assert (Hctx : request_context (inv_request inv) (rt_world s) = extracted inv).
  { unfold request_context, extracted, active_context. by rewrite Hms. }
  destruct (enter_frame tracer _ (rt_world s) _ _ Hp Hms He)
    as (Hcm0 & Hp0 & Hact0 & Hn0 & Hspan & Htrace).
  pose proof (enter_log tracer _ _ _ _ He) as Hlog0.
  rewrite Hctx in Hact0, Htrace, Hlog0.
  destruct (middleware_async_start i sp tracer (inv_request inv)
              (async_fn (handler i (inv_script inv))) s w0 Hms He)
    as (T & s1 & -> & HT & Hk).
  { rewrite Hctx. apply next_sat, trace_getSpan_setSpan. }
  exists sp.
  pose proof Hk as [Hcm Hprov Hnext [calls Hcalls] [new [Hnew Hnewall]]].
  cbn [rt_world set_world] in Hcm, Hprov, Hnext, Hcalls, Hnew.
  change (rt_seen (set_world w0 s)) with (rt_seen (loop_runtime l)) in Hnew.
  change (w_log (rt_world s)) with (w_log (rt_world (loop_runtime l))) in Hlog0.
  change (w_next_id (rt_world s))
    with (w_next_id (rt_world (loop_runtime l))) in *.
  assert (Hlt : i < length roots) by (by eapply lookup_lt_Some).
  split; cbn [loop_runtime loop_slots].
  - unfold managed. congruence.
  - congruence.
  - by rewrite length_insert.
  - by rewrite length_insert.
  - intros j slot Hj. destruct (decide (j = i)) as [->|Hne].
    + rewrite list_lookup_insert_eq in Hj by lia. injection Hj as <-.
      exists (Some sp). split; [by rewrite list_lookup_insert_eq|done].
    + rewrite list_lookup_insert_ne in Hj by done.
      rewrite list_lookup_insert_ne by done. by apply Hslot.
  - exists (seen ++ new). split; [by rewrite Hnew, Hseen, app_assoc|].
    apply Forall_app. split.
    + eapply Forall_impl; [exact Hall|]. intros x (sp' & Hx & Hx').
      exists sp'. split; [|done].
      rewrite list_lookup_insert_ne; [done|]. intros Heq. congruence.
    + eapply Forall_impl; [exact Hnewall|]. intros x ->. exists sp.
      split; [by apply list_lookup_insert_eq|done].
  - exists (events ++ EvStartSpan sp "request" KindServer (extracted inv)
                   :: map (EvSpan sp) calls).
    split.
    { rewrite Hcalls, Hlog0, Hlog. by rewrite <- !app_assoc. }
    split.
    { apply Forall_app. split.
      + eapply Forall_impl; [exact Hev|]. intros ev. by apply event_ok_insert.
      + apply Forall_cons. split.
        * exists i, sp, inv. split_and!; [by apply list_lookup_insert_eq|done|].
          by left.
        * apply Forall_forall. intros ev (c & ->)%elem_of_map_EvSpan.
          exists i, sp, inv. split_and!; [by apply list_lookup_insert_eq|done|].
          right. by exists c. }
    intros j sp' inv' Hj Ht'. destruct (decide (j = i)) as [->|Hne].
    + rewrite list_lookup_insert_eq in Hj by done. injection Hj as <-.
      assert (inv' = inv) as -> by congruence.
      apply elem_of_app. right. apply elem_of_cons. by left.
    + rewrite list_lookup_insert_ne in Hj by done.
      apply elem_of_app. left. by eapply Hstart.
  - intros j sp' Hj. destruct (decide (j = i)) as [->|Hne].
    + rewrite list_lookup_insert_eq in Hj by done. injection Hj as <-.
      exists inv. split; [done|].
      exists (w_next_id (rt_world (loop_runtime l))).
      split; [lia|]. by split.
    + rewrite list_lookup_insert_ne in Hj by done.
      destruct (Hroot j sp' Hj) as (inv' & Ht' & n & Hlt' & Hid).
      exists inv'. split; [done|].
      exists n. split; [lia|done].
  - assert (Hfresh : ∀ j sp', j ≠ i → roots !! j = Some (Some sp') →
                     spanId (spanContext sp') ≠ spanId (spanContext sp)).
    { intros j sp' Hne Hj.
      destruct (Hroot j sp' Hj) as (inv' & _ & n & Hlt' & Hid & _).
      rewrite Hid, Hspan. intros [= ->]. lia. }
    intros j k spj spk Hne Hj Hk'.
    destruct (decide (j = i)) as [->|Hji].
    + rewrite list_lookup_insert_eq in Hj by done. injection Hj as <-.
      rewrite list_lookup_insert_ne in Hk' by done.
      intros Heq. by eapply (Hfresh k spk).
    + rewrite list_lookup_insert_ne in Hj by done.
      destruct (decide (k = i)) as [->|Hki].
      * rewrite list_lookup_insert_eq in Hk' by done. injection Hk' as <-.
        by eapply Hfresh.
      * rewrite list_lookup_insert_ne in Hk' by done.
        exact (Hd j k spj spk Hne Hj Hk').
Qed.

Lemma loop_inv_step tracer tasks s0 roots l i :
  loop_inv tasks s0 roots l →
  ∃ roots', loop_inv tasks s0 roots' (step_loop tracer tasks i l) ∧
            (∀ j sp, roots !! j = Some (Some sp) → roots' !! j = Some (Some sp)) ∧
            (i < length tasks → ∃ sp, roots' !! i = Some (Some sp)).
Proof.
  intros Hinv.
  destruct (tasks !! i) as [inv|] eqn:Ht.
  2:{ exists roots. unfold step_loop. rewrite Ht. split; [done|]. split; [done|].
      intros Hlt. apply lookup_ge_None in Ht. lia. }
  destruct (loop_slots l !! i) as [slot|] eqn:Hi.
  2:{ exfalso. apply lookup_ge_None in Hi. apply lookup_lt_Some in Ht.
      destruct Hinv. lia. }
  destruct slot as [|p].
  - destruct (loop_inv_call tracer tasks s0 roots l i inv Hinv Ht Hi)
      as (sp & Hinv').
    destruct (inv_slot _ _ _ _ Hinv i _ Hi) as (root & Hri & Hok).
    destruct root; [done|].
    exists (<[i := Some sp]> roots). split; [done|]. split.
    + intros j sp' Hj. rewrite list_lookup_insert_ne; [done|]. congruence.
    + intros _. exists sp. apply list_lookup_insert_eq.
      by eapply lookup_lt_Some.
  - destruct (inv_slot _ _ _ _ Hinv i _ Hi) as (root & Hri & Hok).
    destruct root as [sp|]; [|done].
    exists roots. split; [|split; [done|by exists sp]].
    unfold step_loop. rewrite Ht, Hi. destruct p as [c| |job]; try done.
    pose proof (loop_inv_job tasks s0 roots l i job Hinv Hi) as Hj.
    by destruct (job (loop_runtime l)).
Qed.

Lemma loop_inv_run tracer tasks s0 schedule roots l :
  loop_inv tasks s0 roots l →
  ∃ roots', loop_inv tasks s0 roots' (run_loop tracer tasks schedule l) ∧
            (∀ j sp, roots !! j = Some (Some sp) → roots' !! j = Some (Some sp)) ∧
            (∀ i, i ∈ schedule → i < length tasks →
                  ∃ sp, roots' !! i = Some (Some sp)).
Proof.
  revert roots l. induction schedule as [|i schedule IH]; intros roots l Hinv.
  - exists roots. split; [done|]. split; [done|]. by intros i ?%elem_of_nil.
  - destruct (loop_inv_step tracer tasks s0 roots l i Hinv)
      as (roots1 & Hinv1 & Hmono1 & Hi).
    destruct (IH roots1 _ Hinv1) as (roots2 & Hinv2 & Hmono2 & Hall).
    exists roots2. split; [done|]. split; [by auto|].
    intros j [->|Hj]%elem_of_cons Hlt; [|by apply Hall].
    destruct (Hi Hlt) as [sp Hsp]. exists sp. by apply Hmono2.
Qed.

End LoopFacts.

Section Flight.
Context `{Platform} `{Conversion}.

(** C2 (amended).  With a tracer provider and a context manager
    registered, let the event loop run the jobs of any number of
    invocations of the middleware in any order.  Every invocation that
    has been called has a span of its own, started as ["request"] under
    the context extracted for it; every event logged is the start of one
    of these spans or a call on one of them; whenever the handler of an
    invocation looks at the active span, it sees the span of its own
    invocation; the span identifiers of different invocations differ; a
    span has the trace identifier of the valid parent extracted for its
    invocation, if there is one; and the trace identifiers of two
    invocations for which no valid parent is extracted differ. *)
Theorem concurrent_invocations_observe_own_spans tracer tasks schedule s :
  w_cm_enabled (rt_world s) = true →
  w_provider (rt_world s) = true →
  let final := loop_runtime (run_loop tracer tasks schedule (start_loop tasks s)) in
  ∃ (roots : list (option SpanHandle)) seen events,
    rt_seen final = rt_seen s ++ seen ∧
    w_log (rt_world final) = w_log (rt_world s) ++ events ∧
    (∀ i, i ∈ schedule → i < length tasks → ∃ sp, roots !! i = Some (Some sp)) ∧
    Forall (event_ok tasks roots) events ∧
    (∀ i sp inv, roots !! i = Some (Some sp) → tasks !! i = Some inv →
       EvStartSpan sp "request" KindServer (extracted inv) ∈ events ∧
       ∀ parent, valid_parent (extracted inv) = Some parent →
                 traceId (spanContext sp) = traceId parent) ∧
    (∀ i x, (i, x) ∈ seen →
       ∃ sp, roots !! i = Some (Some sp) ∧ x = Some (spanContext sp)) ∧
    (∀ i j sp sp', i ≠ j →
       roots !! i = Some (Some sp) → roots !! j = Some (Some sp') →
       spanId (spanContext sp) ≠ spanId (spanContext sp')) ∧
    (∀ i j sp sp' inv inv', i ≠ j →
       roots !! i = Some (Some sp) → roots !! j = Some (Some sp') →
       tasks !! i = Some inv → tasks !! j = Some inv' →
       valid_parent (extracted inv) = None →
       valid_parent (extracted inv') = None →
       traceId (spanContext sp) ≠ traceId (spanContext sp')).
Proof.
  intros Hcm Hp final.
  destruct (loop_inv_run tracer tasks s schedule _ _
              (loop_inv_start tasks s Hcm Hp))
    as (roots & [Hm Hp' Hls Hlr Hslot [seen [Hseen Hall]]
                 [events (Hlog & Hev & Hstart)] Hroot Hd] & _ & Hsched).
  exists roots, seen, events. split_and!; try done.
  - intros i sp inv Hi Ht. split; [by eapply Hstart|].
    intros parent Hpar.
    destruct (Hroot i sp Hi) as (inv' & Ht' & n & _ & _ & Htrace).
    assert (inv' = inv) as -> by congruence. by rewrite Hpar in Htrace.
  - intros i x Hin. rewrite Forall_forall in Hall.
    by destruct (Hall _ Hin) as (sp & Hsp & Hx); exists sp.
  - intros i j sp sp' inv inv' Hne Hi Hj Ht Ht' Hno Hno'.
    destruct (Hroot i sp Hi) as (inv1 & Ht1 & n & _ & Hid & Htrace).
    destruct (Hroot j sp' Hj) as (inv2 & Ht2 & n' & _ & Hid' & Htrace').
    assert (inv1 = inv) as -> by congruence.
    assert (inv2 = inv') as -> by congruence.
    rewrite Hno in Htrace. rewrite Hno' in Htrace'.
    rewrite Htrace, Htrace'. intros [= ->].
    apply (Hd i j sp sp' Hne Hi Hj). congruence.
Qed.

End Flight.

(** C2, as stated, fails.  Two requests of one distributed trace, in
    flight together with the SDK registered: their handlers see the same
    trace identifier.  Two requests without trace context, in flight
    together: with no context manager registered their handlers see no
    span, and with no tracer provider registered they see the same,
    invalid identifiers. *)
Lemma concurrent_requests_share_identifiers :
  let run tracer tasks s :=
    @run_loop Sample.platform SampleLoop.conversion tracer tasks
      SampleFlight.schedule (start_loop tasks s) in
  let called tracer tasks s :=
    @run_loop Sample.platform SampleLoop.conversion tracer tasks [0; 1]
      (start_loop tasks s) in
  let trace := IdRemote "0af7651916cd43dd8448eb211c80319c" in
  (in_flight (called Sample.tracer SampleFlight.traced SampleLoop.runtime1)
   = [0; 1] ∧
   rt_seen (loop_runtime
              (run Sample.tracer SampleFlight.traced SampleLoop.runtime1))
   = [(1, Some {| traceId := trace; spanId := IdGen 2 |});
      (0, Some {| traceId := trace; spanId := IdGen 0 |})]) ∧
  (in_flight (called Sample.tracer SampleFlight.plain
                SampleFlight.runtime_unmanaged) = [0; 1] ∧
   rt_seen (loop_runtime
              (run Sample.tracer SampleFlight.plain
                 SampleFlight.runtime_unmanaged))
   = [(1, None); (0, None)]) ∧
  (in_flight (called SampleFlight.proxy SampleFlight.plain
                SampleFlight.runtime_unprovided) = [0; 1] ∧
   rt_seen (loop_runtime
              (run SampleFlight.proxy SampleFlight.plain
                 SampleFlight.runtime_unprovided))
   = [(1, Some INVALID_SPAN_CONTEXT); (0, Some INVALID_SPAN_CONTEXT)]).
Proof. vm_compute. done. Qed.

Lemma concurrent_invocations_observe_own_spans_witness :
  let final :=
    loop_runtime
      (@run_loop Sample.platform SampleLoop.conversion Sample.tracer
         SampleFlight.plain SampleFlight.schedule
         (start_loop SampleFlight.plain SampleLoop.runtime1)) in
  w_cm_enabled (rt_world SampleLoop.runtime1) = true ∧
  w_provider (rt_world SampleLoop.runtime1) = true ∧
  rt_seen final
  = [(1, Some {| traceId := IdGen 3; spanId := IdGen 2 |});
     (0, Some {| traceId := IdGen 1; spanId := IdGen 0 |})] ∧
  ∃ roots : list (option SpanHandle),
    ∀ i x, (i, x) ∈ rt_seen final →
      ∃ sp, roots !! i = Some (Some sp) ∧ x = Some (spanContext sp).
Proof.
  assert (Hcm : w_cm_enabled (rt_world SampleLoop.runtime1) = true)
    by reflexivity.
  assert (Hp : w_provider (rt_world SampleLoop.runtime1) = true)
    by reflexivity.
  split; [exact Hcm|]. split; [exact Hp|].
  split; [vm_compute; reflexivity|].
  destruct (@concurrent_invocations_observe_own_spans
              Sample.platform SampleLoop.conversion Sample.tracer
              SampleFlight.plain SampleFlight.schedule SampleLoop.runtime1
              Hcm Hp)
    as (roots & seen & events & Hseen & _ & _ & _ & _ & Hsee & _).
  exists roots. intros i x Hin. apply Hsee.
  change (rt_seen SampleLoop.runtime1) with (@nil Sighting) in Hseen.
  cbn [app] in Hseen. by rewrite <- Hseen.
Defined.
